(** * Artifacts: streaming reconciliation and auto-repair loop

    A shallow embedding of the two source files of the repository:

    - the generation endpoint ([POST], the route handler that relays the
      model's token stream and appends a cleaned final record), and
    - the client page ([readStream], [createApp], [fixCode],
      [checkForErrors], [autoFixError] and the start-over control of
      [Page]).

    JavaScript strings are sequences of UTF-16 code units, modelled as
    [list N]; byte chunks ([Uint8Array]) are [list byte]. *)

From Stdlib Require Import String Ascii.
From Stdlib Require Import List NArith Bool Lia Arith.
From Stdlib.Strings Require Import Byte.
Import ListNotations.

Set Warnings "-register-all".

(* ================================================================== *)
(** * JavaScript strings *)
(* ================================================================== *)

Module JS.

(** A string value: its UTF-16 code units, in order. *)
Definition jsstring := list N.

(** An ASCII literal as a JavaScript string. *)
Definition u (s : string) : jsstring :=
  map N_of_ascii (list_ascii_of_string s).

Definition LF : N := 10.        (* '\n' *)
Definition DQUOTE : N := 34.    (* the double quote *)
Definition SQUOTE : N := 39.    (* the single quote *)
Definition BACKTICK : N := 96.

(** Truthiness of a string: only the empty string is falsy. *)
Definition truthy (s : jsstring) : bool :=
  match s with [] => false | _ :: _ => true end.

(** [a || b] on strings. *)
Definition orElse (a b : jsstring) : jsstring := if truthy a then a else b.

Fixpoint eqb (a b : jsstring) : bool :=
  match a, b with
  | [], [] => true
  | x :: a', y :: b' => N.eqb x y && eqb a' b'
  | _, _ => false
  end.

(** [s.startsWith(pat)], with the comparison of code units as a parameter
    so that the same scan serves the case-insensitive patterns. *)
Fixpoint startsWithBy (eqc : N -> N -> bool) (pat s : jsstring) : bool :=
  match pat with
  | [] => true
  | p :: pat' =>
      match s with
      | [] => false
      | c :: s' => eqc p c && startsWithBy eqc pat' s'
      end
  end.

Definition startsWith (s pat : jsstring) : bool := startsWithBy N.eqb pat s.

(** [s.includes(pat)]. *)
Fixpoint includes (s pat : jsstring) : bool :=
  startsWith s pat ||
  match s with
  | [] => false
  | _ :: r => includes r pat
  end.

(** WhiteSpace and LineTerminator code units, the set removed by
    [String.prototype.trim]. *)
Definition isWhiteSpace (c : N) : bool :=
  ((9 <=? c) && (c <=? 13) || (c =? 32) || (c =? 160) || (c =? 5760)
   || (8192 <=? c) && (c <=? 8202) || (c =? 8232) || (c =? 8233)
   || (c =? 8239) || (c =? 8287) || (c =? 12288) || (c =? 65279))%N.

Fixpoint trimStart (s : jsstring) : jsstring :=
  match s with
  | [] => []
  | c :: r => if isWhiteSpace c then trimStart r else s
  end.

Fixpoint trimEnd (s : jsstring) : jsstring :=
  match s with
  | [] => []
  | c :: r =>
      match trimEnd r with
      | [] => if isWhiteSpace c then [] else [c]
      | r' => c :: r'
      end
  end.

(** [s.trim()]. *)
Definition trim (s : jsstring) : jsstring := trimEnd (trimStart s).

(** [s.split(sep)] for a separator of one code unit. The result is never
    empty: a string without separator is returned as its only piece. *)
Fixpoint split (sep : N) (s : jsstring) : list jsstring :=
  match s with
  | [] => [[]]
  | c :: r =>
      if N.eqb c sep then [] :: split sep r
      else match split sep r with
           | [] => [[c]]
           | l :: ls => (c :: l) :: ls
           end
  end.

(** [pieces.join('')]. *)
Definition join (pieces : list jsstring) : jsstring := concat pieces.

(** Canonicalization of a code unit under the [i] flag of a regular
    expression without the [u] flag, restricted to what decides a match
    against an ASCII pattern character: ASCII lower-case letters map to
    upper case. (A code unit above 127 never canonicalizes to an ASCII
    one, so it never matches an ASCII pattern character.) *)
Definition canonicalize (c : N) : N :=
  if ((97 <=? c) && (c <=? 122))%N then (c - 32)%N else c.

Definition eqCodeUnit (ignoreCase : bool) (p c : N) : bool :=
  if ignoreCase then N.eqb (canonicalize p) (canonicalize c) else N.eqb p c.

(** [s.replace(re, '')] for a global regular expression [re] that never
    matches the empty string. [m] gives, for the text at the current index,
    the length of the match that starts there, if any. The scan goes left to
    right; after a match it resumes at the end of the match, otherwise the
    code unit is copied. [skip] counts the code units of the current match
    that are still to be dropped. *)
Fixpoint replaceGo (m : jsstring -> option nat) (skip : nat) (s : jsstring)
  : jsstring :=
  match s with
  | [] => []
  | c :: r =>
      match skip with
      | S k => replaceGo m k r
      | O =>
          match m s with
          | Some (S k) => replaceGo m k r
          | _ => c :: replaceGo m 0 r
          end
      end
  end.

Definition replaceAll (m : jsstring -> option nat) (s : jsstring) : jsstring :=
  replaceGo m 0 s.

End JS.

Import JS.

(* ================================================================== *)
(** * The wire format shared by the endpoint and the page *)
(* ================================================================== *)

Module Wire.

(** One element of [choices]: [{ text, cleanedCode? }]. A field that is
    absent (or [undefined]) is [None]. *)
Record Choice := mkChoice {
  text : option jsstring;
  cleanedCode : option jsstring
}.

(** One record of the stream, [{ choices: [...] }]; [choices] is [None]
    when the record has no such property. *)
Record StreamRecord := mkRecord {
  choices : option (list Choice)
}.

(** The two records the endpoint writes:
    [{ choices: [{ text }] }] and [{ choices: [{ text: '', cleanedCode }] }]. *)
Definition fragmentRecord (t : jsstring) : StreamRecord :=
  mkRecord (Some [mkChoice (Some t) None]).

Definition finalRecord (cleaned : jsstring) : StreamRecord :=
  mkRecord (Some [mkChoice (Some []) (Some cleaned)]).

(** The events of the data model, and the record that carries each. *)
Inductive StreamEvent :=
| Fragment (t : jsstring)
| FinalCleaned (t : jsstring).

Definition wire (e : StreamEvent) : StreamRecord :=
  match e with
  | Fragment t => fragmentRecord t
  | FinalCleaned t => finalRecord t
  end.

Definition isFinal (r : StreamRecord) : bool :=
  match choices r with
  | Some cs => existsb (fun c => match cleanedCode c with Some _ => true | None => false end) cs
  | None => false
  end.

End Wire.

Import Wire.

(* ================================================================== *)
(** * The generation endpoint: relay and completion cleanup *)
(* ================================================================== *)

Module Route.

(** The fence marker, three backticks. *)
Definition fence : jsstring := [BACKTICK; BACKTICK; BACKTICK].

(** The match of [/```tag\n?/] at the head of [s] (flag [i] when
    [ignoreCase]): the literal, then a line feed if one follows. *)
Definition fenceMatch (ignoreCase : bool) (tag : jsstring) (s : jsstring)
  : option nat :=
  let literal := fence ++ tag in
  if startsWithBy (eqCodeUnit ignoreCase) literal s then
    match skipn (length literal) s with
    | c :: _ => if N.eqb c LF then Some (S (length literal))
                else Some (length literal)
    | [] => Some (length literal)
    end
  else None.

(** [cleanedCode.replace(/```tag\n?/gi, '')] and [.replace(/```\n?/g, '')]. *)
Definition stripFence (ignoreCase : bool) (tag : jsstring) (s : jsstring)
  : jsstring :=
  replaceAll (fenceMatch ignoreCase tag) s.

(** The body of [if (buffer.includes('```')) { ... }]: the five
    replacements in the order of the source, then [trim]. *)
Definition cleanCode (buffer : jsstring) : jsstring :=
  let cleanedCode := buffer in
  let cleanedCode := stripFence true (u "typescript") cleanedCode in
  let cleanedCode := stripFence true (u "tsx") cleanedCode in
  let cleanedCode := stripFence true (u "jsx") cleanedCode in
  let cleanedCode := stripFence true (u "javascript") cleanedCode in
  let cleanedCode := stripFence false [] cleanedCode in
  trim cleanedCode.

(** A chunk of the model's stream, reduced to what the loop reads:
    [chunk.choices[0]?.delta?.content], [None] when that is missing. *)
Definition Delta := option jsstring.

Definition deltaText (chunk : Delta) : jsstring :=
  match chunk with Some t => t | None => [] end.

(** State of [start(controller)]: the buffer and the records enqueued so
    far (each is written as one JSON line). *)
Record Controller := mkController {
  buffer : jsstring;
  queue : list StreamRecord
}.

Definition enqueue (r : StreamRecord) (c : Controller) : Controller :=
  mkController (buffer c) (queue c ++ [r]).

(** One iteration of [for await (const chunk of response)]. *)
Definition relay (c : Controller) (chunk : Delta) : Controller :=
  let text := deltaText chunk in
  if truthy text then
    enqueue (fragmentRecord text) (mkController (buffer c ++ text) (queue c))
  else c.

(** After the loop: the cleaned record when the buffer has a fence. *)
Definition finish (c : Controller) : Controller :=
  if includes (buffer c) fence then
    enqueue (finalRecord (cleanCode (buffer c))) c
  else c.

(** [start(controller)] run to [controller.close()]. *)
Definition start (response : list Delta) : Controller :=
  finish (fold_left relay response (mkController [] [])).

End Route.

(* ================================================================== *)
(** * The cleanup as the specification words it

    Written from the sentence of the specification and not from the code,
    to be compared with [Route.cleanCode]: remove the fence markers of a
    fixed set of tags (the tags of TypeScript, TSX, JSX and JavaScript, and
    the plain fence), each with a line feed that follows it, the letters of
    a tag in either case; then trim. *)
(* ================================================================== *)

Module CleanupContract.

Local Open Scope N_scope.

(** The tags, the plain fence last, so that the fence of a tagged marker
    goes with its tag. *)
Definition tags : list jsstring :=
  [u "typescript"; u "tsx"; u "jsx"; u "javascript"; []].

(** The lower-case letter [p] of a tag, met in lower or in upper case. *)
Definition isLetter (p c : N) : bool := (c =? p) || (c =? p - 32).

(** What follows the letters of [tag] at the head of [s]. *)
Fixpoint afterTag (tag s : jsstring) : option jsstring :=
  match tag with
  | [] => Some s
  | p :: tag' =>
      match s with
      | c :: s' => if isLetter p c then afterTag tag' s' else None
      | [] => None
      end
  end.

(** What follows a marker of [tag] at the head of [s]: three backticks,
    the tag, and a line feed if there is one. *)
Definition afterMarker (tag s : jsstring) : option jsstring :=
  match s with
  | a :: b :: c :: s' =>
      if (a =? 96) && (b =? 96) && (c =? 96) then
        match afterTag tag s' with
        | Some (x :: rest) => Some (if x =? 10 then rest else x :: rest)
        | Some [] => Some []
        | None => None
        end
      else None
  | _ => None
  end.

(** [s] without the markers of [tag], met from left to right. *)
Fixpoint withoutMarkers (fuel : nat) (tag s : jsstring) : jsstring :=
  match fuel with
  | O => []
  | S n =>
      match s with
      | [] => []
      | c :: r =>
          match afterMarker tag s with
          | Some rest => withoutMarkers n tag rest
          | None => c :: withoutMarkers n tag r
          end
      end
  end.

Definition removeMarkers (tag s : jsstring) : jsstring :=
  withoutMarkers (List.length s) tag s.

(** The cleaned code of a raw output. *)
Definition cleaned (raw : jsstring) : jsstring :=
  trim (fold_left (fun s tag => removeMarkers tag s) tags raw).

End CleanupContract.

(* ================================================================== *)
(** * [TextDecoder]: streaming UTF-8 decoding *)
(* ================================================================== *)

Module TextDecoder.

Local Open Scope N_scope.

(** The state a [TextDecoder('utf-8')] keeps between calls of
    [decode(value, { stream: true })]: the UTF-8 decoder's variables and
    the BOM-seen flag. *)
Record state := mkState {
  codePoint : N;
  bytesSeen : N;
  bytesNeeded : N;
  lowerBoundary : N;
  upperBoundary : N;
  bomSeen : bool
}.

Definition new : state := mkState 0 0 0 128 191 false.

Definition REPLACEMENT : N := 65533.   (* U+FFFD *)
Definition BOM : N := 65279.           (* U+FEFF *)

Definition reset (st : state) : state :=
  mkState 0 0 0 128 191 (bomSeen st).

Definition setBomSeen (seen : bool) (st : state) : state :=
  mkState (codePoint st) (bytesSeen st) (bytesNeeded st)
    (lowerBoundary st) (upperBoundary st) seen.

(** A byte read while no sequence is pending. *)
Definition leadByte (st : state) (b : N) : state * list N :=
  if b <=? 127 then (st, [b])
  else if (194 <=? b) && (b <=? 223) then
    (mkState (N.land b 31) 0 1 128 191 (bomSeen st), [])
  else if (224 <=? b) && (b <=? 239) then
    (mkState (N.land b 15) 0 2
       (if b =? 224 then 160 else 128)
       (if b =? 237 then 159 else 191) (bomSeen st), [])
  else if (240 <=? b) && (b <=? 244) then
    (mkState (N.land b 7) 0 3
       (if b =? 240 then 144 else 128)
       (if b =? 244 then 143 else 191) (bomSeen st), [])
  else (st, [REPLACEMENT]).

(** The UTF-8 decoder's handler for one byte: the new state and the code
    points emitted. A byte outside the expected range ends the pending
    sequence with U+FFFD and is then read again as a lead byte. *)
Definition handler (st : state) (b : N) : state * list N :=
  if bytesNeeded st =? 0 then leadByte st b
  else if (b <? lowerBoundary st) || (upperBoundary st <? b) then
    let (st', out) := leadByte (reset st) b in (st', REPLACEMENT :: out)
  else
    let cp := N.lor (N.shiftl (codePoint st) 6) (N.land b 63) in
    let seen := bytesSeen st + 1 in
    if seen =? bytesNeeded st then (reset st, [cp])
    else (mkState cp seen (bytesNeeded st) 128 191 (bomSeen st), []).

Fixpoint run (st : state) (bytes : list N) : state * list N :=
  match bytes with
  | [] => (st, [])
  | b :: rest =>
      let (st1, out1) := handler st b in
      let (st2, out2) := run st1 rest in
      (st2, out1 ++ out2)
  end.

(** A code point as UTF-16 code units. *)
Definition codeUnits (cp : N) : jsstring :=
  if cp <? 65536 then [cp]
  else let v := cp - 65536 in
       [55296 + N.shiftr v 10; 56320 + N.land v 1023].

(** Serialization of the decoded code points: the first code point of the
    stream is dropped when it is the byte order mark. *)
Fixpoint serialize (seen : bool) (cps : list N) : bool * jsstring :=
  match cps with
  | [] => (seen, [])
  | cp :: rest =>
      if negb seen && (cp =? BOM) then serialize true rest
      else let (seen', out) := serialize true rest in
           (seen', codeUnits cp ++ out)
  end.

(** [decoder.decode(value, { stream: true })]: pending bytes of an
    unfinished sequence stay in the state for the next call. *)
Definition decode (st : state) (value : list byte) : state * jsstring :=
  let (st1, cps) := run st (map Byte.to_N value) in
  let (seen, text) := serialize (bomSeen st1) cps in
  (setBomSeen seen st1, text).

End TextDecoder.

(* ================================================================== *)
(** * [JSON.parse] *)
(* ================================================================== *)

Module JSON.

Local Open Scope N_scope.

(** A parsed value. A number is kept as the text of its token (its value
    as a double is not needed here); an object keeps its members in source
    order. *)
Inductive value :=
| JNull
| JBool (b : bool)
| JNumber (token : jsstring)
| JString (s : jsstring)
| JArray (items : list value)
| JObject (members : list (jsstring * value)).

Definition isJsonSpace (c : N) : bool :=
  (c =? 9) || (c =? 10) || (c =? 13) || (c =? 32).

Fixpoint skipSpace (s : jsstring) : jsstring :=
  match s with
  | c :: r => if isJsonSpace c then skipSpace r else s
  | [] => []
  end.

Definition isDigit (c : N) : bool := (48 <=? c) && (c <=? 57).

Fixpoint digits (s : jsstring) : jsstring * jsstring :=
  match s with
  | c :: r => if isDigit c then let (d, rest) := digits r in (c :: d, rest)
              else ([], s)
  | [] => ([], [])
  end.

Definition hexValue (c : N) : option N :=
  if isDigit c then Some (c - 48)
  else if (97 <=? c) && (c <=? 102) then Some (c - 87)
  else if (65 <=? c) && (c <=? 70) then Some (c - 55)
  else None.

(** The characters of a string token after its opening quote, up to and
    including the closing quote. *)
Fixpoint stringBody (s : jsstring) : option (jsstring * jsstring) :=
  match s with
  | [] => None
  | c :: r =>
      if c =? 34 then Some ([], r)
      else if c <? 32 then None
      else if c =? 92 then
        match r with
        | e :: r1 =>
            let simple (x : N) :=
              match stringBody r1 with
              | Some (t, rest) => Some (x :: t, rest)
              | None => None
              end in
            if e =? 34 then simple 34
            else if e =? 92 then simple 92
            else if e =? 47 then simple 47
            else if e =? 98 then simple 8
            else if e =? 102 then simple 12
            else if e =? 110 then simple 10
            else if e =? 114 then simple 13
            else if e =? 116 then simple 9
            else if e =? 117 then
              match r1 with
              | h1 :: h2 :: h3 :: h4 :: r2 =>
                  match hexValue h1, hexValue h2, hexValue h3, hexValue h4 with
                  | Some a, Some b, Some c', Some d =>
                      match stringBody r2 with
                      | Some (t, rest) =>
                          Some (((a * 16 + b) * 16 + c') * 16 + d :: t, rest)
                      | None => None
                      end
                  | _, _, _, _ => None
                  end
              | _ => None
              end
            else None
        | [] => None
        end
      else
        match stringBody r with
        | Some (t, rest) => Some (c :: t, rest)
        | None => None
        end
  end.

(** A number token: an optional minus sign; an integer part, either a
    single zero or a non-zero digit and further digits; optionally a point
    and one digit or more; optionally an exponent mark, a sign and one digit
    or more. *)
Definition numberToken (s : jsstring) : option (jsstring * jsstring) :=
  let (sign, s1) :=
    match s with
    | c :: r => if c =? 45 then ([c], r) else ([], s)
    | [] => ([], s)
    end in
  let intPart :=
    match s1 with
    | c :: r =>
        if c =? 48 then Some ([c], r)
        else if isDigit c then let (d, rest) := digits r in Some (c :: d, rest)
        else None
    | [] => None
    end in
  match intPart with
  | None => None
  | Some (ip, s2) =>
      let fracPart :=
        match s2 with
        | c :: r =>
            if c =? 46 then
              match digits r with
              | ([], _) => None
              | (d, rest) => Some (c :: d, rest)
              end
            else Some ([], s2)
        | [] => Some ([], s2)
        end in
      match fracPart with
      | None => None
      | Some (fp, s3) =>
          let expPart :=
            match s3 with
            | c :: r =>
                if (c =? 101) || (c =? 69) then
                  let (sg, r') :=
                    match r with
                    | x :: r1 => if (x =? 43) || (x =? 45) then ([x], r1)
                                 else ([], r)
                    | [] => ([], r)
                    end in
                  match digits r' with
                  | ([], _) => None
                  | (d, rest) => Some (c :: sg ++ d, rest)
                  end
                else Some ([], s3)
            | [] => Some ([], s3)
            end in
          match expPart with
          | None => None
          | Some (ep, s4) => Some (sign ++ ip ++ fp ++ ep, s4)
          end
      end
  end.

(** [s] with the literal [lit] removed from its head. *)
Definition literal (lit : jsstring) (v : value) (s : jsstring)
  : option (value * jsstring) :=
  if startsWith s lit then Some (v, skipn (length lit) s) else None.

(** Recursive descent over values, array elements and object members.
    Every call consumes fuel; [parse] gives more than any text needs. *)
Fixpoint parseValue (fuel : nat) (s : jsstring) {struct fuel}
  : option (value * jsstring) :=
  match fuel with
  | O => None
  | S n =>
      match skipSpace s with
      | [] => None
      | c :: r =>
          if c =? 123 then                       (* an object *)
            match skipSpace r with
            | c' :: r' =>
                if c' =? 125 then Some (JObject [], r')
                else match parseMembers n r with
                     | Some (ms, rest) => Some (JObject ms, rest)
                     | None => None
                     end
            | [] => None
            end
          else if c =? 91 then                   (* an array *)
            match skipSpace r with
            | c' :: r' =>
                if c' =? 93 then Some (JArray [], r')
                else match parseElements n r with
                     | Some (vs, rest) => Some (JArray vs, rest)
                     | None => None
                     end
            | [] => None
            end
          else if c =? 34 then                   (* a string *)
            match stringBody r with
            | Some (t, rest) => Some (JString t, rest)
            | None => None
            end
          else if c =? 116 then literal (u "true") (JBool true) (c :: r)
          else if c =? 102 then literal (u "false") (JBool false) (c :: r)
          else if c =? 110 then literal (u "null") JNull (c :: r)
          else
            match numberToken (c :: r) with
            | Some (t, rest) => Some (JNumber t, rest)
            | None => None
            end
      end
  end

with parseElements (fuel : nat) (s : jsstring) {struct fuel}
  : option (list value * jsstring) :=
  match fuel with
  | O => None
  | S n =>
      match parseValue n s with
      | Some (v, rest) =>
          match skipSpace rest with
          | c :: r =>
              if c =? 44 then
                match parseElements n r with
                | Some (vs, rest') => Some (v :: vs, rest')
                | None => None
                end
              else if c =? 93 then Some ([v], r)
              else None
          | [] => None
          end
      | None => None
      end
  end

with parseMembers (fuel : nat) (s : jsstring) {struct fuel}
  : option (list (jsstring * value) * jsstring) :=
  match fuel with
  | O => None
  | S n =>
      match skipSpace s with
      | c :: r =>
          if c =? 34 then
            match stringBody r with
            | Some (key, rest) =>
                match skipSpace rest with
                | c2 :: r2 =>
                    if c2 =? 58 then
                      match parseValue n r2 with
                      | Some (v, rest2) =>
                          match skipSpace rest2 with
                          | c3 :: r3 =>
                              if c3 =? 44 then
                                match parseMembers n r3 with
                                | Some (ms, rest3) => Some ((key, v) :: ms, rest3)
                                | None => None
                                end
                              else if c3 =? 125 then Some ([(key, v)], r3)
                              else None
                          | [] => None
                          end
                      | None => None
                      end
                    else None
                | [] => None
                end
            | None => None
            end
          else None
      | [] => None
      end
  end.

(** [JSON.parse(text)]: one value, surrounded by optional white space;
    [None] stands for the [SyntaxError] it throws otherwise. *)
Definition parse (text : jsstring) : option value :=
  match parseValue (2 * List.length text + 2) text with
  | Some (v, rest) =>
      match skipSpace rest with
      | [] => Some v
      | _ :: _ => None
      end
  | None => None
  end.

End JSON.

(* ================================================================== *)
(** * The stream decoder: [readStream] *)
(* ================================================================== *)

Module Decoder.

(** What [response.body.getReader()] delivers: the chunks read until
    [done], and whether a read then rejected instead of reporting [done]. *)
Record Reader := mkReader {
  chunks : list (list byte);
  rejects : bool
}.

(** What the generator has done when its consumer has drained it: the
    values yielded, the lines reported with [console.error], and whether
    it ended by rethrowing a rejected read. *)
Record Run := mkRun {
  yielded : list JSON.value;
  logged : list jsstring;
  threw : bool
}.

Definition emptyRun : Run := mkRun [] [] false.

(** The body of [for (const line of lines)]. *)
Definition readLine (acc : Run) (line : jsstring) : Run :=
  if truthy (trim line) then
    match JSON.parse line with
    | Some v => mkRun (yielded acc ++ [v]) (logged acc) (threw acc)
    | None => mkRun (yielded acc) (logged acc ++ [line]) (threw acc)
    end
  else acc.

(** One iteration of [while (true)] for a chunk that was read. *)
Definition readChunk (st : TextDecoder.state * Run) (value : list byte)
  : TextDecoder.state * Run :=
  let (decoder, acc) := st in
  let (decoder', text) := TextDecoder.decode decoder value in
  let lines := split LF text in
  (decoder', fold_left readLine lines acc).

(** [readStream(response)], drained. [None] is a response without body:
    the generator returns at once. *)
Definition readStream (body : option Reader) : Run :=
  match body with
  | None => emptyRun
  | Some reader =>
      let (_, acc) := fold_left readChunk (chunks reader) (TextDecoder.new, emptyRun) in
      mkRun (yielded acc) (logged acc) (rejects reader)
  end.

End Decoder.

(* ================================================================== *)
(** * The page: state, handlers and triggers *)
(* ================================================================== *)

Module Page.

Inductive Role := user | assistant | system.

Record Message := mkMessage {
  role : Role;
  content : jsstring
}.

(** The state held by the ten [useState] hooks of [Page]. *)
Record State := mkState {
  prompt : jsstring;
  generatedCode : jsstring;
  isGenerating : bool;
  messages : list Message;
  fixPrompt : jsstring;
  showFixInput : bool;
  hasError : bool;
  isAutoFixing : bool;
  autoFixAttempts : nat;
  lastError : jsstring
}.

(** The initial values passed to [useState]. *)
Definition initial : State :=
  mkState [] [] false [] [] false false false 0 [].

(** A render is one invocation of [Page]. Its [const [x, setX] =
    useState(...)] bind the state as it is at that invocation, and the
    functions declared in [Page] ([createApp], [fixCode],
    [checkForErrors], [autoFixError]) close over these constants. Every
    handler below therefore takes the render [r] whose function it is, from
    which it reads, and the current state [s], which the setters update. *)
Definition Render := State.

Definition setPrompt (v : jsstring) (s : State) : State :=
  mkState v (generatedCode s) (isGenerating s) (messages s) (fixPrompt s)
    (showFixInput s) (hasError s) (isAutoFixing s) (autoFixAttempts s)
    (lastError s).
Definition setGeneratedCode (v : jsstring) (s : State) : State :=
  mkState (prompt s) v (isGenerating s) (messages s) (fixPrompt s)
    (showFixInput s) (hasError s) (isAutoFixing s) (autoFixAttempts s)
    (lastError s).
Definition setIsGenerating (v : bool) (s : State) : State :=
  mkState (prompt s) (generatedCode s) v (messages s) (fixPrompt s)
    (showFixInput s) (hasError s) (isAutoFixing s) (autoFixAttempts s)
    (lastError s).
(** [setMessages] takes a value ([fun _ => v]) or an updater of the
    previous value, as the other setter called with a function does. *)
Definition setMessages (f : list Message -> list Message) (s : State) : State :=
  mkState (prompt s) (generatedCode s) (isGenerating s) (f (messages s))
    (fixPrompt s) (showFixInput s) (hasError s) (isAutoFixing s)
    (autoFixAttempts s) (lastError s).
Definition setFixPrompt (v : jsstring) (s : State) : State :=
  mkState (prompt s) (generatedCode s) (isGenerating s) (messages s) v
    (showFixInput s) (hasError s) (isAutoFixing s) (autoFixAttempts s)
    (lastError s).
Definition setShowFixInput (v : bool) (s : State) : State :=
  mkState (prompt s) (generatedCode s) (isGenerating s) (messages s)
    (fixPrompt s) v (hasError s) (isAutoFixing s) (autoFixAttempts s)
    (lastError s).
Definition setHasError (v : bool) (s : State) : State :=
  mkState (prompt s) (generatedCode s) (isGenerating s) (messages s)
    (fixPrompt s) (showFixInput s) v (isAutoFixing s) (autoFixAttempts s)
    (lastError s).
Definition setIsAutoFixing (v : bool) (s : State) : State :=
  mkState (prompt s) (generatedCode s) (isGenerating s) (messages s)
    (fixPrompt s) (showFixInput s) (hasError s) v (autoFixAttempts s)
    (lastError s).
Definition setAutoFixAttempts (f : nat -> nat) (s : State) : State :=
  mkState (prompt s) (generatedCode s) (isGenerating s) (messages s)
    (fixPrompt s) (showFixInput s) (hasError s) (isAutoFixing s)
    (f (autoFixAttempts s)) (lastError s).
Definition setLastError (v : jsstring) (s : State) : State :=
  mkState (prompt s) (generatedCode s) (isGenerating s) (messages s)
    (fixPrompt s) (showFixInput s) (hasError s) (isAutoFixing s)
    (autoFixAttempts s) v.

(** The body of a request to [/api/generateCode]; [createApp] sends no
    [currentCode]. *)
Record Request := mkRequest {
  reqPrompt : jsstring;
  reqMessages : list Message;
  reqCurrentCode : option jsstring
}.

(** What the page gets back: the status flag [res.ok], the records that
    [readStream(res)] yields (of the wire shape), and whether the stream
    then ends with a rejected read. *)
Record Response := mkResponse {
  ok : bool;
  results : list StreamRecord;
  rejects : bool
}.

(** Which function is suspended on a [fetch], and of which render. *)
Inductive Awaiting :=
| inCreateApp (r : Render)
| inFixCode (r : Render).

Inductive Effect :=
| Fetch (req : Request) (k : Awaiting)
| SetTimeout (r : Render)     (* setTimeout(() => { checkForErrors(); }, 3000)
                                 issued by a function of render [r] *)
| ConsoleError
| Alert (msg : jsstring).

(** ** The code accumulator (the loop body shared by [createApp] and
    [fixCode]) *)

(** [fullCode] after one [result] with [choices]. *)
Definition accumulate (fullCode : jsstring) (cs : list Choice) : jsstring :=
  let newText :=
    join (map (fun c => match text c with Some t => t | None => [] end) cs) in
  let fullCode := fullCode ++ newText in
  match cs with
  | c0 :: _ =>
      match cleanedCode c0 with
      | Some cleaned => cleaned
      | None => fullCode
      end
  | [] => fullCode
  end.

(** One iteration of [for await (const result of readStream(res))]. *)
Definition consume (acc : jsstring * State) (result : StreamRecord)
  : jsstring * State :=
  let (fullCode, s) := acc in
  match choices result with
  | Some cs =>
      let fullCode := accumulate fullCode cs in
      (fullCode, setGeneratedCode fullCode s)
  | None => acc
  end.

(** The whole loop, from [let fullCode = '']. *)
Definition consumeAll (rs : list StreamRecord) (s : State) : jsstring * State :=
  fold_left consume rs ([], s).

(** ** Regular expressions of the error watcher *)

Definition isQuote (c : N) : bool := N.eqb c SQUOTE || N.eqb c DQUOTE.

(** [\w] *)
Definition isWordChar (c : N) : bool :=
  ((48 <=? c) && (c <=? 57) || (65 <=? c) && (c <=? 90) || (c =? 95)
   || (97 <=? c) && (c <=? 122))%N.

Fixpoint takeWhile (p : N -> bool) (s : jsstring) : jsstring :=
  match s with
  | c :: r => if p c then c :: takeWhile p r else []
  | [] => []
  end.

Fixpoint dropWhile (p : N -> bool) (s : jsstring) : jsstring :=
  match s with
  | c :: r => if p c then dropWhile p r else s
  | [] => []
  end.

(** [s.match(re)] for a regular expression without the [g] flag: the
    first index, from the left, at which [re] matches; [m] is the match of
    [re] anchored at the head of its argument and returns group 1. *)
Fixpoint search (m : jsstring -> option jsstring) (s : jsstring)
  : option jsstring :=
  match m s with
  | Some g => Some g
  | None =>
      match s with
      | [] => None
      | _ :: r => search m r
      end
  end.

(** The regular expression of [autoFixError] for a quoted name, anchored:
    a quote (single or double), the longest run of code units that are not
    quotes, which must not be empty and is group 1, and a quote. *)
Definition quotedAt (s : jsstring) : option jsstring :=
  match s with
  | q :: r =>
      if isQuote q then
        let run := takeWhile (fun c => negb (isQuote c)) r in
        match run, dropWhile (fun c => negb (isQuote c)) r with
        | _ :: _, _ :: _ => Some run
        | _, _ => None
        end
      else None
  | [] => None
  end.

(** The regular expression of [checkForErrors] for a missing module,
    anchored: the literal [Cannot find module ], then a quoted name as
    above. *)
Definition cannotFindModuleAt (s : jsstring) : option jsstring :=
  let lit := u "Cannot find module " in
  if startsWith s lit then quotedAt (skipn (List.length lit) s) else None.

(** [/(\w+) is not defined/] anchored: the longest run of word characters,
    not empty, then the literal. *)
Definition notDefinedAt (s : jsstring) : option jsstring :=
  let word := takeWhile isWordChar s in
  match word with
  | _ :: _ =>
      if startsWith (dropWhile isWordChar s) (u " is not defined")
      then Some word else None
  | [] => None
  end.

(** ** The error watcher and the auto-fix controller *)

(** What [checkForErrors] finds when it looks for the preview. *)
Inductive Preview :=
| NoIframe                       (* querySelector returns null *)
| NoDocument                     (* neither contentDocument nor contentWindow's *)
| AccessThrows                   (* reading the frame's document throws *)
| Document (innerText : option jsstring)   (* iframeDoc.body?.innerText *)
           (errorElements : list jsstring). (* textContent of each match of
                                               the selector, in order *)

(** Lines 182 to 197: the message extracted from the document. *)
Definition extractError (bodyText : jsstring) (errorElements : list jsstring)
  : jsstring :=
  let errorMessage := [] in
  if includes bodyText (u "Cannot find module")
     || includes bodyText (u "Module not found") then
    match search cannotFindModuleAt bodyText with
    | Some m1 => u "Cannot find module '" ++ m1 ++ u "'"
    | None => errorMessage
    end
  else if includes bodyText (u "is not defined") then
    match search notDefinedAt bodyText with
    | Some m1 => m1 ++ u " is not defined"
    | None => errorMessage
    end
  else
    match errorElements with
    | el :: _ => orElse el (u "Unknown error")
    | [] => errorMessage
    end.

(** The instruction synthesized by [autoFixError]. *)
Definition autoFixPrompt (errorMessage : jsstring) : jsstring :=
  if includes errorMessage (u "Cannot find module")
     || includes errorMessage (u "Module not found") then
    let moduleName :=
      match search quotedAt errorMessage with Some m1 => m1 | None => [] end in
    u "Fix the import error for module " ++ [DQUOTE] ++ moduleName ++ [DQUOTE]
      ++ u ". If this is an external library, remove it and implement the functionality using only React, TypeScript, and Tailwind CSS. If it's a typo, correct it."
  else if includes errorMessage (u "is not defined") then
    let undefinedVar :=
      match search notDefinedAt errorMessage with Some m1 => m1 | None => [] end in
    u "Fix the error: " ++ [DQUOTE] ++ undefinedVar ++ u " is not defined"
      ++ [DQUOTE]
      ++ u ". Make sure to properly import or define this variable/function."
  else u "Fix this error: " ++ errorMessage.

(** [fixCode(e, customFixPrompt)] up to its first [await]. [e] is only
    asked to [preventDefault()], which touches no state. *)
Definition fixRequestOf (r : Render) (customFixPrompt : option jsstring)
  : jsstring :=
  match customFixPrompt with            (* customFixPrompt || fixPrompt *)
  | Some c => orElse c (fixPrompt r)
  | None => fixPrompt r
  end.

Definition fixCode (r : Render) (customFixPrompt : option jsstring) (s : State)
  : State * list Effect :=
  let fixRequest := fixRequestOf r customFixPrompt in
  if negb (truthy (trim fixRequest)) then (s, [])
  else
    let s := setIsGenerating true s in
    let newMessages := messages r ++ [mkMessage user fixRequest] in
    let s := setMessages (fun _ => newMessages) s in
    (s, [Fetch (mkRequest fixRequest newMessages (Some (generatedCode r)))
           (inFixCode r)]).

(** [fixCode] from the response on: the [try] block after [fetch], the
    [catch] and the [finally]. *)
Definition fixCode_resume (r : Render) (res : Response) (s : State)
  : State * list Effect :=
  let failure := [ConsoleError; Alert (u "Failed to fix code. Please try again.")] in
  let (s, effects) :=
    if negb (ok res) then (s, failure)
    else
      let (fullCode, s) := consumeAll (results res) s in
      if rejects res then (s, failure)
      else
        let s := setMessages (fun prev => prev ++ [mkMessage assistant fullCode]) s in
        let s := setFixPrompt [] s in
        let s := setHasError false s in
        (s, [SetTimeout r]) in
  let s := setIsGenerating false s in
  let s := setIsAutoFixing false s in
  (s, effects).

(** [autoFixError(errorMessage)] up to the [await] inside [fixCode]. *)
Definition autoFixError (r : Render) (errorMessage : jsstring) (s : State)
  : State * list Effect :=
  if isAutoFixing r || (3 <=? autoFixAttempts r) then (s, [])
  else
    let s := setIsAutoFixing true s in
    let s := setAutoFixAttempts (fun prev => prev + 1) s in
    fixCode r (Some (autoFixPrompt errorMessage)) s.

(** [checkForErrors()]. *)
Definition checkForErrors (r : Render) (preview : Preview) (s : State)
  : State * list Effect :=
  if isGenerating r || isAutoFixing r || (3 <=? autoFixAttempts r) then (s, [])
  else
    match preview with
    | NoIframe | NoDocument | AccessThrows => (s, [])
    | Document innerText errorElements =>
        let bodyText := match innerText with Some t => t | None => [] end in
        let errorMessage := extractError bodyText errorElements in
        if truthy errorMessage && negb (JS.eqb errorMessage (lastError r)) then
          let s := setLastError errorMessage s in
          let s := setHasError true s in
          autoFixError r errorMessage s
        else (s, [])
    end.

(** ** Generation and restart *)

(** [createApp(e)] up to its first [await]. *)
Definition createApp (r : Render) (s : State) : State * list Effect :=
  let s := setGeneratedCode [] s in
  let s := setIsGenerating true s in
  let s := setMessages (fun _ => [mkMessage user (prompt r)]) s in
  let s := setShowFixInput false s in
  let s := setHasError false s in
  let s := setAutoFixAttempts (fun _ => 0) s in
  (s, [Fetch (mkRequest (prompt r) [] None) (inCreateApp r)]).

(** [createApp] from the response on. *)
Definition createApp_resume (r : Render) (res : Response) (s : State)
  : State * list Effect :=
  let failure :=
    [ConsoleError; Alert (u "Failed to generate code. Please try again.")] in
  let (s, effects) :=
    if negb (ok res) then (s, failure)
    else
      let (fullCode, s) := consumeAll (results res) s in
      if rejects res then (s, failure)
      else
        let s := setMessages (fun prev => prev ++ [mkMessage assistant fullCode]) s in
        let s := setShowFixInput true s in
        (s, [SetTimeout r]) in
  let s := setIsGenerating false s in
  let s := setPrompt [] s in
  (s, effects).

(** The [onClick] of the Start Over button. *)
Definition startOver (s : State) : State :=
  let s := setGeneratedCode [] s in
  let s := setMessages (fun _ => []) s in
  let s := setShowFixInput false s in
  let s := setFixPrompt [] s in
  let s := setHasError false s in
  let s := setAutoFixAttempts (fun _ => 0) s in
  setLastError [] s.

(** ** A session: user actions, responses and the one-shot checks

    The state, the functions suspended on a [fetch], the callbacks passed
    to [setTimeout] that have not run yet (each is the [checkForErrors] of
    the render that scheduled it) and the requests sent so far.

    The recurring check of the [useEffect] hook is not an event of this
    machine. It is armed again each time a generation ends and first fires
    5000 ms later, after the one-shot check scheduled at the same moment
    (3000 ms); it is cleared as soon as that check sends a request, since
    [isGenerating] is among the dependencies of the hook. *)
Record Session := mkSession {
  store : State;
  suspended : list Awaiting;
  timeouts : list Render;
  fetched : list Request
}.

Definition mount : Session := mkSession initial [] [] [].

Definition perform1 (c : Session) (e : Effect) : Session :=
  match e with
  | Fetch req k =>
      mkSession (store c) (suspended c ++ [k]) (timeouts c) (fetched c ++ [req])
  | SetTimeout r =>
      mkSession (store c) (suspended c) (timeouts c ++ [r]) (fetched c)
  | ConsoleError | Alert _ => c
  end.

(** The outcome of a handler installed in the session. *)
Definition commit (c : Session) (out : State * list Effect) : Session :=
  let (s, effects) := out in
  fold_left perform1 effects
    (mkSession s (suspended c) (timeouts c) (fetched c)).

Fixpoint removeNth {A : Type} (n : nat) (l : list A) : list A :=
  match n, l with
  | _, [] => []
  | O, _ :: t => t
  | S k, x :: t => x :: removeNth k t
  end.

Inductive Event :=
| Change_prompt (v : jsstring)          (* onChange of the prompt input *)
| Change_fixPrompt (v : jsstring)       (* onChange of the fix input *)
| Submit_prompt                         (* onSubmit={createApp} *)
| Submit_fix                            (* onSubmit={fixCode} *)
| Click_startOver
| Responds (n : nat) (res : Response)   (* the n-th pending fetch settles *)
| Timeout (n : nat) (preview : Preview). (* the n-th pending callback runs *)

(** One event. A user action runs the handler of the latest render, which
    is the current state; it does nothing when the form or button is not
    rendered or is disabled. A response resumes the suspended function; a
    timeout runs [checkForErrors] of the render that scheduled it. *)
Definition step (c : Session) (ev : Event) : Session :=
  let s := store c in
  match ev with
  | Change_prompt v =>
      if truthy (generatedCode s) || isGenerating s then c
      else commit c (setPrompt v s, [])
  | Change_fixPrompt v =>
      if truthy (generatedCode s) && showFixInput s && negb (isGenerating s)
      then commit c (setFixPrompt v s, [])
      else c
  | Submit_prompt =>
      if truthy (generatedCode s) || isGenerating s || negb (truthy (prompt s))
      then c
      else commit c (createApp s s)
  | Submit_fix =>
      if truthy (generatedCode s) && showFixInput s && negb (isGenerating s)
         && truthy (trim (fixPrompt s))
      then commit c (fixCode s None s)
      else c
  | Click_startOver =>
      if truthy (generatedCode s) then commit c (startOver s, []) else c
  | Responds n res =>
      match nth_error (suspended c) n with
      | Some k =>
          let c' := mkSession s (removeNth n (suspended c)) (timeouts c)
                      (fetched c) in
          match k with
          | inCreateApp r => commit c' (createApp_resume r res s)
          | inFixCode r => commit c' (fixCode_resume r res s)
          end
      | None => c
      end
  | Timeout n preview =>
      match nth_error (timeouts c) n with
      | Some r =>
          let c' := mkSession s (suspended c) (removeNth n (timeouts c))
                      (fetched c) in
          commit c' (checkForErrors r preview s)
      | None => c
      end
  end.

Definition run (events : list Event) (c : Session) : Session :=
  fold_left step events c.

End Page.

(* ================================================================== *)
(** * Notions used to state the properties *)
(* ================================================================== *)

Module Notions.

Import Route Decoder.

(** A string that [trim] would leave alone: it neither starts nor ends
    with white space. *)
Definition isTrimmed (s : jsstring) : bool :=
  match s with
  | [] => true
  | c :: _ => negb (isWhiteSpace c) && negb (isWhiteSpace (last s c))
  end.

(** A string made of white space only (or empty). *)
Definition isBlank (s : jsstring) : Prop :=
  forall c, In c s -> isWhiteSpace c = true.

(** [t] is [s] with some code units taken out: nothing added, nothing
    moved. *)
Inductive remains : jsstring -> jsstring -> Prop :=
| remains_nil : remains [] []
| remains_drop (c : N) (t s : jsstring) : remains t s -> remains t (c :: s)
| remains_keep (c : N) (t s : jsstring) :
    remains t s -> remains (c :: t) (c :: s).

(** The number of backticks a string starts with. *)
Fixpoint leadingBackticks (s : jsstring) : nat :=
  match s with
  | c :: r => if N.eqb c BACKTICK then S (leadingBackticks r) else 0
  | [] => 0
  end.

(** The texts that the successive calls of [decode] return for the chunks
    of a stream, the decoder keeping its state from one call to the next. *)
Fixpoint texts (decoder : TextDecoder.state) (chunks : list (list byte))
  : list jsstring :=
  match chunks with
  | [] => []
  | value :: rest =>
      let (decoder', text) := TextDecoder.decode decoder value in
      text :: texts decoder' rest
  end.

(** The lines the decoder handles: each text split at line feeds. *)
Definition linesOf (chunks : list (list byte)) : list jsstring :=
  flat_map (split LF) (texts TextDecoder.new chunks).

(** The test [line.trim()] of the loop. *)
Definition nonBlank (line : jsstring) : bool := truthy (trim line).

Definition parses (line : jsstring) : bool :=
  match JSON.parse line with Some _ => true | None => false end.

(** The values of the lines that parse, in order. *)
Fixpoint parsed (lines : list jsstring) : list JSON.value :=
  match lines with
  | [] => []
  | l :: rest =>
      match JSON.parse l with
      | Some v => v :: parsed rest
      | None => parsed rest
      end
  end.

(** A line that is handled and does not parse. *)
Definition malformed (line : jsstring) : bool :=
  nonBlank line && negb (parses line).

(** States in which a continuation byte is expected to be at least 128,
    as in every state the decoder reaches. *)
Definition expectsContinuation (st : TextDecoder.state) : Prop :=
  (128 <= TextDecoder.lowerBoundary st)%N.

(** A text that stops at a line boundary. *)
Definition endsWithLF (t : jsstring) : Prop :=
  t = [] \/ exists t0, t = t0 ++ [LF].

(** A chunk that stops at a line boundary: empty, or ending with the
    line feed byte. *)
Definition endsAtLineBoundary (value : list byte) : Prop :=
  last value x0a = x0a.


(** A handler that has issued an effect. The watcher and the controller
    issue none but the request of [fixCode]. *)
Definition sends (out : Page.State * list Page.Effect) : Prop := snd out <> [].

End Notions.

Import Route Decoder Notions.

(* ================================================================== *)
(** * Concrete sessions and streams *)
(* ================================================================== *)

Module Scenarios.

Import Page.

Definition bytes (s : string) : list byte := list_byte_of_string s.

(** A generated component that refers to an undefined name. *)
Definition brokenCode : jsstring :=
  u "export default function App() { return foo; }".

Definition okResponse : Response :=
  mkResponse true [fragmentRecord brokenCode] false.

(** The preview as it shows that failure. *)
Definition brokenPreview : Preview :=
  Document (Some (u "ReferenceError: foo is not defined")) [].

(** The user asks for an application and the generation succeeds. *)
Definition generation : list Event :=
  [Change_prompt (u "build a counter"); Submit_prompt; Responds 0 okResponse].

(** The check scheduled by the last completed call runs, sees the failure
    and sends a fix request, whose response then arrives; the new code
    fails in the same way. *)
Definition fixRound : list Event :=
  [Timeout 0 brokenPreview; Responds 0 okResponse].

(** The user asks for a change right after the generation; the response
    arrives before the first scheduled check runs. *)
Definition quickManualFix : list Event :=
  [Change_fixPrompt (u "make it blue"); Submit_fix; Responds 0 okResponse].

(** One record [{ choices: [{ text: 'a' }] }] as the JSON line the
    endpoint writes for it. *)
Definition recordLine : list byte :=
  [x7b; x22] ++ bytes "choices" ++ [x22; x3a; x5b; x7b; x22] ++ bytes "text"
    ++ [x22; x3a; x22] ++ bytes "a" ++ [x22; x7d; x5d; x7d; x0a].

Definition recordValue : JSON.value :=
  JSON.JObject
    [(u "choices",
      JSON.JArray [JSON.JObject [(u "text", JSON.JString (u "a"))]])].

End Scenarios.

Import Scenarios.

(* ================================================================== *)
(** * [TextEncoder]: UTF-8 encoding *)
(* ================================================================== *)

Module TextEncoder.

Local Open Scope N_scope.

Definition isHighSurrogate (c : N) : bool := (55296 <=? c) && (c <=? 56319).
Definition isLowSurrogate (c : N) : bool := (56320 <=? c) && (c <=? 57343).

(** The scalar values of a string: a high surrogate followed by a low one
    is one supplementary code point, a surrogate on its own is replaced by
    U+FFFD. *)
Fixpoint scalarValues (s : jsstring) : list N :=
  match s with
  | [] => []
  | c :: r =>
      if isHighSurrogate c then
        match r with
        | d :: r' =>
            if isLowSurrogate d
            then 65536 + (c - 55296) * 1024 + (d - 56320) :: scalarValues r'
            else 65533 :: scalarValues r
        | [] => [65533]
        end
      else if isLowSurrogate c then 65533 :: scalarValues r
      else c :: scalarValues r
  end.

(** The continuation bytes of the UTF-8 encoder, from the most significant
    group of six bits down. *)
Fixpoint continuation (cp : N) (count : nat) : list N :=
  match count with
  | O => []
  | S k =>
      N.lor 128 (N.land (N.shiftr cp (6 * N.of_nat k)) 63) :: continuation cp k
  end.

(** The UTF-8 encoder's handler for one scalar value. *)
Definition utf8 (cp : N) : list N :=
  if cp <=? 127 then [cp]
  else
    let (count, offset) :=
      if cp <=? 2047 then (1%nat, 192)
      else if cp <=? 65535 then (2%nat, 224)
      else (3%nat, 240) in
    N.shiftr cp (6 * N.of_nat count) + offset :: continuation cp count.

Definition toByte (n : N) : byte :=
  match Byte.of_N n with Some b => b | None => x00 end.

(** [new TextEncoder().encode(s)]. *)
Definition encode (s : jsstring) : list byte :=
  map toByte (flat_map utf8 (scalarValues s)).

End TextEncoder.

(* ================================================================== *)
(** * [JSON.stringify] of the records the endpoint writes *)
(* ================================================================== *)

Module Stringify.

Local Open Scope N_scope.

Import TextEncoder.

(** A lower-case hexadecimal digit. *)
Definition hexDigit (d : N) : N := if d <? 10 then 48 + d else 87 + d.

(** [\uXXXX] for a code unit. *)
Definition unicodeEscape (c : N) : jsstring :=
  [92; 117; hexDigit (c / 4096); hexDigit ((c / 256) mod 16);
   hexDigit ((c / 16) mod 16); hexDigit (c mod 16)].

(** One code unit as quoted text: the control characters with a short
    escape, the quote and the backslash are escaped with a backslash; other
    control characters, and a surrogate that is not part of a pair
    ([lone]), become [\uXXXX]; everything else is copied. *)
Definition escapeUnit (c : N) (lone : bool) : jsstring :=
  if c =? 8 then [92; 98]
  else if c =? 9 then [92; 116]
  else if c =? 10 then [92; 110]
  else if c =? 12 then [92; 102]
  else if c =? 13 then [92; 114]
  else if c =? 34 then [92; 34]
  else if c =? 92 then [92; 92]
  else if c <? 32 then unicodeEscape c
  else if lone then unicodeEscape c
  else [c].

(** The characters of a quoted string between its quotes. A high
    surrogate followed by a low one is a pair and is copied. *)
Fixpoint quoteChars (s : jsstring) : jsstring :=
  match s with
  | [] => []
  | c :: r =>
      if isHighSurrogate c then
        match r with
        | d :: r' =>
            if isLowSurrogate d then c :: d :: quoteChars r'
            else escapeUnit c true ++ quoteChars r
        | [] => escapeUnit c true
        end
      else escapeUnit c (isLowSurrogate c) ++ quoteChars r
  end.

(** A string value as JSON text. *)
Definition quote (s : jsstring) : jsstring :=
  [DQUOTE] ++ quoteChars s ++ [DQUOTE].

Definition member (key : jsstring) (v : option jsstring) : list jsstring :=
  match v with
  | Some s => [quote key ++ [58] ++ quote s]
  | None => []                       (* an undefined property is left out *)
  end.

Fixpoint commas (items : list jsstring) : jsstring :=
  match items with
  | [] => []
  | [x] => x
  | x :: rest => x ++ [44] ++ commas rest
  end.

Definition stringifyChoice (c : Choice) : jsstring :=
  [123] ++ commas (member (u "text") (text c)
                   ++ member (u "cleanedCode") (cleanedCode c)) ++ [125].

(** [JSON.stringify({ choices: [...] })]. *)
Definition stringifyRecord (r : StreamRecord) : jsstring :=
  [123]
  ++ commas (match choices r with
             | Some cs =>
                 [quote (u "choices") ++ [58; 91]
                  ++ commas (map stringifyChoice cs) ++ [93]]
             | None => []
             end)
  ++ [125].

End Stringify.

(* ================================================================== *)
(** * The body of a request, as the page writes it *)
(* ================================================================== *)

Module Body.

Local Open Scope N_scope.

Import Page Stringify.

Definition roleName (r : Role) : jsstring :=
  match r with
  | user => u "user"
  | assistant => u "assistant"
  | system => u "system"
  end.

(** [JSON.stringify] of one message of the transcript. *)
Definition stringifyMessage (m : Message) : jsstring :=
  [123] ++ commas (member (u "role") (Some (roleName (role m)))
                   ++ member (u "content") (Some (content m))) ++ [125].

(** [JSON.stringify({ prompt, messages })] of [createApp] and
    [JSON.stringify({ prompt, messages, currentCode })] of [fixCode]. *)
Definition stringifyRequest (req : Request) : jsstring :=
  [123]
  ++ commas ([quote (u "prompt") ++ [58] ++ quote (reqPrompt req);
              quote (u "messages") ++ [58; 91]
              ++ commas (map stringifyMessage (reqMessages req)) ++ [93]]
             ++ member (u "currentCode") (reqCurrentCode req))
  ++ [125].

End Body.

(* ================================================================== *)
(** * What the page renders of the transcript *)
(* ================================================================== *)

Module View.

Import Page.

(** [msg.role === 'user']. *)
Definition isUser (m : Message) : bool :=
  match role m with user => true | _ => false end.

(** The Modification History panel is rendered inside the artifact
    panel, when [messages.length > 2]. *)
Definition showsHistory (s : State) : bool :=
  truthy (generatedCode s) && Nat.ltb 2 (List.length (messages s)).

(** Its entries: [messages.slice(2)], of which the messages of the user
    are rendered, each with its content. *)
Definition historyEntries (s : State) : list jsstring :=
  map content (filter isUser (skipn 2 (messages s))).

End View.

(* ================================================================== *)
(** * The generation endpoint: the request and the bytes written *)
(* ================================================================== *)

Module Post.

Import Page TextEncoder Stringify.

Fixpoint unlines (ls : list jsstring) : jsstring :=
  match ls with
  | [] => []
  | [l] => l
  | l :: rest => l ++ [LF] ++ unlines rest
  end.

Definition systemPrompt : jsstring :=
  unlines
    [ u "You are an expert React developer and UI/UX designer. Create a single React component based on the user's request.";
      [];
      u "CRITICAL RULES:";
      u "1. Return ONLY the React component code, starting with imports";
      u "2. NO markdown code blocks (no ```typescript, ```jsx, etc.)";
      u "3. NO explanatory text before or after the code";
      u "4. The code must be a complete, self-contained component";
      u "5. NEVER wrap the code in triple backticks or any markdown formatting";
      u "6. Start directly with the import statements";
      [];
      u "TECHNICAL REQUIREMENTS:";
      u "- Use TypeScript for all components";
      u "- Use default export: export default function ComponentName()";
      u "- Import React hooks explicitly: import { useState, useEffect } from 'react';";
      u "- Make components fully functional with no required props";
      u "- Include proper TypeScript types for state and handlers";
      [];
      u "STYLING GUIDELINES:";
      u "- Use Tailwind CSS classes for all styling";
      u "- NEVER use arbitrary values (e.g., h-[600px], w-[300px])";
      u "- Use Tailwind's predefined classes only:";
      u "  * Spacing: p-4, m-2, gap-4";
      u "  * Sizing: w-full, h-screen, max-w-4xl";
      u "  * Colors: bg-blue-500, text-gray-700, border-gray-200";
      u "  * Flexbox/Grid: flex, grid, items-center, justify-between";
      u "  * Responsive: sm:, md:, lg: prefixes";
      [];
      u "DESIGN PRINCIPLES:";
      u "- Create visually appealing, modern interfaces";
      u "- Use proper spacing with consistent padding/margins";
      u "- Include hover states and transitions for interactive elements";
      u "- Ensure good contrast and readability";
      u "- Add subtle shadows and rounded corners where appropriate";
      [];
      u "COMPONENT FEATURES:";
      u "- Make it interactive with proper state management";
      u "- Include animations/transitions for better UX";
      u "- Handle edge cases and loading states";
      u "- Add proper accessibility attributes";
      u "- Use semantic HTML elements";
      [];
      u "IMPORTANT: Start your response with " ++ [DQUOTE] ++ u "import" ++ [DQUOTE] ++ u " and end with the closing brace of the export. No other text." ].

Definition fixPrompt : jsstring :=
  unlines
    [ u "You are an expert React developer. The user wants to modify the existing React component code.";
      [];
      u "CRITICAL RULES:";
      u "1. Return ONLY the complete updated React component code";
      u "2. NO markdown code blocks (no ```typescript, ```tsx, ```jsx, ```)";
      u "3. NEVER wrap the code in triple backticks";
      u "4. Start directly with import statements";
      u "5. Keep all existing functionality unless explicitly asked to remove it";
      u "6. Maintain the same code structure and style";
      [];
      u "When fixing or modifying:";
      u "- Fix any errors in the code";
      u "- Add the requested features or modifications";
      u "- Ensure the code still works properly";
      u "- Keep using TypeScript and Tailwind CSS";
      u "- Maintain all imports and exports";
      u "- NEVER import external libraries that aren't available (only use React, TypeScript, and browser APIs)";
      u "- If an external library is causing issues, implement the functionality using vanilla JavaScript/TypeScript";
      [];
      u "IMPORTANT: Your response must start with " ++ [DQUOTE] ++ u "import" ++ [DQUOTE] ++ u " and end with the closing brace of the export. Nothing else.";
      [];
      u "Current code is provided below. Modify it according to the user's request and return ONLY the complete updated code." ].

(** [messages.length > 0 && currentCode], as a condition. The body of the
    request is what the page sends: [prompt], [messages] (an absent one
    defaults to the empty list) and, from [fixCode], [currentCode]. *)
Definition isFixRequest (json : Request) : bool :=
  match reqMessages json with
  | [] => false
  | _ :: _ =>
      match reqCurrentCode json with
      | Some code => truthy code
      | None => false
      end
  end.

(** The two-message conversation sent to the model. *)
Definition conversationMessages (json : Request) : list Message :=
  if isFixRequest json then
    [ mkMessage system fixPrompt;
      mkMessage user
        (u "Current code:" ++ [LF; LF]
         ++ match reqCurrentCode json with Some code => code | None => [] end
         ++ [LF; LF] ++ u "User request: " ++ reqPrompt json) ]
  else
    [ mkMessage system systemPrompt;
      mkMessage user (reqPrompt json) ].

(** The chunk enqueued for a record:
    [new TextEncoder().encode(JSON.stringify(record) + '\n')]. *)
Definition written (r : StreamRecord) : list byte :=
  encode (stringifyRecord r ++ [LF]).

(** The chunks of the response body, in the order they are enqueued. *)
Definition body (response : list Route.Delta) : list (list byte) :=
  map written (Route.queue (Route.start response)).

End Post.

(* ================================================================== *)
(** * More notions used to state properties *)
(* ================================================================== *)

Module MoreNotions.

Import Page TextEncoder Stringify.

(** A string whose code units all fit in sixteen bits, as every
    JavaScript string. *)
Definition isString (s : jsstring) : Prop := Forall (fun c => (c < 65536)%N) s.

(** A string without a surrogate outside a pair. *)
Fixpoint isWellFormed (s : jsstring) : bool :=
  match s with
  | [] => true
  | c :: r =>
      if isHighSurrogate c then
        match r with
        | d :: r' => isLowSurrogate d && isWellFormed r'
        | [] => false
        end
      else negb (isLowSurrogate c) && isWellFormed r
  end.

(** A scalar value: a code point that is not a surrogate. *)
Definition isScalar (cp : N) : Prop :=
  (cp < 55296 \/ 57344 <= cp < 1114112)%N.

(** A decoder between two characters: nothing pending. *)
Definition isIdle (st : TextDecoder.state) : Prop :=
  st = TextDecoder.mkState 0 0 0 128 191 (TextDecoder.bomSeen st).

(** The value [JSON.parse] gives for the line of a record. *)
Definition memberValue (key : jsstring) (v : option jsstring)
  : list (jsstring * JSON.value) :=
  match v with
  | Some s => [(key, JSON.JString s)]
  | None => []
  end.

Definition choiceValue (c : Choice) : JSON.value :=
  JSON.JObject (memberValue (u "text") (text c)
                ++ memberValue (u "cleanedCode") (cleanedCode c)).

Definition recordValueOf (r : StreamRecord) : JSON.value :=
  JSON.JObject
    match choices r with
    | Some cs => [(u "choices", JSON.JArray (map choiceValue cs))]
    | None => []
    end.

(** A record as the endpoint writes them: a fragment record or the final
    record, of a string. *)
Definition isEndpointRecord (r : StreamRecord) : Prop :=
  exists t, isString t /\ (r = fragmentRecord t \/ r = finalRecord t).

(** The value [JSON.parse] gives for the body of a request. *)
Definition messageValue (m : Message) : JSON.value :=
  JSON.JObject [(u "role", JSON.JString (Body.roleName (role m)));
                (u "content", JSON.JString (content m))].

Definition requestValue (req : Request) : JSON.value :=
  JSON.JObject
    ([(u "prompt", JSON.JString (reqPrompt req));
      (u "messages", JSON.JArray (map messageValue (reqMessages req)))]
     ++ memberValue (u "currentCode") (reqCurrentCode req)).

(** The render whose function is suspended. *)
Definition renderOf (k : Awaiting) : Render :=
  match k with inCreateApp r | inFixCode r => r end.

(** A name as the second expression of the watcher captures it: word
    characters, one at least. *)
Definition isWord (v : jsstring) : Prop :=
  v <> [] /\ Forall (fun c => isWordChar c = true) v.

(** A module name as the first expression captures it: no quote, one code
    unit at least. *)
Definition isQuotable (m : jsstring) : Prop :=
  m <> [] /\ Forall (fun c => isQuote c = false) m.

End MoreNotions.

Import TextEncoder Stringify MoreNotions.

(* ================================================================== *)
(** * Facts about strings *)
(* ================================================================== *)

Section StringFacts.

Lemma startsWith_iff (s pat : jsstring) :
  startsWith s pat = true <-> exists b, s = pat ++ b.
Proof.
  unfold startsWith. revert s.
  induction pat as [|p pat IH]; intros s; simpl.
  - split; [intros _; now exists s | reflexivity].
  - destruct s as [|c s']; simpl.
    + split; [discriminate | intros [b Hb]; discriminate].
    + rewrite andb_true_iff, N.eqb_eq, IH. split.
      * intros [-> [b ->]]. now exists b.
      * intros [b Hb]. injection Hb as -> ->. split; [reflexivity | now exists b].
Qed.

Lemma includes_iff (s pat : jsstring) :
  includes s pat = true <-> exists a b, s = a ++ pat ++ b.
Proof.
  induction s as [|c r IH]; simpl.
  - rewrite orb_false_r, startsWith_iff. split.
    + intros [b Hb]. now exists [], b.
    + intros [a [b Hab]]. destruct a; simpl in Hab; [now exists b | discriminate].
  - rewrite orb_true_iff, startsWith_iff, IH. split.
    + intros [[b Hb] | [a [b Hab]]].
      * now exists [], b.
      * exists (c :: a), b. simpl. now rewrite Hab.
    + intros [a [b Hab]]. destruct a as [|x a]; simpl in Hab.
      * left. now exists b.
      * right. injection Hab as _ ->. now exists a, b.
Qed.

(** A string without an occurrence of [pat] has none in any of its
    parts. *)
Lemma includes_part (a t b pat : jsstring) :
  includes (a ++ t ++ b) pat = false -> includes t pat = false.
Proof.
  intros H. destruct (includes t pat) eqn:E; [|reflexivity].
  apply includes_iff in E. destruct E as [a' [b' ->]].
  assert (includes (a ++ (a' ++ pat ++ b') ++ b) pat = true) as H'.
  { apply includes_iff. exists (a ++ a'), (b' ++ b).
    now rewrite <- !app_assoc. }
  congruence.
Qed.

Lemma includes_shorter (s p q : jsstring) :
  includes s (p ++ q) = true -> includes s p = true /\ includes s q = true.
Proof.
  intros H. apply includes_iff in H. destruct H as [a [b ->]].
  split; apply includes_iff.
  - exists a, (q ++ b). now rewrite <- app_assoc.
  - exists (a ++ p), b. now rewrite <- !app_assoc.
Qed.

Lemma trimStart_suffix (s : jsstring) : exists a, s = a ++ trimStart s.
Proof.
  induction s as [|c r [a IH]]; simpl.
  - now exists [].
  - destruct (isWhiteSpace c).
    + exists (c :: a). simpl. now rewrite <- IH.
    + now exists [].
Qed.

Lemma trimEnd_prefix (s : jsstring) : exists b, s = trimEnd s ++ b.
Proof.
  induction s as [|c r [b IH]]; simpl.
  - now exists [].
  - destruct (trimEnd r) as [|x t] eqn:E.
    + destruct (isWhiteSpace c).
      * now exists (c :: r).
      * exists r. reflexivity.
    + exists b. simpl. now rewrite IH at 1.
Qed.

Lemma trim_part (s : jsstring) : exists a b, s = a ++ trim s ++ b.
Proof.
  destruct (trimStart_suffix s) as [a Ha].
  destruct (trimEnd_prefix (trimStart s)) as [b Hb].
  exists a, b. unfold trim. now rewrite <- Hb.
Qed.

Lemma trimStart_blank (s : jsstring) : isBlank s -> trimStart s = [].
Proof.
  induction s as [|c r IH]; intros H; simpl; [reflexivity|].
  rewrite (H c (or_introl eq_refl)). apply IH.
  intros x Hx. apply H. now right.
Qed.

Lemma trim_blank (s : jsstring) : isBlank s -> trim s = [].
Proof. intros H. unfold trim. now rewrite trimStart_blank. Qed.

Lemma trimEnd_fixed (s : jsstring) (d : N) :
  s <> [] -> isWhiteSpace (last s d) = false -> trimEnd s = s.
Proof.
  induction s as [|c r IH]; intros Hne Hl; [congruence|].
  destruct r as [|c2 r'].
  - simpl in *. now rewrite Hl.
  - change (trimEnd (c :: c2 :: r')) with
      (match trimEnd (c2 :: r') with
       | [] => if isWhiteSpace c then [] else [c]
       | r0 => c :: r0 end).
    rewrite IH; [reflexivity | discriminate | exact Hl].
Qed.

Lemma last_indep (s : jsstring) (d d' : N) : s <> [] -> last s d = last s d'.
Proof.
  induction s as [|c r IH]; intros H; [congruence|].
  destruct r as [|c2 r']; [reflexivity|].
  change (last (c2 :: r') d = last (c2 :: r') d'). apply IH. discriminate.
Qed.

Lemma trim_fixed (s : jsstring) : isTrimmed s = true -> trim s = s.
Proof.
  destruct s as [|c r]; [reflexivity|].
  unfold isTrimmed. rewrite andb_true_iff, !negb_true_iff. intros [H1 H2].
  unfold trim. simpl trimStart. rewrite H1.
  apply trimEnd_fixed with (d := c); [discriminate | exact H2].
Qed.

(** What [trimEnd] returns is empty or ends with a code unit that is not
    white space, and starts as its argument does. *)
Lemma trimEnd_shape (s : jsstring) :
  trimEnd s = [] \/
  (exists c r, s = c :: r /\ exists r', trimEnd s = c :: r' /\
                 isWhiteSpace (last (trimEnd s) c) = false).
Proof.
  induction s as [|c r IH]; [now left|].
  simpl. destruct (trimEnd r) as [|x t] eqn:E.
  - destruct (isWhiteSpace c) eqn:W; [now left|].
    right. exists c, r. split; [reflexivity|]. exists []. split; [reflexivity|].
    simpl. exact W.
  - right. exists c, r. split; [reflexivity|]. exists (x :: t).
    split; [reflexivity|].
    destruct IH as [IH | [c' [r0 [_ [r' [_ Hl]]]]]]; [discriminate|].
    change (isWhiteSpace (last (x :: t) c) = false).
    rewrite (last_indep (x :: t) c c'); [exact Hl | discriminate].
Qed.

Lemma trimStart_head (s : jsstring) :
  match trimStart s with [] => True | c :: _ => isWhiteSpace c = false end.
Proof.
  induction s as [|c r IH]; simpl; [exact I|].
  destruct (isWhiteSpace c) eqn:W; [exact IH | exact W].
Qed.

Lemma trim_isTrimmed (s : jsstring) : isTrimmed (trim s) = true.
Proof.
  unfold trim. pose proof (trimStart_head s) as Hh.
  destruct (trimEnd_shape (trimStart s)) as [-> | [c [r [Hs [r' [Ht Hl]]]]]].
  - reflexivity.
  - rewrite Hs in Hh. rewrite Ht in *. unfold isTrimmed.
    now rewrite Hh, Hl.
Qed.

End StringFacts.

(* ================================================================== *)
(** * Completion cleanup *)
(* ================================================================== *)

Section Cleanup.

Lemma replaceGo_skip (m : jsstring -> option nat) (k : nat) (s : jsstring) :
  replaceGo m k s = replaceAll m (skipn k s).
Proof.
  revert k. induction s as [|c r IH]; intros k.
  - now destruct k.
  - destruct k as [|k]; [reflexivity|]. simpl. apply IH.
Qed.

(** The scan of [replaceAll], one index at a time. *)
Lemma replaceAll_cons (m : jsstring -> option nat) (c : N) (r : jsstring) :
  replaceAll m (c :: r) =
  match m (c :: r) with
  | Some (S k) => replaceAll m (skipn k r)
  | _ => c :: replaceAll m r
  end.
Proof.
  unfold replaceAll at 1. simpl.
  destruct (m (c :: r)) as [[|k]|]; try reflexivity.
  apply replaceGo_skip.
Qed.

(** Every fence pattern starts with the three backticks, also under the
    [i] flag. *)
Lemma eqCodeUnit_backtick (ci : bool) (c : N) :
  eqCodeUnit ci BACKTICK c = true -> c = BACKTICK.
Proof.
  unfold eqCodeUnit. destruct ci.
  - assert (canonicalize BACKTICK = BACKTICK) as -> by reflexivity.
    unfold canonicalize, BACKTICK.
    destruct ((97 <=? c) && (c <=? 122))%N eqn:E; intros H;
      apply N.eqb_eq in H.
    + apply andb_true_iff in E. destruct E as [E1 E2].
      apply N.leb_le in E1, E2. lia.
    + now subst.
  - intros H. apply N.eqb_eq in H. now subst.
Qed.

Lemma fenceMatch_fence (ci : bool) (tag s : jsstring) (n : nat) :
  fenceMatch ci tag s = Some n -> startsWith s fence = true.
Proof.
  unfold fenceMatch.
  destruct (startsWithBy (eqCodeUnit ci) (fence ++ tag) s) eqn:E; [|discriminate].
  intros _. unfold fence in *. simpl in E.
  destruct s as [|c1 [|c2 [|c3 r]]]; simpl in E;
    repeat (apply andb_true_iff in E; destruct E as [? E]);
    try discriminate.
  repeat match goal with
         | H : eqCodeUnit _ BACKTICK _ = true |- _ =>
             apply eqCodeUnit_backtick in H; subst
         end.
  reflexivity.
Qed.

(** A text without fence is left as it is by each of the replacements. *)
Lemma stripFence_without_fence (ci : bool) (tag s : jsstring) :
  includes s fence = false -> stripFence ci tag s = s.
Proof.
  unfold stripFence. induction s as [|c r IH]; intros H; [reflexivity|].
  simpl in H. apply orb_false_iff in H. destruct H as [H1 H2].
  rewrite replaceAll_cons.
  destruct (fenceMatch ci tag (c :: r)) as [n|] eqn:E.
  - apply fenceMatch_fence in E. congruence.
  - now rewrite IH.
Qed.

Lemma leadingBackticks_fence (s : jsstring) :
  startsWith s fence = true <-> 3 <= leadingBackticks s.
Proof.
  unfold startsWith, fence.
  destruct s as [|c1 [|c2 [|c3 r]]];
    cbn [startsWithBy leadingBackticks];
    rewrite ?(N.eqb_sym BACKTICK);
    repeat match goal with
           | |- context [N.eqb ?a BACKTICK] => destruct (N.eqb a BACKTICK)
           end;
    cbn [andb]; split; intros H; try discriminate; try reflexivity; lia.
Qed.

Lemma leadingBackticks_stripFence (s : jsstring) :
  leadingBackticks s < 3 ->
  leadingBackticks (stripFence false [] s) = leadingBackticks s.
Proof.
  unfold stripFence. induction s as [|c r IH]; intros H; [reflexivity|].
  rewrite replaceAll_cons.
  destruct (fenceMatch false [] (c :: r)) as [n|] eqn:E.
  - apply fenceMatch_fence, leadingBackticks_fence in E. lia.
  - cbn [leadingBackticks] in *.
    destruct (N.eqb c BACKTICK); [|reflexivity].
    rewrite IH; [reflexivity | lia].
Qed.

Lemma fenceMatch_positive (ci : bool) (tag s : jsstring) (n : nat) :
  fenceMatch ci tag s = Some n -> 3 <= n.
Proof.
  unfold fenceMatch.
  destruct (startsWithBy _ _ s); [|discriminate].
  rewrite length_app. change (List.length fence) with 3.
  destruct (skipn _ s) as [|c ?]; [|destruct (N.eqb c LF)];
    intros H; injection H as <-; lia.
Qed.

Lemma fenceMatch_plain_none (s : jsstring) :
  fenceMatch false [] s = None -> leadingBackticks s < 3.
Proof.
  intros E.
  destruct (Nat.lt_ge_cases (leadingBackticks s) 3) as [L|L]; [exact L|].
  apply leadingBackticks_fence in L. unfold startsWith in L.
  unfold fenceMatch in E. rewrite app_nil_r in E.
  change (startsWithBy (eqCodeUnit false) fence s) with
    (startsWithBy N.eqb fence s) in E.
  rewrite L in E.
  destruct (skipn _ s) as [|x ?]; [|destruct (N.eqb x LF)]; discriminate.
Qed.

(** After the last replacement no fence is left. *)
Lemma stripFence_plain_no_fence (s : jsstring) :
  includes (stripFence false [] s) fence = false.
Proof.
  remember (List.length s) as n eqn:Hn.
  revert s Hn. induction n as [n IH] using lt_wf_ind. intros s Hn.
  destruct s as [|c r]; [reflexivity|].
  unfold stripFence in *. rewrite replaceAll_cons.
  destruct (fenceMatch false [] (c :: r)) as [[|k]|] eqn:E.
  - apply fenceMatch_positive in E. lia.
  - apply (IH (List.length (skipn k r))); [|reflexivity].
    subst n. rewrite length_skipn. simpl. lia.
  - pose proof (fenceMatch_plain_none _ E) as Hlt.
    pose proof (leadingBackticks_stripFence (c :: r) Hlt) as Hl.
    unfold stripFence in Hl. rewrite replaceAll_cons, E in Hl.
    cbn [includes]. apply orb_false_iff. split.
    + destruct (startsWith (c :: replaceAll (fenceMatch false []) r) fence) eqn:S;
        [|reflexivity].
      apply leadingBackticks_fence in S. lia.
    + apply (IH (List.length r)); [|reflexivity]. subst n. simpl. lia.
Qed.

(** ** The transform only takes code units out *)

Lemma remains_refl (s : jsstring) : remains s s.
Proof.
  induction s as [|c s IH]; [apply remains_nil | now apply remains_keep].
Qed.

Lemma remains_trans (a b c : jsstring) :
  remains a b -> remains b c -> remains a c.
Proof.
  intros Hab Hbc. revert a Hab.
  induction Hbc as [|x t s _ IH|x t s _ IH]; intros a Hab.
  - exact Hab.
  - apply remains_drop. now apply IH.
  - inversion Hab; subst.
    + apply remains_drop. now apply IH.
    + apply remains_keep. now apply IH.
Qed.

Lemma replaceGo_remains (m : jsstring -> option nat) (s : jsstring) (k : nat) :
  remains (replaceGo m k s) s.
Proof.
  revert k. induction s as [|c r IH]; intros k; simpl; [apply remains_nil|].
  destruct k as [|k]; [|apply remains_drop; apply IH].
  destruct (m (c :: r)) as [[|j]|];
    [apply remains_keep | apply remains_drop | apply remains_keep]; apply IH.
Qed.

Lemma trimStart_remains (s : jsstring) : remains (trimStart s) s.
Proof.
  induction s as [|c r IH]; simpl; [apply remains_nil|].
  destruct (isWhiteSpace c); [now apply remains_drop | apply remains_refl].
Qed.

Lemma trimEnd_remains (s : jsstring) : remains (trimEnd s) s.
Proof.
  induction s as [|c r IH]; simpl; [apply remains_nil|].
  destruct (trimEnd r) as [|x t].
  - destruct (isWhiteSpace c); [now apply remains_drop | now apply remains_keep].
  - now apply remains_keep.
Qed.

Lemma cleanCode_remains (s : jsstring) : remains (cleanCode s) s.
Proof.
  unfold cleanCode, trim, stripFence, replaceAll.
  repeat (eapply remains_trans;
          [first [apply trimEnd_remains | apply trimStart_remains
                 | apply replaceGo_remains]|]).
  apply remains_refl.
Qed.

(** ** The transform as a whole *)

Lemma cleanCode_without_fence (s : jsstring) :
  includes s fence = false -> cleanCode s = trim s.
Proof.
  intros H. unfold cleanCode.
  now repeat rewrite (stripFence_without_fence _ _ s H).
Qed.

Lemma cleanCode_no_fence (s : jsstring) : includes (cleanCode s) fence = false.
Proof.
  unfold cleanCode.
  set (t := stripFence false [] _).
  destruct (trim_part t) as [a [b Hab]].
  apply includes_part with (a := a) (b := b).
  rewrite <- Hab. apply stripFence_plain_no_fence.
Qed.

Lemma cleanCode_isTrimmed (s : jsstring) : isTrimmed (cleanCode s) = true.
Proof. unfold cleanCode. apply trim_isTrimmed. Qed.

(** C7. Cleaning a text that has no fence marker and is already trimmed
    gives the text back; the result of cleaning any text contains no three
    backticks in a row; hence cleaning twice is the same as cleaning once. *)
Theorem cleanCode_idempotent :
  (forall s, includes s fence = false -> isTrimmed s = true -> cleanCode s = s)
  /\ (forall s, includes (cleanCode s) fence = false)
  /\ (forall s, cleanCode (cleanCode s) = cleanCode s).
Proof.
  assert (forall s, includes s fence = false -> isTrimmed s = true ->
                    cleanCode s = s) as Hid.
  { intros s Hf Ht. rewrite cleanCode_without_fence by exact Hf.
    now apply trim_fixed. }
  split; [exact Hid|]. split; [exact cleanCode_no_fence|].
  intros s. apply Hid; [apply cleanCode_no_fence | apply cleanCode_isTrimmed].
Qed.

Lemma cleanCode_idempotent_witness :
  let s := u "import React from 'react';" in
  includes s fence = false /\ isTrimmed s = true /\ cleanCode s = s.
Proof.
  split; [reflexivity|]. split; [reflexivity|].
  apply (proj1 cleanCode_idempotent); reflexivity.
Defined.

End Cleanup.

(* ================================================================== *)
(** * The endpoint's stream *)
(* ================================================================== *)

Section Endpoint.

Lemma relay_fold (response : list Delta) (c : Controller) :
  fold_left relay response c =
  mkController
    (buffer c ++ concat (map deltaText response))
    (queue c ++ map fragmentRecord (filter truthy (map deltaText response))).
Proof.
  revert c. induction response as [|d rest IH]; intros [b q]; simpl.
  - now rewrite !app_nil_r.
  - rewrite IH. unfold relay, enqueue. simpl.
    destruct (truthy (deltaText d)) eqn:T; simpl.
    + now rewrite <- !app_assoc.
    + destruct (deltaText d); [reflexivity | discriminate].
Qed.

Lemma fragments_not_final (ts : list jsstring) :
  existsb isFinal (map fragmentRecord ts) = false.
Proof. induction ts as [|t ts IH]; simpl; [reflexivity | exact IH]. Qed.

(** ** The cleanup of the code and the cleanup of the specification *)

Lemma isLetter_eqCodeUnit (p c : N) :
  (97 <= p <= 122)%N ->
  CleanupContract.isLetter p c = eqCodeUnit true p c.
Proof.
  intros Hp. unfold CleanupContract.isLetter, eqCodeUnit, canonicalize.
  destruct (N.leb_spec 97 p); [|lia]. destruct (N.leb_spec p 122); [|lia].
  cbn [andb].
  destruct (N.leb_spec 97 c); destruct (N.leb_spec c 122); cbn [andb];
    destruct (N.eqb_spec c p); destruct (N.eqb_spec c (p - 32));
    cbn [orb];
    match goal with
    | |- _ = (?x =? ?y)%N => destruct (N.eqb_spec x y)
    end; try reflexivity; lia.
Qed.

Lemma backtick_eqCodeUnit (ci : bool) (c : N) :
  eqCodeUnit ci 96%N c = (c =? 96)%N.
Proof.
  unfold eqCodeUnit, canonicalize. destruct ci.
  - change ((97 <=? 96) && (96 <=? 122))%N with false. cbv iota.
    destruct (N.leb_spec 97 c); destruct (N.leb_spec c 122); cbn [andb];
      destruct (N.eqb_spec c 96);
      match goal with
      | |- (?x =? ?y)%N = _ => destruct (N.eqb_spec x y)
      end; try reflexivity; lia.
  - apply N.eqb_sym.
Qed.

Lemma afterTag_startsWithBy (tag s : jsstring) :
  Forall (fun p => (97 <= p <= 122)%N) tag ->
  CleanupContract.afterTag tag s
  = if startsWithBy (eqCodeUnit true) tag s
    then Some (skipn (List.length tag) s) else None.
Proof.
  intros H. revert s. induction H as [|p tag Hp _ IH]; intros s.
  - reflexivity.
  - destruct s as [|c s']; [reflexivity|].
    cbn [CleanupContract.afterTag startsWithBy List.length skipn].
    rewrite (isLetter_eqCodeUnit p c Hp), IH.
    now destruct (eqCodeUnit true p c).
Qed.

(** The marker of the specification is the match of the expression. *)
Lemma afterMarker_fenceMatch (ci : bool) (tag s : jsstring) :
  (ci = true /\ Forall (fun p => (97 <= p <= 122)%N) tag) \/ tag = [] ->
  CleanupContract.afterMarker tag s
  = match fenceMatch ci tag s with
    | Some k => Some (skipn k s)
    | None => None
    end.
Proof.
  intros H.
  assert (forall s',
            CleanupContract.afterTag tag s'
            = if startsWithBy (eqCodeUnit ci) tag s'
              then Some (skipn (List.length tag) s') else None) as HT.
  { destruct H as [[-> Ht] | ->]; intros s'.
    - now apply afterTag_startsWithBy.
    - reflexivity. }
  unfold CleanupContract.afterMarker, fenceMatch, fence, BACKTICK.
  destruct s as [|a [|b [|c s']]]; cbn [app startsWithBy];
    rewrite ?backtick_eqCodeUnit, ?andb_false_r; try reflexivity.
  rewrite HT.
  destruct (a =? 96)%N; [|reflexivity].
  destruct (b =? 96)%N; [|reflexivity].
  destruct (c =? 96)%N; [|reflexivity].
  cbn [andb List.length skipn].
  destruct (startsWithBy (eqCodeUnit ci) tag s'); [|reflexivity].
  destruct (skipn (List.length tag) s') as [|x rest] eqn:E.
  - cbn [skipn]. now rewrite E.
  - unfold LF. destruct (x =? 10)%N eqn:X.
    + change (skipn (S (S (S (S (List.length tag))))) (a :: b :: c :: s'))
        with (skipn (1 + List.length tag) s').
      now rewrite <- skipn_skipn, E.
    + cbn [skipn]. now rewrite E.
Qed.

Lemma removeMarkers_stripFence (ci : bool) (tag s : jsstring) :
  (ci = true /\ Forall (fun p => (97 <= p <= 122)%N) tag) \/ tag = [] ->
  CleanupContract.removeMarkers tag s = stripFence ci tag s.
Proof.
  intros H. unfold CleanupContract.removeMarkers, stripFence.
  assert (forall fuel s0,
            List.length s0 <= fuel ->
            CleanupContract.withoutMarkers fuel tag s0
            = replaceAll (fenceMatch ci tag) s0) as G.
  { induction fuel as [|fuel IH]; intros s0 Hl.
    - destruct s0; [reflexivity | cbn in Hl; lia].
    - destruct s0 as [|c r]; [reflexivity|].
      cbn [CleanupContract.withoutMarkers].
      rewrite (afterMarker_fenceMatch ci tag (c :: r) H), replaceAll_cons.
      cbn [List.length] in Hl.
      destruct (fenceMatch ci tag (c :: r)) as [k|] eqn:E.
      + pose proof (fenceMatch_positive _ _ _ _ E) as Hk.
        destruct k as [|k]; [lia|]. cbn [skipn].
        apply IH. rewrite length_skipn. lia.
      + rewrite IH by lia. reflexivity. }
  apply G. apply Nat.le_refl.
Qed.

Lemma cleaned_cleanCode (raw : jsstring) :
  CleanupContract.cleaned raw = cleanCode raw.
Proof.
  unfold CleanupContract.cleaned, CleanupContract.tags, cleanCode.
  cbn [fold_left].
  rewrite (removeMarkers_stripFence true (u "typescript")),
    (removeMarkers_stripFence true (u "tsx")),
    (removeMarkers_stripFence true (u "jsx")),
    (removeMarkers_stripFence true (u "javascript")),
    (removeMarkers_stripFence false []);
    [reflexivity | now right | ..];
    left; (split; [reflexivity|]);
    repeat (constructor; [split; discriminate|]); constructor.
Qed.

(** C6. The endpoint writes one fragment record for each non-empty delta
    and then, exactly when the accumulated output contains a fence marker,
    one more record. That record is the last of the stream and the only one
    with [cleanedCode]; its [text] is empty and its [cleanedCode] is what
    the specification asks for: the output without the markers of the four
    tags, their letters in either case, and of the plain fence, each with
    the line feed that follows it, then trimmed. So it is the output with
    code units taken out only, no fence left, trimmed. *)
Theorem start_final_record (response : list Delta) :
  let raw := concat (map deltaText response) in
  let fragments :=
    map fragmentRecord (filter truthy (map deltaText response)) in
  buffer (start response) = raw
  /\ queue (start response) =
       fragments ++
       (if includes raw fence
        then [mkRecord (Some [mkChoice (Some []) (Some (cleanCode raw))])]
        else [])
  /\ existsb isFinal fragments = false
  /\ existsb isFinal (queue (start response)) = includes raw fence
  /\ includes (cleanCode raw) fence = false
  /\ isTrimmed (cleanCode raw) = true
  /\ remains (cleanCode raw) raw
  /\ cleanCode raw = CleanupContract.cleaned raw
  /\ queue (start response) =
       fragments ++
       (if includes raw fence
        then [mkRecord
                (Some [mkChoice (Some [])
                         (Some (CleanupContract.cleaned raw))])]
        else []).
Proof.
  intros raw fragments. unfold start. rewrite relay_fold. simpl.
  fold raw. fold fragments. unfold finish. simpl.
  assert (existsb isFinal fragments = false) as Hf
      by apply fragments_not_final.
  rewrite cleaned_cleanCode.
  destruct (includes raw fence) eqn:E; simpl.
  - repeat split; try assumption.
    + rewrite existsb_app, Hf. reflexivity.
    + apply cleanCode_no_fence.
    + apply cleanCode_isTrimmed.
    + apply cleanCode_remains.
  - rewrite app_nil_r. repeat split; try assumption.
    + apply cleanCode_no_fence.
    + apply cleanCode_isTrimmed.
    + apply cleanCode_remains.
Qed.

(** A fenced answer: the opening fence with its tag and line feed and the
    closing fence go, and so does the white space left at the ends. *)
Example fenced_answer :
  let raw := fence ++ u "tsx" ++ [LF] ++ u "import React..." ++ [LF] ++ fence in
  queue (start [Some (fence ++ u "tsx"); Some [LF]; None;
                Some (u "import React..."); Some ([LF] ++ fence)])
  = [fragmentRecord (fence ++ u "tsx"); fragmentRecord [LF];
     fragmentRecord (u "import React..."); fragmentRecord ([LF] ++ fence);
     finalRecord (u "import React...")]
  /\ cleanCode raw = u "import React..."
  /\ cleanCode (fence ++ u "TypeScript" ++ [LF] ++ u "x" ++ [LF] ++ fence
                 ++ [LF]) = u "x"
  /\ cleanCode (fence ++ u "python" ++ [LF] ++ u "x" ++ [LF] ++ fence)
     = u "python" ++ [LF] ++ u "x".
Proof. vm_compute. repeat split. Qed.

(** An answer without fence: fragments only. *)
Example plain_answer :
  queue (start [Some (u "import"); Some (u " React..."); Some [];
                Some (u "export default...")])
  = [fragmentRecord (u "import"); fragmentRecord (u " React...");
     fragmentRecord (u "export default...")].
Proof. reflexivity. Qed.

End Endpoint.

(* ================================================================== *)
(** * The code accumulator *)
(* ================================================================== *)

Section Accumulator.

Import Page.

Lemma consume_fragments (ts : list jsstring) (acc : jsstring) (s : State) :
  fold_left consume (map (fun x => wire (Fragment x)) ts) (acc, s) =
  (acc ++ concat ts,
   match ts with
   | [] => s
   | _ :: _ => setGeneratedCode (acc ++ concat ts) s
   end).
Proof.
  revert acc s. induction ts as [|t ts IH]; intros acc s; simpl.
  - now rewrite app_nil_r.
  - unfold accumulate. simpl. rewrite app_nil_r, IH, <- app_assoc.
    destruct ts as [|t2 ts']; [|reflexivity].
    simpl. now rewrite !app_nil_r.
Qed.

Lemma consume_final (t : jsstring) (acc : jsstring) (s : State) :
  consume (acc, s) (wire (FinalCleaned t)) = (t, setGeneratedCode t s).
Proof. reflexivity. Qed.

(** C1. [createApp] folds the records of the stream in arrival order:
    after fragment events only, the artifact is the concatenation of their
    texts; after fragment events followed by one final cleaned event, it is
    the text of that event, whatever was accumulated before. The same holds
    of the local [fullCode], which becomes the assistant message. *)
Theorem createApp_artifact (r : Render) (s0 : State)
    (ts : list jsstring) (t : jsstring) :
  let s := fst (createApp r s0) in
  let fragments := map (fun x => wire (Fragment x)) ts in
  let finished rs := fst (createApp_resume r (mkResponse true rs false) s) in
  generatedCode (finished fragments) = concat ts
  /\ generatedCode (finished (fragments ++ [wire (FinalCleaned t)])) = t
  /\ fst (consumeAll fragments s) = concat ts
  /\ fst (consumeAll (fragments ++ [wire (FinalCleaned t)]) s) = t
  /\ messages (finished fragments) =
       [mkMessage user (prompt r); mkMessage assistant (concat ts)]
  /\ messages (finished (fragments ++ [wire (FinalCleaned t)])) =
       [mkMessage user (prompt r); mkMessage assistant t].
Proof.
  intros s fragments finished.
  assert (forall rs, finished rs =
            let (fullCode, s1) := consumeAll rs s in
            setPrompt [] (setIsGenerating false (setShowFixInput true
              (setMessages (fun prev => prev ++ [mkMessage assistant fullCode]) s1))))
    as Hfin.
  { intros rs. unfold finished, createApp_resume. simpl.
    destruct (consumeAll rs s). reflexivity. }
  assert (consumeAll fragments s =
          (concat ts, match ts with [] => s | _ :: _ => setGeneratedCode (concat ts) s end))
    as H1 by (unfold consumeAll, fragments; now rewrite consume_fragments).
  assert (consumeAll (fragments ++ [wire (FinalCleaned t)]) s =
          (t, setGeneratedCode t
                (match ts with [] => s | _ :: _ => setGeneratedCode (concat ts) s end)))
    as H2.
  { unfold consumeAll in *. rewrite fold_left_app, H1. reflexivity. }
  rewrite !Hfin, H1, H2.
  repeat split; try reflexivity; destruct ts; reflexivity.
Qed.

End Accumulator.

(* ================================================================== *)
(** * The fix operation and the reset of the auto-fix state *)
(* ================================================================== *)

Section FixOperation.

Import Page.

(** C10. A fix instruction made of white space only, or empty, makes
    [fixCode] return at once: the state is exactly as before (artifact,
    in-flight flag, error state, attempt counter, transcript) and no request
    or other effect is issued. *)
Theorem fixCode_blank (r : Render) (customFixPrompt : option jsstring)
    (s : State) :
  isBlank (fixRequestOf r customFixPrompt) ->
  fixCode r customFixPrompt s = (s, []).
Proof.
  intros H. unfold fixCode. now rewrite (trim_blank _ H).
Qed.

Lemma fixCode_blank_witness :
  let r := setFixPrompt (u "   ") initial in
  isBlank (fixRequestOf r None) /\ fixCode r None r = (r, []).
Proof.
  assert (isBlank (fixRequestOf (setFixPrompt (u "   ") initial) None)) as H.
  { intros c Hc. simpl in Hc.
    destruct Hc as [<- | [<- | [<- | []]]]; reflexivity. }
  split; [exact H | apply (fixCode_blank _ None _ H)].
Defined.














End FixOperation.

(* ================================================================== *)
(** * The error watcher *)
(* ================================================================== *)

Section ErrorWatcher.

Import Page.

Lemma search_found (m : jsstring -> option jsstring) (s g : jsstring) :
  search m s = Some g -> exists a t, s = a ++ t /\ m t = Some g.
Proof.
  induction s as [|c r IH]; simpl.
  - destruct (m []) eqn:E; [|discriminate].
    intros H. injection H as <-. now exists [], [].
  - destruct (m (c :: r)) eqn:E.
    + intros H. injection H as <-. now exists [], (c :: r).
    + intros H. destruct (IH H) as [a [t [-> Ht]]]. now exists (c :: a), t.
Qed.

Lemma takeWhile_dropWhile (p : N -> bool) (s : jsstring) :
  takeWhile p s ++ dropWhile p s = s.
Proof.
  induction s as [|c r IH]; simpl; [reflexivity|].
  destruct (p c); simpl; [now rewrite IH | reflexivity].
Qed.

(** Where the missing-module expression matches, the text contains the
    words the watcher first looks for. *)
Lemma cannotFindModule_signature (s g : jsstring) :
  search cannotFindModuleAt s = Some g ->
  includes s (u "Cannot find module") = true.
Proof.
  intros H. apply search_found in H. destruct H as [a [t [-> Ht]]].
  unfold cannotFindModuleAt in Ht.
  destruct (startsWith t (u "Cannot find module ")) eqn:E; [|discriminate].
  apply startsWith_iff in E. destruct E as [b ->].
  apply includes_iff. exists a, (u " " ++ b).
  change (u "Cannot find module ") with (u "Cannot find module" ++ u " ").
  now rewrite <- !app_assoc.
Qed.

Lemma notDefined_signature (s g : jsstring) :
  search notDefinedAt s = Some g ->
  includes s (u "is not defined") = true.
Proof.
  intros H. apply search_found in H. destruct H as [a [t [-> Ht]]].
  unfold notDefinedAt in Ht.
  destruct (takeWhile isWordChar t) as [|w ws] eqn:W; [discriminate|].
  destruct (startsWith (dropWhile isWordChar t) (u " is not defined")) eqn:E;
    [|discriminate].
  apply startsWith_iff in E. destruct E as [b Hb].
  apply includes_iff. exists (a ++ (w :: ws) ++ u " "), b.
  rewrite <- (takeWhile_dropWhile isWordChar t), W, Hb.
  change (u " is not defined") with (u " " ++ u "is not defined").
  now rewrite <- !app_assoc.
Qed.

(** Where the expression of the chosen category matches, the watcher
    works as the order of the categories says: the quoted module name
    first, then the identifier, then the first flagged element (a fixed text
    when that is empty). *)
Lemma extractError_cases (bodyText : jsstring) (errorElements : list jsstring) :
  let moduleSignature :=
    includes bodyText (u "Cannot find module")
    || includes bodyText (u "Module not found") in
  let undefinedSignature := includes bodyText (u "is not defined") in
  (forall m, search cannotFindModuleAt bodyText = Some m ->
     extractError bodyText errorElements = u "Cannot find module '" ++ m ++ u "'")
  /\ (forall v, moduleSignature = false ->
        search notDefinedAt bodyText = Some v ->
        extractError bodyText errorElements = v ++ u " is not defined")
  /\ (moduleSignature = false -> undefinedSignature = false ->
        extractError bodyText errorElements =
        match errorElements with
        | el :: _ => orElse el (u "Unknown error")
        | [] => []
        end).
Proof.
  intros moduleSignature undefinedSignature. unfold extractError.
  fold moduleSignature. fold undefinedSignature.
  repeat split.
  - intros m Hm.
    assert (moduleSignature = true) as ->.
    { unfold moduleSignature.
      now rewrite (cannotFindModule_signature _ _ Hm). }
    now rewrite Hm.
  - intros v Hno Hv. rewrite Hno.
    assert (undefinedSignature = true) as ->
        by exact (notDefined_signature _ _ Hv).
    now rewrite Hv.
  - intros -> ->. reflexivity.
Qed.

(** A message that is empty makes the watcher do nothing. *)
Lemma checkForErrors_no_message (bodyText : jsstring)
    (errorElements : list jsstring) (r : Render) (s : State) :
  extractError bodyText errorElements = [] ->
  checkForErrors r (Document (Some bodyText) errorElements) s = (s, []).
Proof.
  intros H. unfold checkForErrors.
  destruct (isGenerating r || isAutoFixing r || (3 <=? autoFixAttempts r));
    [reflexivity|].
  now rewrite H.
Qed.

(** C5 fails in the code. The watcher chooses the category by a phrase
    and extracts with an expression that asks for more than the phrase, and
    a category that is chosen and extracts nothing ends the inspection: the
    categories after it are not consulted. So a preview that says
    [Module not found] without the words [Cannot find module] gives no
    message at all, whatever module it names, whatever identifier it
    reports as not defined and whatever elements are flagged; the same
    holds when the words [Cannot find module] are not followed by a quoted
    name, and when [is not defined] is not preceded by a word. With no
    message the watcher does nothing: the failure is never reported and no
    fix is sent. *)
Theorem extractError_falls_silent (bodyText : jsstring)
    (errorElements : list jsstring) :
  let moduleSignature :=
    includes bodyText (u "Cannot find module")
    || includes bodyText (u "Module not found") in
  let undefinedSignature := includes bodyText (u "is not defined") in
  (includes bodyText (u "Module not found") = true ->
   includes bodyText (u "Cannot find module") = false ->
   extractError bodyText errorElements = [])
  /\ (moduleSignature = true -> search cannotFindModuleAt bodyText = None ->
        extractError bodyText errorElements = [])
  /\ (moduleSignature = false -> undefinedSignature = true ->
        search notDefinedAt bodyText = None ->
        extractError bodyText errorElements = [])
  /\ (extractError bodyText errorElements = [] ->
        forall r s,
          checkForErrors r (Document (Some bodyText) errorElements) s
          = (s, [])).
Proof.
  intros moduleSignature undefinedSignature.
  split; [|split; [|split]].
  - intros Hm Hc. unfold extractError. rewrite Hm, Hc. cbn [orb].
    destruct (search cannotFindModuleAt bodyText) as [m|] eqn:E;
      [|reflexivity].
    apply cannotFindModule_signature in E. congruence.
  - unfold extractError. fold moduleSignature. now intros -> ->.
  - unfold extractError. fold moduleSignature. fold undefinedSignature.
    now intros -> -> ->.
  - intros H r s. now apply checkForErrors_no_message.
Qed.

(** The preview of a bundler that cannot resolve an import: the module is
    named and an element is flagged, and nothing is extracted. *)
Lemma extractError_falls_silent_witness :
  let body := u "Module not found: Can't resolve 'axios'" in
  includes body (u "Module not found") = true
  /\ includes body (u "Cannot find module") = false
  /\ extractError body [u "boom"] = []
  /\ checkForErrors initial (Document (Some body) [u "boom"]) initial
     = (initial, []).
Proof.
  pose proof (extractError_falls_silent
                (u "Module not found: Can't resolve 'axios'") [u "boom"])
    as [H1 [_ [_ H4]]].
  split; [reflexivity|]. split; [reflexivity|].
  split; [exact (H1 eq_refl eq_refl)|].
  exact (H4 (H1 eq_refl eq_refl) initial initial).
Defined.

(** Two more previews of that kind. The body text has the words of the
    first category but no quoted module after them, so that category
    extracts nothing; the second pattern matches [foo] and an element is
    flagged, yet no message is extracted. Likewise for the second category
    and the flagged element. *)
Example extractError_silent_previews :
  let body := u "Error: Cannot find module axios. foo is not defined" in
  search cannotFindModuleAt body = None
  /\ search notDefinedAt body = Some (u "foo")
  /\ extractError body [u "boom"] = []
  /\ search notDefinedAt (u "$ is not defined") = None
  /\ extractError (u "$ is not defined") [u "boom"] = [].
Proof. vm_compute. repeat split. Qed.

End ErrorWatcher.

(* ================================================================== *)
(** * The auto-fix controller and its triggers *)
(* ================================================================== *)

Section AutoFix.

Import Page.

Lemma eqb_eq (a b : jsstring) : JS.eqb a b = true <-> a = b.
Proof.
  revert b. induction a as [|x a IH]; intros [|y b]; simpl;
    try (split; [discriminate | intros; discriminate]);
    try (split; reflexivity).
  rewrite andb_true_iff, N.eqb_eq, IH. split.
  - intros [-> ->]. reflexivity.
  - intros H. injection H as -> ->. now split.
Qed.

(** ** What the guards establish

    The guards are evaluated on the render the function belongs to. *)

Lemma autoFixError_guard (r : Render) (errorMessage : jsstring) (s : State) :
  sends (autoFixError r errorMessage s) ->
  isAutoFixing r = false /\ autoFixAttempts r < 3.
Proof.
  unfold sends, autoFixError.
  destruct (isAutoFixing r); cbn [orb snd]; [intros Hn; now elim Hn|].
  destruct (3 <=? autoFixAttempts r) eqn:E; cbn [orb snd]; [intros Hn; now elim Hn|].
  apply Nat.leb_gt in E. intros _. split; [reflexivity | exact E].
Qed.

Lemma checkForErrors_guard (r : Render) (preview : Preview) (s : State) :
  sends (checkForErrors r preview s) ->
  isGenerating r = false /\ isAutoFixing r = false /\ autoFixAttempts r < 3.
Proof.
  unfold sends, checkForErrors.
  destruct (isGenerating r); cbn [orb snd]; [intros Hn; now elim Hn|].
  destruct (isAutoFixing r); cbn [orb snd]; [intros Hn; now elim Hn|].
  destruct (3 <=? autoFixAttempts r) eqn:E; cbn [orb snd]; [intros Hn; now elim Hn|].
  apply Nat.leb_gt in E. intros _. repeat split. exact E.
Qed.

Lemma trim_truthy (c : N) (r : jsstring) :
  isWhiteSpace c = false -> truthy (trim (c :: r)) = true.
Proof.
  intros H. unfold trim. cbn [trimStart]. rewrite H. cbn [trimEnd].
  destruct (trimEnd r); [now rewrite H | reflexivity].
Qed.

(** The synthesized instruction is never blank. *)
Lemma autoFixPrompt_truthy (errorMessage : jsstring) :
  truthy (trim (autoFixPrompt errorMessage)) = true.
Proof.
  unfold autoFixPrompt.
  destruct (includes errorMessage (u "Cannot find module")
            || includes errorMessage (u "Module not found"));
    [|destruct (includes errorMessage (u "is not defined"))];
    apply trim_truthy; reflexivity.
Qed.

Lemma autoFixError_sends (r : Render) (errorMessage : jsstring) (s : State) :
  isAutoFixing r = false -> autoFixAttempts r < 3 ->
  exists req,
    autoFixError r errorMessage s =
    (setMessages (fun _ => reqMessages req)
       (setIsGenerating true
          (setAutoFixAttempts (fun prev => prev + 1) (setIsAutoFixing true s))),
     [Fetch req (inFixCode r)])
    /\ reqPrompt req = autoFixPrompt errorMessage.
Proof.
  intros H1 H2. unfold autoFixError, fixCode. rewrite H1.
  apply Nat.leb_gt in H2. rewrite H2. cbn [orb fixRequestOf].
  assert (orElse (autoFixPrompt errorMessage) (fixPrompt r)
          = autoFixPrompt errorMessage) as ->.
  { unfold orElse. pose proof (autoFixPrompt_truthy errorMessage) as T.
    destruct (autoFixPrompt errorMessage); [discriminate | reflexivity]. }
  rewrite autoFixPrompt_truthy. cbn [negb].
  exists (mkRequest (autoFixPrompt errorMessage)
            (messages r ++ [mkMessage user (autoFixPrompt errorMessage)])
            (Some (generatedCode r))).
  split; reflexivity.
Qed.

(** The counter moves by one exactly when a request is sent. *)
Lemma checkForErrors_attempts (r : Render) (preview : Preview) (s : State) :
  checkForErrors r preview s = (s, [])
  \/ (exists req s',
        checkForErrors r preview s = (s', [Fetch req (inFixCode r)])
        /\ autoFixAttempts s' = S (autoFixAttempts s)
        /\ isAutoFixing s' = true).
Proof.
  unfold checkForErrors.
  destruct (isGenerating r || isAutoFixing r || (3 <=? autoFixAttempts r))
    eqn:G; [now left|].
  apply orb_false_iff in G. destruct G as [G G3].
  apply orb_false_iff in G. destruct G as [_ G2].
  apply Nat.leb_gt in G3.
  destruct preview as [| | |innerText errorElements]; try (now left).
  destruct (truthy _ && negb _); [|now left].
  right.
  match goal with
  | |- context [autoFixError r ?m ?st] =>
      destruct (autoFixError_sends r m st G2 G3) as [req [E _]]; rewrite E
  end.
  eexists _, _. split; [reflexivity|]. split; [|reflexivity].
  simpl. apply Nat.add_1_r.
Qed.

(** When the function that runs is the one of the current render, the
    bound holds: no request while a fix is in progress or after three
    attempts, and the counter stays within 3. *)
Lemma checkForErrors_current (preview : Preview) (s : State) :
  autoFixAttempts s <= 3 ->
  autoFixAttempts (fst (checkForErrors s preview s)) <= 3
  /\ (sends (checkForErrors s preview s) ->
      isAutoFixing s = false /\ autoFixAttempts s < 3).
Proof.
  intros Hle.
  pose proof (checkForErrors_guard s preview s) as G.
  destruct (checkForErrors_attempts s preview s) as [E | [req [s' [E [Ha _]]]]].
  - rewrite E in *. split; [exact Hle|]. intros Hs. now elim Hs.
  - rewrite E in *. simpl.
    assert (sends (s', [Fetch req (inFixCode s)])) as Hs by discriminate.
    apply G in Hs. split; [lia | tauto].
Qed.

(** A message equal to the last one recorded in the render of the
    function sends nothing and changes nothing. *)
Lemma checkForErrors_repeat (r : Render) (innerText : option jsstring)
    (errorElements : list jsstring) (s : State) :
  extractError (match innerText with Some t => t | None => [] end)
    errorElements = lastError r ->
  checkForErrors r (Document innerText errorElements) s = (s, []).
Proof.
  intros H. unfold checkForErrors.
  destruct (isGenerating r || isAutoFixing r || (3 <=? autoFixAttempts r));
    [reflexivity|].
  rewrite H, (proj2 (eqb_eq _ _) eq_refl). simpl.
  now rewrite andb_false_r.
Qed.

(** A message that is not empty and differs from the last one recorded in
    the render of the function, the guards passing, is recorded and sends
    one request, with the instruction made for it. *)
Lemma checkForErrors_new (r : Render) (innerText : option jsstring)
    (errorElements : list jsstring) (s : State) :
  let message :=
    extractError (match innerText with Some t => t | None => [] end)
      errorElements in
  isGenerating r = false -> isAutoFixing r = false -> autoFixAttempts r < 3 ->
  message <> [] -> message <> lastError r ->
  exists req s',
    checkForErrors r (Document innerText errorElements) s
    = (s', [Fetch req (inFixCode r)])
    /\ reqPrompt req = autoFixPrompt message
    /\ lastError s' = message /\ hasError s' = true
    /\ autoFixAttempts s' = S (autoFixAttempts s).
Proof.
  intros message G1 G2 G3 Hne Hnew. unfold checkForErrors.
  rewrite G1, G2. pose proof G3 as G3'. apply Nat.leb_gt in G3'. rewrite G3'.
  cbn [orb]. fold message. clearbody message.
  assert (truthy message = true) as ->
      by (destruct message; [now elim Hne | reflexivity]).
  assert (JS.eqb message (lastError r) = false) as ->.
  { destruct (JS.eqb message (lastError r)) eqn:E; [|reflexivity].
    apply eqb_eq in E. congruence. }
  cbn [andb negb].
  destruct (autoFixError_sends r message
              (setHasError true (setLastError message s)) G2 G3)
    as [req [E Hp]].
  rewrite E. exists req. eexists. split; [reflexivity|].
  split; [exact Hp|]. repeat split. simpl. apply Nat.add_1_r.
Qed.

(** With the budget used up in the render of the function, the check does
    nothing. *)
Lemma checkForErrors_exhausted (r : Render) (preview : Preview) (s : State) :
  3 <= autoFixAttempts r -> checkForErrors r preview s = (s, []).
Proof.
  intros H. unfold checkForErrors. apply Nat.leb_le in H. rewrite H.
  now rewrite !orb_true_r.
Qed.

(** The preview reports a missing module: the module is extracted, the
    instruction asks to do without it, and the counter becomes 1. *)
Example missing_module_scenario :
  let preview := Document (Some (u "Error: Cannot find module 'axios'")) [] in
  let out := checkForErrors initial preview initial in
  lastError (fst out) = u "Cannot find module 'axios'"
  /\ autoFixAttempts (fst out) = 1
  /\ isAutoFixing (fst out) = true
  /\ map (fun e => match e with Fetch req _ => reqPrompt req | _ => [] end)
       (snd out)
     = [u "Fix the import error for module " ++ [DQUOTE] ++ u "axios"
          ++ [DQUOTE]
          ++ u ". If this is an external library, remove it and implement the functionality using only React, TypeScript, and Tailwind CSS. If it's a typo, correct it."].
Proof. vm_compute. repeat split. Qed.

(** ** The one-shot check runs the function of an earlier render

    [createApp] and [fixCode] pass [() => { checkForErrors(); }] to
    [setTimeout]: the [checkForErrors] of their own render. When it runs,
    its [isGenerating], [isAutoFixing], [autoFixAttempts] and [lastError]
    are those of that render, not the current ones; and the [fixCode] it
    reaches schedules the same function again. *)

(** One more round from any state in which the callback of the render of
    the submission is the only one pending: the same fix request is sent
    (with that render's empty artifact and transcript) and the counter of
    the state goes up by one. *)
Lemma fixRound_run (s : State) (reqs : list Request) :
  let r0 := setPrompt (u "build a counter") initial in
  let instruction := autoFixPrompt (u "foo is not defined") in
  exists s',
    run fixRound (mkSession s [] [r0] reqs)
    = mkSession s' [] [r0]
        (reqs ++ [mkRequest instruction [mkMessage user instruction] (Some [])])
    /\ autoFixAttempts s' = S (autoFixAttempts s)
    /\ lastError s' = u "foo is not defined"
    /\ isAutoFixing s' = false.
Proof.
  intros r0 instruction.
  exists (store (run fixRound (mkSession s [] [r0] reqs))).
  split; [vm_compute; reflexivity|].
  split; [vm_compute; apply Nat.add_1_r|].
  split; vm_compute; reflexivity.
Qed.

(** The session after the generation and [n] rounds. *)
Lemma fixRounds_run (n : nat) :
  let r0 := setPrompt (u "build a counter") initial in
  let instruction := autoFixPrompt (u "foo is not defined") in
  exists s,
    run (generation ++ concat (repeat fixRound n)) mount
    = mkSession s [] [r0]
        (mkRequest (u "build a counter") [] None
         :: repeat (mkRequest instruction [mkMessage user instruction] (Some [])) n)
    /\ autoFixAttempts s = n
    /\ (n <> 0 -> lastError s = u "foo is not defined")
    /\ isAutoFixing s = false.
Proof.
  intros r0 instruction. induction n as [|n [s [E [Ha [Hl Hf]]]]].
  - exists (store (run generation mount)).
    split; [vm_compute; reflexivity|].
    split; [reflexivity|]. split; [congruence | reflexivity].
  - destruct (fixRound_run s
                (mkRequest (u "build a counter") [] None
                 :: repeat (mkRequest instruction [mkMessage user instruction]
                              (Some [])) n))
      as [s' [E' [Ha' [Hl' Hf']]]].
    exists s'. split.
    + replace (repeat fixRound (S n)) with (repeat fixRound n ++ [fixRound])
        by (rewrite <- repeat_cons; reflexivity).
      rewrite concat_app, app_assoc.
      change (concat [fixRound]) with (fixRound ++ []). rewrite app_nil_r.
      unfold run in *. rewrite fold_left_app, E.
      fold r0 instruction in E'. rewrite E'.
      f_equal. simpl. f_equal.
      change (repeat ?x n ++ [?x]) with (repeat x n ++ repeat x 1).
      now rewrite <- repeat_cons.
    + split; [congruence|]. split; [intros _; exact Hl' | exact Hf'].
Qed.

(** C2 at the failing input. The user generates an application whose
    preview reports [foo is not defined], and every fix fails in the same
    way. The only pending callback is always that of the render in which the
    prompt was submitted, whose counter is 0 and whose in-progress flag is
    false. Each time it runs it sends a fix request and the counter of the
    state goes up: after [n] rounds the counter is [n] and [n] fix requests
    have been sent, for every [n], so also beyond 3. In a second session, a
    callback scheduled by a quick manual fix runs while an automatic fix is
    in progress and sends a request as well. *)
Theorem autoFix_bound_exceeded :
  (forall n,
     let c := run (generation ++ concat (repeat fixRound n)) mount in
     autoFixAttempts (store c) = n
     /\ List.length (fetched c) = S n
     /\ isAutoFixing (store c) = false
     /\ timeouts c = [setPrompt (u "build a counter") initial])
  /\ (let busy :=
        run (generation ++ quickManualFix ++ [Timeout 0 brokenPreview]) mount in
      isAutoFixing (store busy) = true
      /\ List.length (fetched (step busy (Timeout 0 brokenPreview)))
         = S (List.length (fetched busy))).
Proof.
  split.
  - intros n c. subst c.
    destruct (fixRounds_run n) as [s [E [Ha [_ Hf]]]]. rewrite E.
    cbn [store fetched timeouts]. repeat split; try assumption.
    cbn [List.length]. now rewrite repeat_length.
  - vm_compute. split; reflexivity.
Qed.

(** C3 at the failing input. In the same session, after one round or
    more, the last recorded message is [foo is not defined]. The pending
    callback, whose own [lastError] is empty, runs on a preview from which
    the identical message is extracted, and one more fix request with the
    same instruction is sent. *)
Theorem repeated_error_dispatched_again (n : nat) :
  let message := u "foo is not defined" in
  let instruction := autoFixPrompt message in
  let c := run (generation ++ concat (repeat fixRound (S n))) mount in
  lastError (store c) = message
  /\ extractError (u "ReferenceError: foo is not defined") [] = message
  /\ map lastError (timeouts c) = [[]]
  /\ fetched (run fixRound c)
     = fetched c ++ [mkRequest instruction [mkMessage user instruction] (Some [])].
Proof.
  intros message instruction c. subst c instruction message.
  destruct (fixRounds_run (S n)) as [s [E [_ [Hl _]]]].
  cbv zeta in E. rewrite E.
  destruct (fixRound_run s
              (mkRequest (u "build a counter") [] None
               :: repeat
                    (mkRequest (autoFixPrompt (u "foo is not defined"))
                       [mkMessage user (autoFixPrompt (u "foo is not defined"))]
                       (Some [])) (S n)))
    as [s' [E' _]].
  cbv zeta in E'. rewrite E'.
  cbn [store fetched timeouts]. split; [apply Hl; discriminate|].
  repeat split.
Qed.

End AutoFix.

(* ================================================================== *)
(** * The stream decoder *)
(* ================================================================== *)

Section StreamDecoder.

Lemma parsed_app (a b : list jsstring) : parsed (a ++ b) = parsed a ++ parsed b.
Proof.
  induction a as [|l a IH]; simpl; [reflexivity|].
  destruct (JSON.parse l); simpl; now rewrite IH.
Qed.

(** The loop over the lines of one chunk. *)
Lemma readLine_fold (lines : list jsstring) (acc : Run) :
  fold_left readLine lines acc =
  mkRun (yielded acc ++ parsed (filter nonBlank lines))
        (logged acc ++ filter malformed lines)
        (threw acc).
Proof.
  revert acc. induction lines as [|l lines IH]; intros [ys ls t]; simpl.
  - now rewrite !app_nil_r.
  - rewrite IH. unfold readLine, malformed, parses, nonBlank.
    destruct (truthy (trim l)); simpl; [|reflexivity].
    destruct (JSON.parse l); simpl; now rewrite <- !app_assoc.
Qed.

(** The loop over the chunks. *)
Lemma readChunk_fold (chunks : list (list byte)) (decoder : TextDecoder.state)
    (acc : Run) :
  let lines := flat_map (split LF) (texts decoder chunks) in
  snd (fold_left readChunk chunks (decoder, acc)) =
  mkRun (yielded acc ++ parsed (filter nonBlank lines))
        (logged acc ++ filter malformed lines)
        (threw acc).
Proof.
  revert decoder acc.
  induction chunks as [|value rest IH]; intros decoder [ys ls t]; simpl.
  - now rewrite !app_nil_r.
  - destruct (TextDecoder.decode decoder value) as [decoder' text].
    simpl. rewrite IH, readLine_fold. simpl.
    now rewrite !filter_app, parsed_app, <- !app_assoc.
Qed.

Lemma readStream_run (reader : Reader) :
  readStream (Some reader) =
  mkRun (parsed (filter nonBlank (linesOf (chunks reader))))
        (filter malformed (linesOf (chunks reader)))
        (rejects reader).
Proof.
  unfold readStream, linesOf.
  pose proof (readChunk_fold (chunks reader) TextDecoder.new emptyRun) as H.
  destruct (fold_left readChunk (chunks reader) (TextDecoder.new, emptyRun))
    as [st acc].
  simpl in H. now rewrite H.
Qed.

(** C8. The decoder handles every line of every chunk: a line that is
    blank is skipped, a line that parses is yielded, and a line that does
    not parse is reported with [console.error] and nothing else happens: the
    generator ends by throwing only when a read of the transport rejects.
    Hence a line that is not valid JSON is the only thing its failure
    removes from the output: the lines before it and after it are yielded as
    they would be without it, and it is logged once. *)
Theorem readStream_skips_malformed (reader : Reader) :
  let lines := linesOf (chunks reader) in
  let out := readStream (Some reader) in
  yielded out = parsed (filter nonBlank lines)
  /\ logged out = filter malformed lines
  /\ threw out = rejects reader
  /\ (forall before bad after,
        lines = before ++ bad :: after ->
        nonBlank bad = true -> JSON.parse bad = None ->
        yielded out =
          parsed (filter nonBlank before) ++ parsed (filter nonBlank after)
        /\ logged out =
             filter malformed before ++ bad :: filter malformed after).
Proof.
  intros lines out. unfold out. rewrite readStream_run. fold lines. simpl.
  repeat split.
  - rewrite H, filter_app, parsed_app. simpl. rewrite H0. simpl.
    now rewrite H1.
  - rewrite H, filter_app. simpl. unfold malformed at 2, parses.
    now rewrite H0, H1.
Qed.

Lemma readStream_skips_malformed_witness :
  let reader :=
    mkReader [bytes "{oops" ++ [x0a] ++ recordLine] false in
  linesOf (chunks reader)
    = [] ++ u "{oops" :: (firstn 26 (map (fun b => Byte.to_N b) recordLine)
                          :: [[]])
  /\ yielded (readStream (Some reader)) = [recordValue]
  /\ logged (readStream (Some reader)) = [u "{oops"].
Proof.
  assert (linesOf [bytes "{oops" ++ [x0a] ++ recordLine]
          = [] ++ u "{oops" :: (firstn 26 (map (fun b => Byte.to_N b) recordLine)
                                :: [[]])) as H by reflexivity.
  split; [exact H|].
  destruct (proj2 (proj2 (proj2 (readStream_skips_malformed
             (mkReader [bytes "{oops" ++ [x0a] ++ recordLine] false))))
             _ _ _ H eq_refl eq_refl) as [Hy Hl].
  split; [exact Hy | exact Hl].
Defined.

(** ** Chunk boundaries *)

Import TextDecoder.

Lemma leadByte_bom (x : bool) (st : state) (b : N) :
  leadByte (setBomSeen x st) b =
  let (st', out) := leadByte st b in (setBomSeen x st', out).
Proof.
  unfold leadByte.
  repeat match goal with
         | |- context [if ?c then _ else _] => destruct c
         end; reflexivity.
Qed.

Lemma handler_bom (x : bool) (st : state) (b : N) :
  handler (setBomSeen x st) b =
  let (st', out) := handler st b in (setBomSeen x st', out).
Proof.
  destruct st as [cp seen needed lower upper bom].
  unfold handler, reset, setBomSeen, leadByte.
  cbn [bytesNeeded lowerBoundary upperBoundary codePoint bytesSeen bomSeen].
  repeat match goal with
         | |- context [if ?c then _ else _] => destruct c
         end; reflexivity.
Qed.

Lemma run_bom (x : bool) (bytes : list N) (st : state) :
  run (setBomSeen x st) bytes =
  let (st', out) := run st bytes in (setBomSeen x st', out).
Proof.
  revert st. induction bytes as [|b rest IH]; intros st; simpl.
  - reflexivity.
  - rewrite handler_bom. destruct (handler st b) as [st1 out1].
    rewrite IH. destruct (run st1 rest). reflexivity.
Qed.

Lemma leadByte_bomSeen (st : state) (b : N) :
  bomSeen (fst (leadByte st b)) = bomSeen st.
Proof.
  unfold leadByte.
  repeat match goal with
         | |- context [if ?c then _ else _] => destruct c
         end; reflexivity.
Qed.

Lemma handler_bomSeen (st : state) (b : N) :
  bomSeen (fst (handler st b)) = bomSeen st.
Proof.
  unfold handler.
  destruct (bytesNeeded st =? 0)%N; [apply leadByte_bomSeen|].
  destruct ((b <? lowerBoundary st) || (upperBoundary st <? b))%N.
  - pose proof (leadByte_bomSeen (reset st) b) as H.
    destruct (leadByte (reset st) b). exact H.
  - destruct (bytesSeen st + 1 =? bytesNeeded st)%N; reflexivity.
Qed.

Lemma run_bomSeen (bytes : list N) (st : state) :
  bomSeen (fst (run st bytes)) = bomSeen st.
Proof.
  revert st. induction bytes as [|b rest IH]; intros st; simpl; [reflexivity|].
  pose proof (handler_bomSeen st b) as H.
  destruct (handler st b) as [st1 out1].
  specialize (IH st1). destruct (run st1 rest). simpl in *. congruence.
Qed.

Lemma run_app (a b : list N) (st : state) :
  run st (a ++ b) =
  let (st1, out1) := run st a in
  let (st2, out2) := run st1 b in (st2, out1 ++ out2).
Proof.
  revert st. induction a as [|x a IH]; intros st; simpl.
  - destruct (run st b). reflexivity.
  - destruct (handler st x) as [st0 out0]. rewrite IH.
    destruct (run st0 a) as [st1 out1]. destruct (run st1 b) as [st2 out2].
    now rewrite app_assoc.
Qed.

Lemma serialize_app (a b : list N) (seen : bool) :
  serialize seen (a ++ b) =
  let (seen1, t1) := serialize seen a in
  let (seen2, t2) := serialize seen1 b in (seen2, t1 ++ t2).
Proof.
  revert seen. induction a as [|cp a IH]; intros seen; simpl.
  - destruct (serialize seen b). reflexivity.
  - destruct (negb seen && (cp =? BOM)%N).
    + apply IH.
    + rewrite IH. destruct (serialize true a) as [seen1 t1].
      destruct (serialize seen1 b). now rewrite app_assoc.
Qed.

(** Decoding two chunks one after the other, the state carried over, gives
    the text of the two chunks joined: a character whose bytes are cut by
    the boundary is completed by the second call. *)
Lemma decode_app (a b : list byte) (st : state) :
  decode st (a ++ b) =
  let (st1, t1) := decode st a in
  let (st2, t2) := decode st1 b in (st2, t1 ++ t2).
Proof.
  unfold decode. rewrite map_app, run_app.
  pose proof (run_bomSeen (map Byte.to_N a) st) as Ha.
  destruct (run st (map Byte.to_N a)) as [stA outA]. simpl in Ha.
  pose proof (run_bomSeen (map Byte.to_N b) stA) as Hb.
  destruct (run stA (map Byte.to_N b)) as [stB outB] eqn:EB. simpl in Hb.
  rewrite serialize_app, Hb.
  destruct (serialize (bomSeen stA) outA) as [seen1 t1].
  rewrite run_bom, EB. cbn [bomSeen setBomSeen].
  destruct (serialize seen1 outB) as [seen2 t2]. reflexivity.
Qed.

Lemma texts_concat (chunks : list (list byte)) (st : state) :
  concat (texts st chunks) = snd (decode st (concat chunks)).
Proof.
  revert st. induction chunks as [|value rest IH]; intros st; simpl.
  - reflexivity.
  - rewrite decode_app. destruct (decode st value) as [st1 t1].
    simpl. rewrite IH. destruct (decode st1 (concat rest)). reflexivity.
Qed.

(** The three bytes of the euro sign, cut after the second one. *)
Example euro_sign_across_chunks :
  texts new [[xe2; x82]; [xac; x0a]] = [[]; [8364%N; LF]]
  /\ snd (decode new [xe2; x82; xac; x0a]) = [8364%N; LF].
Proof. vm_compute. split; reflexivity. Qed.

(** The decoder only reaches states that expect continuation bytes. *)
Lemma handler_expects (st : state) (b : N) :
  expectsContinuation st -> expectsContinuation (fst (handler st b)).
Proof.
  destruct st as [cp seen needed lower upper bom].
  unfold expectsContinuation, handler, reset, leadByte.
  cbn [bytesNeeded lowerBoundary upperBoundary codePoint bytesSeen bomSeen].
  intros H.
  repeat match goal with
         | |- context [if ?c then _ else _] => destruct c
         end; cbn [fst lowerBoundary]; lia.
Qed.

Lemma run_expects (bytes : list N) (st : state) :
  expectsContinuation st -> expectsContinuation (fst (run st bytes)).
Proof.
  revert st. induction bytes as [|b rest IH]; intros st H; simpl; [exact H|].
  pose proof (handler_expects st b H) as H1.
  destruct (handler st b) as [st1 out1]. specialize (IH st1 H1).
  destruct (run st1 rest). exact IH.
Qed.

Lemma decode_expects (value : list byte) (st : state) :
  expectsContinuation st -> expectsContinuation (fst (decode st value)).
Proof.
  intros H. unfold decode.
  pose proof (run_expects (map Byte.to_N value) st H) as H1.
  destruct (run st (map Byte.to_N value)) as [st1 cps].
  destruct (serialize (bomSeen st1) cps). exact H1.
Qed.

(** The line feed byte always comes out as a line feed, at the end. *)
Lemma decode_LF (st : state) :
  expectsContinuation st -> exists t0, snd (decode st [x0a]) = t0 ++ [LF].
Proof.
  destruct st as [cp seen needed lower upper bom].
  unfold expectsContinuation. cbn [lowerBoundary]. intros H.
  unfold decode, run, handler.
  cbn [map bytesNeeded lowerBoundary upperBoundary codePoint bytesSeen bomSeen].
  change (Byte.to_N x0a) with 10%N.
  destruct (needed =? 0)%N.
  - exists []. unfold leadByte. change (10 <=? 127)%N with true.
    cbn [app serialize bomSeen andb negb].
    change (10 =? BOM)%N with false. rewrite andb_false_r. reflexivity.
  - assert ((10 <? lower)%N = true) as -> by (apply N.ltb_lt; lia).
    cbn [orb]. exists [REPLACEMENT].
    unfold leadByte. change (10 <=? 127)%N with true.
    cbn [reset bomSeen app serialize].
    change (REPLACEMENT =? BOM)%N with false.
    change (10 =? BOM)%N with false. rewrite !andb_false_r. reflexivity.
Qed.

Lemma endsAtLineBoundary_cases (value : list byte) :
  endsAtLineBoundary value -> value = [] \/ exists v0, value = v0 ++ [x0a].
Proof.
  unfold endsAtLineBoundary.
  destruct value as [|b v0 _] using rev_ind; [now left|].
  rewrite last_last. intros ->. right. now exists v0.
Qed.

Lemma decode_endsWithLF (value : list byte) (st : state) :
  expectsContinuation st -> endsAtLineBoundary value ->
  endsWithLF (snd (decode st value)).
Proof.
  intros Hst Hv.
  destruct (endsAtLineBoundary_cases _ Hv) as [-> | [v0 ->]].
  - left. unfold decode. simpl. reflexivity.
  - right. rewrite decode_app.
    pose proof (decode_expects v0 st Hst) as H1.
    destruct (decode st v0) as [st1 t1]. simpl in H1.
    destruct (decode_LF st1 H1) as [t0 Ht0].
    destruct (decode st1 [x0a]) as [st2 t2]. simpl in *. subst t2.
    exists (t1 ++ t0). now rewrite app_assoc.
Qed.

Lemma texts_endWithLF (chunks : list (list byte)) (st : state) :
  expectsContinuation st -> Forall endsAtLineBoundary chunks ->
  Forall endsWithLF (texts st chunks).
Proof.
  revert st. induction chunks as [|value rest IH]; intros st Hst Hc; simpl.
  - constructor.
  - inversion Hc as [|? ? Hv Hrest]; subst.
    pose proof (decode_endsWithLF value st Hst Hv) as H1.
    pose proof (decode_expects value st Hst) as H2.
    destruct (decode st value) as [st1 t1]. simpl in *.
    constructor; [exact H1 | now apply IH].
Qed.

(** ** Lines *)

Lemma split_not_nil (sep : N) (s : jsstring) : split sep s <> [].
Proof.
  destruct s as [|c r]; simpl; [discriminate|].
  destruct (N.eqb c sep); [discriminate|].
  destruct (split sep r); discriminate.
Qed.

Lemma split_app_sep (sep : N) (t t' : jsstring) :
  split sep (t ++ sep :: t') = split sep t ++ split sep t'.
Proof.
  induction t as [|c r IH]; simpl.
  - now rewrite N.eqb_refl.
  - destruct (N.eqb c sep); [now rewrite IH|].
    rewrite IH. pose proof (split_not_nil sep r) as Hne.
    destruct (split sep r); [congruence | reflexivity].
Qed.

(** When every text stops at a line boundary, the non-blank lines of the
    texts are the non-blank lines of the texts joined. *)
Lemma lines_of_whole_texts (ts : list jsstring) :
  Forall endsWithLF ts ->
  filter nonBlank (flat_map (split LF) ts)
  = filter nonBlank (split LF (concat ts)).
Proof.
  induction 1 as [|t ts Ht _ IH]; [reflexivity|].
  simpl. rewrite filter_app, IH.
  destruct Ht as [-> | [t0 ->]]; [reflexivity|].
  rewrite <- app_assoc. simpl.
  rewrite !split_app_sep, !filter_app. simpl. now rewrite app_nil_r.
Qed.

Lemma filter_malformed (lines : list jsstring) :
  filter malformed lines = filter malformed (filter nonBlank lines).
Proof.
  induction lines as [|l lines IH]; [reflexivity|].
  cbn [filter]. destruct (nonBlank l) eqn:E.
  - cbn [filter]. now rewrite IH.
  - unfold malformed at 1. rewrite E. exact IH.
Qed.

(** When every chunk stops at a line boundary (is empty or ends with the
    line feed byte), the run is the run of the stream in one chunk. *)
Lemma readStream_whole_chunks (chunks : list (list byte)) (rejects : bool) :
  Forall endsAtLineBoundary chunks ->
  readStream (Some (mkReader chunks rejects))
  = readStream (Some (mkReader [concat chunks] rejects)).
Proof.
  intros H. rewrite !readStream_run. cbn [Decoder.chunks Decoder.rejects].
  assert (filter nonBlank (linesOf chunks)
          = filter nonBlank (linesOf [concat chunks])) as E.
  { unfold linesOf.
    rewrite lines_of_whole_texts
      by (apply texts_endWithLF; [unfold expectsContinuation; simpl; lia | exact H]).
    rewrite texts_concat. cbn [texts flat_map].
    destruct (decode new (concat chunks)) as [st1 t1]. simpl.
    now rewrite !app_nil_r. }
  rewrite (filter_malformed (linesOf chunks)), E, <- filter_malformed.
  reflexivity.
Qed.

(** C4 as stated fails. The bytes of one record line, cut after the
    twelfth byte into two chunks, are the line again when put together; in
    one chunk the decoder yields the record, in two chunks it yields nothing
    and reports both parts as malformed lines. *)
Lemma split_record_lost :
  let first := firstn 12 recordLine in
  let second := skipn 12 recordLine in
  concat [first; second] = recordLine
  /\ yielded (readStream (Some (mkReader [recordLine] false))) = [recordValue]
  /\ yielded (readStream (Some (mkReader [first; second] false))) = []
  /\ List.length (logged (readStream (Some (mkReader [first; second] false)))) = 2.
Proof. vm_compute. repeat split. Qed.

End StreamDecoder.

(* ================================================================== *)
(** * From the model's answer to the artifact *)
(* ================================================================== *)

Section EndToEnd.

Import Page.

Lemma concat_filter_truthy (ts : list jsstring) :
  concat (filter truthy ts) = concat ts.
Proof.
  induction ts as [|t ts IH]; [reflexivity|].
  destruct t as [|c t]; simpl; [exact IH | now rewrite IH].
Qed.

Lemma filter_truthy_nil (ts : list jsstring) :
  filter truthy ts = [] -> concat ts = [].
Proof. intros H. now rewrite <- concat_filter_truthy, H. Qed.

(** The records of the endpoint, consumed by the loop of the page: the
    local [fullCode] is the answer, cleaned when it has a fence; the
    artifact follows, unless no record arrived at all. *)
Lemma consumeAll_start (response : list Route.Delta) (s : State) :
  let raw := concat (map deltaText response) in
  let final := if includes raw fence then cleanCode raw else raw in
  consumeAll (queue (start response)) s =
  (final, match raw with [] => s | _ :: _ => setGeneratedCode final s end).
Proof.
  intros raw final.
  assert (queue (start response) =
          map fragmentRecord (filter truthy (map deltaText response))
          ++ (if includes raw fence then [finalRecord (cleanCode raw)] else []))
    as Hq.
  { unfold start, finish. rewrite relay_fold. cbn [buffer queue app].
    fold raw. destruct (includes raw fence); [reflexivity|].
    now rewrite app_nil_r. }
  rewrite Hq. clear Hq.
  unfold consumeAll. rewrite fold_left_app.
  change (map fragmentRecord (filter truthy (map deltaText response)))
    with (map (fun x => wire (Fragment x))
              (filter truthy (map deltaText response))).
  rewrite consume_fragments. cbn [app].
  rewrite concat_filter_truthy. fold raw.
  subst final. destruct (includes raw fence) eqn:E.
  - cbn [fold_left].
    destruct raw as [|c raw']; [discriminate|].
    destruct (filter truthy (map deltaText response)); reflexivity.
  - cbn [fold_left].
    destruct (filter truthy (map deltaText response)) as [|t ts] eqn:F.
    + apply filter_truthy_nil in F. fold raw in F. now rewrite F.
    + destruct raw as [|c raw'] eqn:R; [|reflexivity].
      exfalso.
      assert (concat (filter truthy (map deltaText response)) = []) as C
          by (rewrite concat_filter_truthy; exact R).
      rewrite F in C. simpl in C.
      apply app_eq_nil in C. destruct C as [C _]. subst t.
      assert (In [] (filter truthy (map deltaText response))) as I
          by (rewrite F; now left).
      apply filter_In in I. destruct I as [_ I]. discriminate.
Qed.

(** X1. Generation, end to end: whatever the model streams, when the
    response has been consumed the artifact is the whole answer if it has
    no fence marker, and the cleaned answer otherwise. Either way it
    contains no fence marker, it is the answer with code units taken out
    only, and the transcript is the prompt followed by the artifact. *)
Theorem generation_end_to_end (response : list Route.Delta) (r : Render)
    (s0 : State) :
  let raw := concat (map deltaText response) in
  let res := mkResponse true (queue (start response)) false in
  let s' := fst (createApp_resume r res (fst (createApp r s0))) in
  generatedCode s' = (if includes raw fence then cleanCode raw else raw)
  /\ includes (generatedCode s') fence = false
  /\ remains (generatedCode s') raw
  /\ messages s' =
       [mkMessage user (prompt r); mkMessage assistant (generatedCode s')]
  /\ isGenerating s' = false /\ showFixInput s' = true
  /\ autoFixAttempts s' = 0.
Proof.
  intros raw res s'.
  assert (generatedCode s' = (if includes raw fence then cleanCode raw else raw)
          /\ messages s' =
               [mkMessage user (prompt r);
                mkMessage assistant
                  (if includes raw fence then cleanCode raw else raw)]
          /\ isGenerating s' = false /\ showFixInput s' = true
          /\ autoFixAttempts s' = 0) as [Hg [Hm Hrest]].
  { subst s' res. unfold createApp_resume. cbn [ok results rejects negb].
    rewrite consumeAll_start. fold raw.
    destruct raw as [|c raw'] eqn:R.
    - cbn [includes startsWith startsWithBy fence orb]. repeat split.
    - destruct (includes (c :: raw') fence); repeat split. }
  rewrite Hg. repeat split; try tauto.
  - destruct (includes raw fence) eqn:E; [apply cleanCode_no_fence | exact E].
  - destruct (includes raw fence); [apply cleanCode_remains | apply remains_refl].
Qed.

(** X2. A fix, end to end: the artifact becomes the (cleaned) answer when
    the model answers anything, and stays what it was when the answer is
    empty; the assistant message appended to the transcript is the answer
    in both cases, the fix input is emptied and the error flag cleared. *)
Theorem fix_end_to_end (response : list Route.Delta) (r : Render) (s : State) :
  let raw := concat (map deltaText response) in
  let final := if includes raw fence then cleanCode raw else raw in
  let res := mkResponse true (queue (start response)) false in
  let s' := fst (fixCode_resume r res s) in
  generatedCode s' = (match raw with [] => generatedCode s | _ :: _ => final end)
  /\ messages s' = messages s ++ [mkMessage assistant final]
  /\ fixPrompt s' = [] /\ hasError s' = false
  /\ isGenerating s' = false /\ isAutoFixing s' = false
  /\ snd (fixCode_resume r res s) = [SetTimeout r].
Proof.
  intros raw final res s'. subst s' res.
  unfold fixCode_resume. cbn [ok results rejects negb].
  rewrite consumeAll_start. fold raw. fold final.
  destruct raw; repeat split.
Qed.

End EndToEnd.

(* ================================================================== *)
(** * Failures, the transcript and the watcher's outcome *)
(* ================================================================== *)

Section Outcomes.

Import Page.

Lemma setGeneratedCode_same (s : State) : setGeneratedCode (generatedCode s) s = s.
Proof. now destruct s. Qed.

(** The loop of the accumulator writes the artifact and nothing else. *)
Lemma consume_fold_only_code (rs : list StreamRecord) (acc : jsstring)
    (s : State) :
  exists code, snd (fold_left consume rs (acc, s)) = setGeneratedCode code s.
Proof.
  revert acc s. induction rs as [|x rs IH]; intros acc s.
  - exists (generatedCode s). simpl. now rewrite setGeneratedCode_same.
  - cbn [fold_left]. unfold consume at 2.
    destruct (choices x) as [cs|]; [|apply IH].
    destruct (IH (accumulate acc cs) (setGeneratedCode (accumulate acc cs) s))
      as [code E].
    exists code. rewrite E. reflexivity.
Qed.

Lemma consumeAll_only_code (rs : list StreamRecord) (s : State) :
  exists code, snd (consumeAll rs s) = setGeneratedCode code s.
Proof. apply consume_fold_only_code. Qed.

(** X3. A fix that fails, because the response is not ok or because the
    stream breaks off, reports the failure and schedules no check. The
    transcript gets no assistant message, the fix input, the error state and
    the attempt counter stay as they are (a failed automatic fix does not
    give its attempt back), and both in-flight flags are cleared. When the
    response was not ok the artifact is untouched; when the stream broke
    off, the artifact is what the records received so far made it. *)
Theorem failed_fix (r : Render) (res : Response) (s : State) :
  ok res = false \/ rejects res = true ->
  let s' := fst (fixCode_resume r res s) in
  snd (fixCode_resume r res s)
    = [ConsoleError; Alert (u "Failed to fix code. Please try again.")]
  /\ messages s' = messages s /\ fixPrompt s' = fixPrompt s
  /\ hasError s' = hasError s /\ lastError s' = lastError s
  /\ autoFixAttempts s' = autoFixAttempts s
  /\ isGenerating s' = false /\ isAutoFixing s' = false
  /\ generatedCode s' =
       (if ok res then generatedCode (snd (consumeAll (results res) s))
        else generatedCode s).
Proof.
  intros H s'. subst s'. unfold fixCode_resume.
  destruct (ok res) eqn:Hok; cbn [negb].
  - destruct H as [H|H]; [discriminate|]. rewrite H.
    destruct (consumeAll_only_code (results res) s) as [code E].
    destruct (consumeAll (results res) s) as [fullCode s1].
    cbn [snd] in *. subst s1. repeat split.
  - repeat split.
Qed.

Lemma failed_fix_witness :
  let res := mkResponse true [fragmentRecord (u "export def")] true in
  (ok res = false \/ rejects res = true)
  /\ generatedCode (fst (fixCode_resume initial res initial)) = u "export def"
  /\ messages (fst (fixCode_resume initial res initial)) = [].
Proof.
  assert (ok (mkResponse true [fragmentRecord (u "export def")] true) = false
          \/ rejects (mkResponse true [fragmentRecord (u "export def")] true)
             = true) as H by (right; reflexivity).
  split; [exact H|].
  pose proof (failed_fix initial _ initial H) as F.
  cbv zeta in F. destruct F as [_ [Hm [_ [_ [_ [_ [_ [_ Hg]]]]]]]].
  split; [exact Hg | exact Hm].
Defined.

(** X4. A generation that fails in the same ways: the failure is
    reported, no check is scheduled and the fix input is not shown; the
    transcript is left with the prompt alone, the in-flight flag is
    cleared, and the prompt field is emptied all the same. *)
Theorem failed_generation (r : Render) (res : Response) (s0 : State) :
  ok res = false \/ rejects res = true ->
  let s := fst (createApp r s0) in
  let s' := fst (createApp_resume r res s) in
  snd (createApp_resume r res s)
    = [ConsoleError; Alert (u "Failed to generate code. Please try again.")]
  /\ messages s' = [mkMessage user (prompt r)]
  /\ showFixInput s' = false /\ isGenerating s' = false /\ prompt s' = []
  /\ generatedCode s' =
       (if ok res then generatedCode (snd (consumeAll (results res) s))
        else []).
Proof.
  intros H s s'. subst s'. unfold createApp_resume.
  destruct (ok res) eqn:Hok; cbn [negb].
  - destruct H as [H|H]; [discriminate|]. rewrite H.
    destruct (consumeAll_only_code (results res) s) as [code E].
    destruct (consumeAll (results res) s) as [fullCode s1].
    cbn [snd] in *. subst s1. repeat split.
  - repeat split.
Qed.

Lemma failed_generation_witness :
  let res := mkResponse false [] false in
  (ok res = false \/ rejects res = true)
  /\ generatedCode
       (fst (createApp_resume initial res (fst (createApp initial initial))))
     = [].
Proof.
  assert (ok (mkResponse false [] false) = false
          \/ rejects (mkResponse false [] false) = true) as H
      by (left; reflexivity).
  split; [exact H|].
  pose proof (failed_generation initial _ initial H) as F.
  cbv zeta in F. exact (proj2 (proj2 (proj2 (proj2 (proj2 F))))).
Defined.

(** X5. A manual fix with the function of the current render: the request
    carries the instruction, the current artifact and the transcript with
    the instruction appended; when it completes, the transcript is the old
    one followed by the instruction and the code received. *)
Theorem manual_fix_transcript (s : State) (res : Response) :
  truthy (trim (fixPrompt s)) = true -> ok res = true -> rejects res = false ->
  let started := fixCode s None s in
  let done := fst (fixCode_resume s res (fst started)) in
  snd started
    = [Fetch (mkRequest (fixPrompt s)
                (messages s ++ [mkMessage user (fixPrompt s)])
                (Some (generatedCode s))) (inFixCode s)]
  /\ isGenerating (fst started) = true
  /\ messages done
     = messages s
       ++ [mkMessage user (fixPrompt s);
           mkMessage assistant (fst (consumeAll (results res) (fst started)))]
  /\ fixPrompt done = [] /\ isGenerating done = false.
Proof.
  intros Ht Hok Hrej started done. subst done started.
  unfold fixCode. cbn [fixRequestOf]. rewrite Ht. cbn [negb fst snd].
  split; [reflexivity|]. split; [reflexivity|].
  unfold fixCode_resume. rewrite Hok, Hrej. cbn [negb].
  match goal with |- context [consumeAll ?rs ?st] =>
    destruct (consumeAll_only_code rs st) as [code E];
    destruct (consumeAll rs st) as [fullCode s1]
  end.
  cbn [snd fst] in *. subst s1. cbn. rewrite <- app_assoc. repeat split.
Qed.

Lemma manual_fix_transcript_witness :
  let s := setFixPrompt (u "make it blue") (setGeneratedCode (u "x") initial) in
  truthy (trim (fixPrompt s)) = true
  /\ messages (fst (fixCode_resume s okResponse (fst (fixCode s None s))))
     = [mkMessage user (u "make it blue"); mkMessage assistant brokenCode].
Proof.
  split; [reflexivity|].
  exact (proj1 (proj2 (proj2
    (manual_fix_transcript
       (setFixPrompt (u "make it blue") (setGeneratedCode (u "x") initial))
       okResponse eq_refl eq_refl eq_refl)))).
Defined.

(** What the watcher does, by cases. *)
Lemma checkForErrors_cases (r : Render) (preview : Preview) (s : State) :
  checkForErrors r preview s = (s, [])
  \/ exists message,
       message <> [] /\ message <> lastError r
       /\ checkForErrors r preview s =
          (setMessages
             (fun _ => messages r ++ [mkMessage user (autoFixPrompt message)])
             (setIsGenerating true
                (setAutoFixAttempts (fun prev => prev + 1)
                   (setIsAutoFixing true
                      (setHasError true (setLastError message s))))),
           [Fetch (mkRequest (autoFixPrompt message)
                     (messages r ++ [mkMessage user (autoFixPrompt message)])
                     (Some (generatedCode r))) (inFixCode r)]).
Proof.
  unfold checkForErrors.
  destruct (isGenerating r || isAutoFixing r || (3 <=? autoFixAttempts r))
    eqn:G; [now left|].
  apply orb_false_iff in G. destruct G as [G G3].
  apply orb_false_iff in G. destruct G as [_ G2].
  destruct preview as [| | |innerText errorElements]; try (now left).
  set (message := extractError _ errorElements).
  destruct (truthy message) eqn:T; [|now left].
  destruct (JS.eqb message (lastError r)) eqn:E; [now left|].
  right. exists message. split; [destruct message; [discriminate|discriminate]|].
  split.
  - intros H. apply eqb_eq in H. congruence.
  - cbn [andb negb]. unfold autoFixError, fixCode. rewrite G2, G3.
    cbn [orb fixRequestOf].
    assert (orElse (autoFixPrompt message) (fixPrompt r)
            = autoFixPrompt message) as ->.
    { unfold orElse. pose proof (autoFixPrompt_truthy message) as P.
      destruct (autoFixPrompt message); [discriminate | reflexivity]. }
    rewrite autoFixPrompt_truthy. reflexivity.
Qed.

(** X6. Whatever the preview and whichever render the function belongs
    to, the watcher does one of two things: nothing at all, or all of the
    following at once: it records a message that is not empty and differs
    from the last one of its render, raises the error flag, sets both
    in-flight flags, adds one to the counter and sends exactly one fix
    request, whose instruction is made from that message and which carries
    the artifact and the transcript of its render. *)
Theorem checkForErrors_outcome (r : Render) (preview : Preview) (s : State) :
  checkForErrors r preview s = (s, [])
  \/ exists message,
       message <> [] /\ message <> lastError r
       /\ checkForErrors r preview s =
          (setMessages
             (fun _ => messages r ++ [mkMessage user (autoFixPrompt message)])
             (setIsGenerating true
                (setAutoFixAttempts (fun prev => prev + 1)
                   (setIsAutoFixing true
                      (setHasError true (setLastError message s))))),
           [Fetch (mkRequest (autoFixPrompt message)
                     (messages r ++ [mkMessage user (autoFixPrompt message)])
                     (Some (generatedCode r))) (inFixCode r)]).
Proof. exact (checkForErrors_cases r preview s). Qed.

End Outcomes.

(* ================================================================== *)
(** * The instruction of an automatic fix and the mode of a request *)
(* ================================================================== *)

Section Instructions.

Import Page.

Lemma takeWhile_all (p : N -> bool) (s : jsstring) :
  Forall (fun c => p c = true) (takeWhile p s).
Proof.
  induction s as [|c r IH]; simpl; [constructor|].
  destruct (p c) eqn:E; constructor; assumption.
Qed.

Lemma takeWhile_app_stop (p : N -> bool) (v : jsstring) (x : N) (t : jsstring) :
  Forall (fun c => p c = true) v -> p x = false ->
  takeWhile p (v ++ x :: t) = v /\ dropWhile p (v ++ x :: t) = x :: t.
Proof.
  intros Hv Hx. induction Hv as [|c v Hc _ [IH1 IH2]]; simpl.
  - now rewrite Hx.
  - rewrite Hc. now rewrite IH1, IH2.
Qed.

(** What the two expressions capture. *)
Lemma quotedAt_quotable (s m : jsstring) : quotedAt s = Some m -> isQuotable m.
Proof.
  unfold quotedAt. destruct s as [|q r]; [discriminate|].
  destruct (isQuote q); [|discriminate].
  pose proof (takeWhile_all (fun c => negb (isQuote c)) r) as A.
  destruct (takeWhile (fun c => negb (isQuote c)) r) as [|c run] eqn:E;
    [discriminate|].
  destruct (dropWhile (fun c => negb (isQuote c)) r); [discriminate|].
  intros H. injection H as <-. split; [discriminate|].
  eapply Forall_impl; [|exact A]. intros a Ha. now apply negb_true_iff.
Qed.

Lemma cannotFindModule_quotable (s m : jsstring) :
  search cannotFindModuleAt s = Some m -> isQuotable m.
Proof.
  intros H. apply search_found in H. destruct H as [a [t [_ Ht]]].
  unfold cannotFindModuleAt in Ht.
  destruct (startsWith t (u "Cannot find module ")); [|discriminate].
  now apply quotedAt_quotable in Ht.
Qed.

Lemma notDefined_word (s v : jsstring) :
  search notDefinedAt s = Some v -> isWord v.
Proof.
  intros H. apply search_found in H. destruct H as [a [t [_ Ht]]].
  unfold notDefinedAt in Ht.
  pose proof (takeWhile_all isWordChar t) as A.
  destruct (takeWhile isWordChar t) as [|c w] eqn:E; [discriminate|].
  destruct (startsWith _ _); [|discriminate].
  injection Ht as <-. split; [discriminate | exact A].
Qed.

Lemma search_head (m : jsstring -> option jsstring) (s g : jsstring) :
  m s = Some g -> search m s = Some g.
Proof. intros H. destruct s; simpl; now rewrite H. Qed.

Lemma search_quotedAt_skip (p s : jsstring) :
  Forall (fun c => isQuote c = false) p ->
  search quotedAt (p ++ s) = search quotedAt s.
Proof.
  induction 1 as [|c p Hc _ IH]; [reflexivity|].
  cbn [app search]. unfold quotedAt at 1. now rewrite Hc.
Qed.

(** The quoted name is found again in the message made from it. *)
Lemma quoted_in_message (m : jsstring) :
  isQuotable m ->
  search quotedAt (u "Cannot find module '" ++ m ++ u "'") = Some m.
Proof.
  intros [Hne Hq].
  change (u "Cannot find module '" ++ m ++ u "'")
    with (u "Cannot find module " ++ SQUOTE :: m ++ [SQUOTE]).
  rewrite search_quotedAt_skip by (repeat constructor).
  apply search_head. unfold quotedAt. change (isQuote SQUOTE) with true.
  cbv iota.
  destruct (takeWhile_app_stop (fun c => negb (isQuote c)) m SQUOTE []) as [T D].
  - eapply Forall_impl; [|exact Hq]. intros a Ha. cbv beta. now rewrite Ha.
  - reflexivity.
  - rewrite T, D. destruct m; [congruence | reflexivity].
Qed.

Lemma message_has_signature (m : jsstring) :
  includes (u "Cannot find module '" ++ m ++ u "'") (u "Cannot find module")
  = true.
Proof.
  apply includes_iff. exists [], (u " '" ++ m ++ u "'"). reflexivity.
Qed.

(** A word followed by a text: an occurrence of a pattern that has a
    character which is not a word character lies, from that character on,
    in the text. *)
Lemma includes_after_word (v t p1 p2 : jsstring) (x : N) :
  Forall (fun c => isWordChar c = true) v -> isWordChar x = false ->
  includes (v ++ t) (p1 ++ x :: p2) = true -> includes t (x :: p2) = true.
Proof.
  intros Hv Hx H. apply includes_iff in H. destruct H as [a [b E]].
  rewrite <- app_assoc, app_assoc in E. cbn [app] in E.
  apply app_eq_app in E. destruct E as [l [[E1 E2] | [E1 E2]]].
  - destruct l as [|y l].
    + apply includes_iff. exists [], b. simpl in *. now rewrite <- E2.
    + injection E2 as <- _. exfalso.
      rewrite E1 in Hv. apply Forall_app in Hv. destruct Hv as [_ Hv].
      inversion Hv; congruence.
  - apply includes_iff. exists l, b. exact E2.
Qed.

Lemma undefined_message_signatures (v : jsstring) :
  isWord v ->
  includes (v ++ u " is not defined") (u "Cannot find module") = false
  /\ includes (v ++ u " is not defined") (u "Module not found") = false
  /\ includes (v ++ u " is not defined") (u "is not defined") = true
  /\ search notDefinedAt (v ++ u " is not defined") = Some v.
Proof.
  intros [Hne Hv]. repeat split.
  - destruct (includes _ (u "Cannot find module")) eqn:E; [|reflexivity].
    apply (includes_after_word v _ (u "Cannot") (u "find module") 32 Hv eq_refl)
      in E. discriminate.
  - destruct (includes _ (u "Module not found")) eqn:E; [|reflexivity].
    apply (includes_after_word v _ (u "Module") (u "not found") 32 Hv eq_refl)
      in E. discriminate.
  - apply includes_iff. exists (v ++ u " "), []. now rewrite <- app_assoc.
  - apply search_head. unfold notDefinedAt.
    destruct (takeWhile_app_stop isWordChar v 32 (u "is not defined") Hv eq_refl)
      as [T D].
    change (u " is not defined") with (32%N :: u "is not defined").
    rewrite T, D. destruct v; [congruence | reflexivity].
Qed.

(** X7. The instruction of an automatic fix names what the watcher
    extracted. When the watcher captures a module name from the preview,
    the fix request asks to repair the import of exactly that module; when
    it captures an identifier that is not defined (and the preview has no
    missing-module phrase), the fix request asks to import or define exactly
    that identifier. *)
Theorem instruction_names_the_culprit (bodyText : jsstring)
    (errorElements : list jsstring) :
  (forall m,
     search cannotFindModuleAt bodyText = Some m ->
     autoFixPrompt (extractError bodyText errorElements)
     = u "Fix the import error for module " ++ [DQUOTE] ++ m ++ [DQUOTE]
         ++ u ". If this is an external library, remove it and implement the functionality using only React, TypeScript, and Tailwind CSS. If it's a typo, correct it.")
  /\ (forall v,
        includes bodyText (u "Cannot find module") = false ->
        includes bodyText (u "Module not found") = false ->
        search notDefinedAt bodyText = Some v ->
        autoFixPrompt (extractError bodyText errorElements)
        = u "Fix the error: " ++ [DQUOTE] ++ v ++ u " is not defined"
            ++ [DQUOTE]
            ++ u ". Make sure to properly import or define this variable/function.").
Proof.
  split.
  - intros m Hm. unfold extractError.
    rewrite (cannotFindModule_signature _ _ Hm), Hm. cbn [orb].
    unfold autoFixPrompt.
    rewrite message_has_signature. cbn [orb].
    now rewrite (quoted_in_message m (cannotFindModule_quotable _ _ Hm)).
  - intros v H1 H2 Hv. unfold extractError.
    rewrite H1, H2, (notDefined_signature _ _ Hv), Hv. cbn [orb].
    destruct (undefined_message_signatures v (notDefined_word _ _ Hv))
      as [S1 [S2 [S3 S4]]].
    unfold autoFixPrompt. rewrite S1, S2, S3, S4. reflexivity.
Qed.

Lemma instruction_names_the_culprit_witness :
  let body := u "Uncaught Error: Cannot find module 'left-pad' (at App.tsx)" in
  search cannotFindModuleAt body = Some (u "left-pad")
  /\ autoFixPrompt (extractError body [])
     = u "Fix the import error for module " ++ [DQUOTE] ++ u "left-pad"
         ++ [DQUOTE]
         ++ u ". If this is an external library, remove it and implement the functionality using only React, TypeScript, and Tailwind CSS. If it's a typo, correct it.".
Proof.
  split; [reflexivity|].
  apply (proj1 (instruction_names_the_culprit _ []) (u "left-pad")).
  reflexivity.
Defined.

(** X8. How the endpoint reads a request. The conversation always has two
    messages, the system instruction and one user message. A request from
    [createApp] is always served as an initial generation, with the prompt
    as it is. A request from [fixCode] is served as a fix, with the artifact
    and the instruction put together in the user message, exactly when the
    artifact of the render the function belongs to is not empty; with an
    empty artifact it is served as an initial generation of the
    instruction. *)
Theorem request_mode :
  (forall json,
     map role (Post.conversationMessages json) = [system; user])
  /\ (forall r s req k,
        In (Fetch req k) (snd (createApp r s)) ->
        Post.conversationMessages req
        = [mkMessage system Post.systemPrompt; mkMessage user (prompt r)])
  /\ (forall r custom s req k,
        In (Fetch req k) (snd (fixCode r custom s)) ->
        Post.conversationMessages req
        = if truthy (generatedCode r) then
            [mkMessage system Post.fixPrompt;
             mkMessage user
               (u "Current code:" ++ [LF; LF] ++ generatedCode r ++ [LF; LF]
                ++ u "User request: " ++ fixRequestOf r custom)]
          else
            [mkMessage system Post.systemPrompt;
             mkMessage user (fixRequestOf r custom)]).
Proof.
  split; [|split].
  - intros json. unfold Post.conversationMessages.
    destruct (Post.isFixRequest json); reflexivity.
  - intros r s req k [H | []]. injection H as <- _. reflexivity.
  - intros r custom s req k. unfold fixCode.
    destruct (negb (truthy (trim (fixRequestOf r custom)))); [intros []|].
    intros [H | []]. injection H as <- _.
    unfold Post.conversationMessages, Post.isFixRequest.
    cbn [reqMessages reqCurrentCode reqPrompt].
    destruct (messages r); cbn [app]; destruct (truthy (generatedCode r));
      reflexivity.
Qed.

Lemma request_mode_witness :
  let s := setFixPrompt (u "make it blue") initial in
  In (Fetch (mkRequest (u "make it blue")
               [mkMessage user (u "make it blue")] (Some []))
        (inFixCode s)) (snd (fixCode s None s))
  /\ Post.conversationMessages
       (mkRequest (u "make it blue") [mkMessage user (u "make it blue")]
          (Some []))
     = [mkMessage system Post.systemPrompt; mkMessage user (u "make it blue")].
Proof.
  assert (In (Fetch (mkRequest (u "make it blue")
                       [mkMessage user (u "make it blue")] (Some []))
                (inFixCode (setFixPrompt (u "make it blue") initial)))
             (snd (fixCode (setFixPrompt (u "make it blue") initial) None
                     (setFixPrompt (u "make it blue") initial)))) as H
      by (left; reflexivity).
  split; [exact H|].
  exact (proj2 (proj2 request_mode) _ _ _ _ _ H).
Defined.

End Instructions.

(* ================================================================== *)
(** * UTF-8: what is encoded is decoded back *)
(* ================================================================== *)

(** Case analysis on the comparisons of a goal, the impossible cases
    closed by arithmetic. *)
Ltac compare_cases :=
  repeat match goal with
         | |- context [(?a <=? ?b)%N] =>
             destruct (N.leb_spec a b); try lia
         | |- context [(?a <? ?b)%N] =>
             destruct (N.ltb_spec a b); try lia
         | |- context [(?a =? ?b)%N] =>
             destruct (N.eqb_spec a b); try lia
         end.

Section Utf8.

Local Open Scope N_scope.

Import TextDecoder.

(** ** Bits as arithmetic *)

Lemma land_shiftl_low (x y n : N) : y < 2 ^ n -> N.land (N.shiftl x n) y = 0.
Proof.
  intros Hy. apply N.bits_inj_0. intros i. rewrite N.land_spec.
  destruct (N.lt_ge_cases i n) as [L|L].
  - now rewrite N.shiftl_spec_low.
  - rewrite andb_comm.
    destruct (N.eq_dec y 0) as [->|Hy0]; [now rewrite N.bits_0|].
    rewrite (N.bits_above_log2 y i); [reflexivity|].
    apply N.lt_le_trans with n; [|exact L].
    apply N.log2_lt_pow2; [lia | exact Hy].
Qed.

Lemma lor_shiftl_low (x y n : N) :
  y < 2 ^ n -> N.lor (N.shiftl x n) y = x * 2 ^ n + y.
Proof.
  intros Hy. pose proof (land_shiftl_low x y n Hy) as H.
  rewrite <- N.lxor_lor by exact H.
  rewrite <- N.add_nocarry_lxor by exact H.
  now rewrite N.shiftl_mul_pow2.
Qed.

Lemma land_low (x y n : N) : y < 2 ^ n -> N.land (x * 2 ^ n + y) (N.ones n) = y.
Proof.
  intros Hy. rewrite N.land_ones.
  rewrite N.add_comm, N.Div0.mod_add. now apply N.mod_small.
Qed.

Lemma lor_128 (y : N) : y < 64 -> N.lor 128 y = 128 + y.
Proof.
  intros Hy. change 128 with (N.shiftl 2 6) at 1.
  rewrite lor_shiftl_low by exact Hy. reflexivity.
Qed.

Lemma lor_shiftl_6 (c m : N) : m < 64 -> N.lor (N.shiftl c 6) m = c * 64 + m.
Proof. intros H. now rewrite lor_shiftl_low. Qed.

Lemma land_lead2 (a : N) : a < 32 -> N.land (192 + a) 31 = a.
Proof. intros H. exact (land_low 6 a 5 H). Qed.

Lemma land_lead3 (a : N) : a < 16 -> N.land (224 + a) 15 = a.
Proof. intros H. exact (land_low 14 a 4 H). Qed.

Lemma land_lead4 (a : N) : a < 8 -> N.land (240 + a) 7 = a.
Proof. intros H. exact (land_low 30 a 3 H). Qed.

Lemma land_cont (m : N) : m < 64 -> N.land (128 + m) 63 = m.
Proof. intros H. exact (land_low 2 m 6 H). Qed.

Lemma land_63 (x : N) : N.land x 63 = x mod 64.
Proof. exact (N.land_ones x 6). Qed.

(** ** The encoder, by digits in base 64 *)

Lemma utf8_1 (cp : N) : cp <= 127 -> utf8 cp = [cp].
Proof. intros H. unfold utf8. now rewrite (proj2 (N.leb_le _ _) H). Qed.

Lemma utf8_2 (cp : N) :
  128 <= cp <= 2047 ->
  exists a b, cp = a * 64 + b /\ 2 <= a < 32 /\ b < 64
              /\ utf8 cp = [192 + a; 128 + b].
Proof.
  intros H. exists (cp / 64), (cp mod 64).
  pose proof (N.div_mod cp 64 ltac:(lia)) as D.
  pose proof (N.mod_lt cp 64 ltac:(lia)) as M.
  unfold utf8. rewrite (proj2 (N.leb_gt cp 127)) by lia.
  rewrite (proj2 (N.leb_le cp 2047)) by lia.
  cbn [continuation].
  change (6 * N.of_nat 0) with 0. change (6 * N.of_nat 1) with 6.
  change (6 * N.of_nat 2) with 12. change (6 * N.of_nat 3) with 18.
  rewrite N.shiftr_0_r, N.shiftr_div_pow2, land_63, lor_128 by exact M.
  change (2 ^ 6) with 64.
  set (a := cp / 64) in *. set (b := cp mod 64) in *. clearbody a b.
  repeat split; try lia. f_equal. lia.
Qed.

Lemma utf8_3 (cp : N) :
  2048 <= cp <= 65535 ->
  exists a m b, cp = (a * 64 + m) * 64 + b /\ a < 16 /\ m < 64 /\ b < 64
                /\ utf8 cp = [224 + a; 128 + m; 128 + b].
Proof.
  intros H. exists (cp / 4096), ((cp / 64) mod 64), (cp mod 64).
  pose proof (N.div_mod cp 64 ltac:(lia)) as D.
  pose proof (N.mod_lt cp 64 ltac:(lia)) as M.
  pose proof (N.div_mod (cp / 64) 64 ltac:(lia)) as D2.
  pose proof (N.mod_lt (cp / 64) 64 ltac:(lia)) as M2.
  assert (cp / 4096 = cp / 64 / 64) as E
      by (rewrite N.Div0.div_div; reflexivity).
  unfold utf8. rewrite (proj2 (N.leb_gt cp 127)) by lia.
  rewrite (proj2 (N.leb_gt cp 2047)) by lia.
  rewrite (proj2 (N.leb_le cp 65535)) by lia.
  cbn [continuation].
  change (6 * N.of_nat 0) with 0. change (6 * N.of_nat 1) with 6.
  change (6 * N.of_nat 2) with 12. change (6 * N.of_nat 3) with 18.
  rewrite N.shiftr_0_r, !N.shiftr_div_pow2, !land_63.
  change (2 ^ 6) with 64. change (2 ^ 12) with 4096. rewrite E.
  rewrite !lor_128 by assumption.
  set (q := cp / 64) in *. set (b := cp mod 64) in *.
  set (a := q / 64) in *. set (m := q mod 64) in *. clearbody a m b q.
  repeat split; try lia. f_equal. lia.
Qed.

Lemma utf8_4 (cp : N) :
  65536 <= cp <= 1114111 ->
  exists a m1 m2 b,
    cp = ((a * 64 + m1) * 64 + m2) * 64 + b
    /\ a <= 4 /\ m1 < 64 /\ m2 < 64 /\ b < 64
    /\ utf8 cp = [240 + a; 128 + m1; 128 + m2; 128 + b].
Proof.
  intros H.
  exists (cp / 262144), ((cp / 4096) mod 64), ((cp / 64) mod 64), (cp mod 64).
  pose proof (N.div_mod cp 64 ltac:(lia)) as D.
  pose proof (N.mod_lt cp 64 ltac:(lia)) as M.
  pose proof (N.div_mod (cp / 64) 64 ltac:(lia)) as D2.
  pose proof (N.mod_lt (cp / 64) 64 ltac:(lia)) as M2.
  pose proof (N.div_mod (cp / 64 / 64) 64 ltac:(lia)) as D3.
  pose proof (N.mod_lt (cp / 64 / 64) 64 ltac:(lia)) as M3.
  assert (cp / 4096 = cp / 64 / 64) as E
      by (rewrite N.Div0.div_div; reflexivity).
  assert (cp / 262144 = cp / 64 / 64 / 64) as E2
      by (rewrite !N.Div0.div_div; reflexivity).
  unfold utf8. rewrite (proj2 (N.leb_gt cp 127)) by lia.
  rewrite (proj2 (N.leb_gt cp 2047)) by lia.
  rewrite (proj2 (N.leb_gt cp 65535)) by lia.
  cbn [continuation].
  change (6 * N.of_nat 0) with 0. change (6 * N.of_nat 1) with 6.
  change (6 * N.of_nat 2) with 12. change (6 * N.of_nat 3) with 18.
  rewrite N.shiftr_0_r, !N.shiftr_div_pow2, !land_63.
  change (2 ^ 6) with 64. change (2 ^ 12) with 4096.
  change (2 ^ 18) with 262144. rewrite E, E2.
  rewrite !lor_128 by assumption.
  set (q := cp / 64) in *. set (b := cp mod 64) in *.
  set (q2 := q / 64) in *. set (m2 := q mod 64) in *.
  set (a := q2 / 64) in *. set (m1 := q2 mod 64) in *.
  clearbody a m1 m2 b q q2.
  repeat split; try lia. f_equal. lia.
Qed.

(** ** The decoder on the bytes of one scalar value *)

Lemma handler_ascii (bom : bool) (b : N) :
  b <= 127 ->
  handler (mkState 0 0 0 128 191 bom) b = (mkState 0 0 0 128 191 bom, [b]).
Proof.
  intros H. unfold handler, leadByte. cbn [bytesNeeded].
  change (0 =? 0) with true. cbv iota. compare_cases. reflexivity.
Qed.

Lemma handler_lead2 (bom : bool) (a : N) :
  2 <= a < 32 ->
  handler (mkState 0 0 0 128 191 bom) (192 + a)
  = (mkState a 0 1 128 191 bom, []).
Proof.
  intros H. unfold handler, leadByte. cbn [bytesNeeded bomSeen].
  change (0 =? 0) with true. cbv iota. compare_cases; cbn [andb].
  now rewrite land_lead2 by lia.
Qed.

Lemma handler_lead3 (bom : bool) (a : N) :
  a < 16 ->
  handler (mkState 0 0 0 128 191 bom) (224 + a)
  = (mkState a 0 2 (if a =? 0 then 160 else 128)
       (if a =? 13 then 159 else 191) bom, []).
Proof.
  intros H. unfold handler, leadByte. cbn [bytesNeeded bomSeen].
  change (0 =? 0) with true. cbv iota.
  compare_cases; cbn [andb]; rewrite land_lead3 by lia; reflexivity.
Qed.

Lemma handler_lead4 (bom : bool) (a : N) :
  a <= 4 ->
  handler (mkState 0 0 0 128 191 bom) (240 + a)
  = (mkState a 0 3 (if a =? 0 then 144 else 128)
       (if a =? 4 then 143 else 191) bom, []).
Proof.
  intros H. unfold handler, leadByte. cbn [bytesNeeded bomSeen].
  change (0 =? 0) with true. cbv iota.
  compare_cases; cbn [andb]; rewrite land_lead4 by lia; reflexivity.
Qed.

(** A continuation byte in range, more to come. *)
Lemma handler_continue (c seen needed lower upper : N) (bom : bool) (m : N) :
  needed <> 0 -> m < 64 -> lower <= 128 + m <= upper -> seen + 1 <> needed ->
  handler (mkState c seen needed lower upper bom) (128 + m)
  = (mkState (c * 64 + m) (seen + 1) needed 128 191 bom, []).
Proof.
  intros Hn Hm Hr Hs. unfold handler.
  cbn [bytesNeeded lowerBoundary upperBoundary codePoint bytesSeen bomSeen].
  rewrite land_cont, lor_shiftl_6 by exact Hm.
  compare_cases; cbn [orb]. reflexivity.
Qed.

(** The last continuation byte. *)
Lemma handler_complete (c seen needed lower upper : N) (bom : bool) (m : N) :
  needed <> 0 -> m < 64 -> lower <= 128 + m <= upper -> seen + 1 = needed ->
  handler (mkState c seen needed lower upper bom) (128 + m)
  = (mkState 0 0 0 128 191 bom, [c * 64 + m]).
Proof.
  intros Hn Hm Hr Hs. unfold handler, reset.
  cbn [bytesNeeded lowerBoundary upperBoundary codePoint bytesSeen bomSeen].
  rewrite land_cont, lor_shiftl_6 by exact Hm.
  compare_cases; cbn [orb]. reflexivity.
Qed.

(** The bytes of a scalar value are decoded to it, and the decoder is
    left between two characters. *)
Lemma run_utf8 (cp : N) (rest : list N) (bom : bool) :
  isScalar cp ->
  run (mkState 0 0 0 128 191 bom) (utf8 cp ++ rest)
  = let (st, out) := run (mkState 0 0 0 128 191 bom) rest in (st, cp :: out).
Proof.
  intros Hs. unfold isScalar in Hs.
  destruct (N.le_gt_cases cp 127) as [H1|H1].
  { rewrite utf8_1 by exact H1. cbn [app run].
    rewrite handler_ascii by exact H1.
    destruct (run _ rest). reflexivity. }
  destruct (N.le_gt_cases cp 2047) as [H2|H2].
  { destruct (utf8_2 cp ltac:(lia)) as [a [b [E [Ha [Hb ->]]]]].
    cbn [app run]. rewrite handler_lead2 by exact Ha.
    rewrite handler_complete by lia.
    destruct (run _ rest). cbn [app]. now rewrite E. }
  destruct (N.le_gt_cases cp 65535) as [H3|H3].
  { destruct (utf8_3 cp ltac:(lia)) as [a [m [b [E [Ha [Hm [Hb ->]]]]]]].
    cbn [app run]. rewrite handler_lead3 by exact Ha.
    rewrite handler_continue; [|lia|exact Hm| |lia].
    - rewrite handler_complete by lia.
      destruct (run _ rest). cbn [app]. now rewrite E.
    - compare_cases. }
  destruct (utf8_4 cp ltac:(lia)) as [a [m1 [m2 [b [E [Ha [Hm1 [Hm2 [Hb ->]]]]]]]]].
  cbn [app run]. rewrite handler_lead4 by exact Ha.
  rewrite handler_continue; [|lia|exact Hm1| |lia].
  - rewrite handler_continue by lia. rewrite handler_complete by lia.
    destruct (run _ rest). cbn [app]. now rewrite E.
  - compare_cases.
Qed.

Lemma utf8_bytes (cp : N) :
  cp < 1114112 -> Forall (fun b => b <= 255) (utf8 cp).
Proof.
  intros H.
  destruct (N.le_gt_cases cp 127) as [H1|H1].
  { rewrite utf8_1 by exact H1. repeat constructor. lia. }
  destruct (N.le_gt_cases cp 2047) as [H2|H2].
  { destruct (utf8_2 cp ltac:(lia)) as [a [b [E [Ha [Hb ->]]]]].
    repeat constructor; lia. }
  destruct (N.le_gt_cases cp 65535) as [H3|H3].
  { destruct (utf8_3 cp ltac:(lia)) as [a [m [b [E [Ha [Hm [Hb ->]]]]]]].
    repeat constructor; lia. }
  destruct (utf8_4 cp ltac:(lia)) as [a [m1 [m2 [b [E [Ha [Hm1 [Hm2 [Hb ->]]]]]]]]].
  repeat constructor; lia.
Qed.

End Utf8.

Section Utf8Strings.

Local Open Scope N_scope.

Import TextDecoder.

(** Induction on strings that are read with one code unit of lookahead. *)
Lemma pair_induction (P : jsstring -> Prop) :
  P [] -> (forall c, P [c]) ->
  (forall c d r, P r -> P (d :: r) -> P (c :: d :: r)) ->
  forall s, P s.
Proof.
  intros H0 H1 H2 s.
  assert (P s /\ forall c, P (c :: s)) as [H _]; [|exact H].
  induction s as [|d s [IH1 IH2]]; [now split|].
  split; [apply IH2|]. intros c. apply H2; [exact IH1 | apply IH2].
Qed.

Lemma run_scalars (cps : list N) (bom : bool) :
  Forall isScalar cps ->
  run (mkState 0 0 0 128 191 bom) (flat_map utf8 cps)
  = (mkState 0 0 0 128 191 bom, cps).
Proof.
  induction 1 as [|cp cps Hcp _ IH]; [reflexivity|].
  cbn [flat_map]. rewrite run_utf8 by exact Hcp. now rewrite IH.
Qed.

Lemma surrogate_cases (c : N) :
  (isHighSurrogate c = true /\ 55296 <= c <= 56319)
  \/ (isHighSurrogate c = false /\ isLowSurrogate c = true
      /\ 56320 <= c <= 57343)
  \/ (isHighSurrogate c = false /\ isLowSurrogate c = false
      /\ (c < 55296 \/ 57344 <= c)).
Proof.
  unfold isHighSurrogate, isLowSurrogate.
  compare_cases; cbn [andb]; auto 10.
Qed.

Lemma scalarValues_pair (c d : N) (r : jsstring) :
  scalarValues (c :: d :: r) =
  if isHighSurrogate c then
    if isLowSurrogate d
    then 65536 + (c - 55296) * 1024 + (d - 56320) :: scalarValues r
    else 65533 :: scalarValues (d :: r)
  else if isLowSurrogate c then 65533 :: scalarValues (d :: r)
  else c :: scalarValues (d :: r).
Proof. reflexivity. Qed.

Lemma isWellFormed_pair (c d : N) (r : jsstring) :
  isWellFormed (c :: d :: r) =
  if isHighSurrogate c then isLowSurrogate d && isWellFormed r
  else negb (isLowSurrogate c) && isWellFormed (d :: r).
Proof. reflexivity. Qed.

Lemma scalarValues_scalar (s : jsstring) :
  isString s -> Forall isScalar (scalarValues s).
Proof.
  unfold isString, isScalar.
  induction s as [| c | c d r IHr IHdr] using pair_induction; intros Hs.
  - constructor.
  - inversion Hs as [|? ? Hc _]; subst. cbn [scalarValues].
    destruct (surrogate_cases c) as [[-> ?] | [[-> [-> ?]] | [-> [-> ?]]]];
      (constructor; [lia | constructor]).
  - inversion Hs as [|? ? Hc Hs']; subst.
    inversion Hs' as [|? ? Hd Hr]; subst.
    rewrite scalarValues_pair.
    destruct (surrogate_cases c) as [[-> ?] | [[-> [-> ?]] | [-> [-> ?]]]].
    + destruct (surrogate_cases d) as [[Hh ?] | [[Hh [Hl ?]] | [Hh [Hl ?]]]].
      * assert (isLowSurrogate d = false) as ->
            by (unfold isLowSurrogate; compare_cases; reflexivity).
        constructor; [lia | now apply IHdr].
      * rewrite Hl. constructor; [lia | now apply IHr].
      * rewrite Hl. constructor; [lia | now apply IHdr].
    + constructor; [lia | now apply IHdr].
    + constructor; [lia | now apply IHdr].
Qed.

Lemma codeUnits_pair (c d : N) :
  55296 <= c <= 56319 -> 56320 <= d <= 57343 ->
  codeUnits (65536 + (c - 55296) * 1024 + (d - 56320)) = [c; d].
Proof.
  intros Hc Hd. unfold codeUnits.
  rewrite (proj2 (N.ltb_ge _ _)) by lia.
  replace (65536 + (c - 55296) * 1024 + (d - 56320) - 65536)
    with ((c - 55296) * 2 ^ 10 + (d - 56320)) by lia.
  change 1023 with (N.ones 10).
  rewrite land_low by (change (2 ^ 10) with 1024; lia).
  rewrite N.shiftr_div_pow2, N.div_add_l by (change (2 ^ 10) with 1024; lia).
  rewrite N.div_small by (change (2 ^ 10) with 1024; lia).
  f_equal; [lia | f_equal; lia].
Qed.

Lemma codeUnits_bmp (c : N) : c < 65536 -> codeUnits c = [c].
Proof. intros H. unfold codeUnits. now rewrite (proj2 (N.ltb_lt _ _) H). Qed.

(** A well-formed string is the code units of its scalar values. *)
Lemma codeUnits_scalarValues (s : jsstring) :
  isString s -> isWellFormed s = true ->
  flat_map codeUnits (scalarValues s) = s.
Proof.
  unfold isString.
  induction s as [| c | c d r IHr IHdr] using pair_induction; intros Hs Hw.
  - reflexivity.
  - inversion Hs as [|? ? Hc _]; subst.
    cbn [scalarValues isWellFormed] in *.
    destruct (isHighSurrogate c); [discriminate|].
    destruct (isLowSurrogate c); [discriminate|].
    cbn [flat_map]. now rewrite codeUnits_bmp.
  - inversion Hs as [|? ? Hc Hs']; subst.
    inversion Hs' as [|? ? Hd Hr]; subst.
    rewrite scalarValues_pair. rewrite isWellFormed_pair in Hw.
    destruct (surrogate_cases c) as [[Hh ?] | [[Hh [Hl ?]] | [Hh [Hl ?]]]];
      rewrite Hh in *.
    + apply andb_true_iff in Hw. destruct Hw as [Hl Hw]. rewrite Hl.
      cbn [flat_map]. rewrite codeUnits_pair.
      * cbn [app]. now rewrite IHr.
      * lia.
      * unfold isLowSurrogate in Hl. apply andb_true_iff in Hl.
        destruct Hl as [L1 L2]. apply N.leb_le in L1, L2. lia.
    + rewrite Hl in *. discriminate.
    + rewrite Hl in *. cbn [negb andb] in Hw.
      cbn [flat_map]. rewrite codeUnits_bmp by exact Hc. cbn [app].
      now rewrite IHdr.
Qed.

Lemma serialize_seen (cps : list N) :
  serialize true cps = (true, flat_map codeUnits cps).
Proof.
  induction cps as [|cp cps IH]; [reflexivity|].
  cbn [serialize negb andb flat_map]. now rewrite IH.
Qed.

Lemma to_N_toByte (l : list N) :
  Forall (fun b => b <= 255) l -> map Byte.to_N (map toByte l) = l.
Proof.
  induction 1 as [|b l Hb _ IH]; [reflexivity|].
  cbn [map]. rewrite IH. f_equal. unfold toByte.
  destruct (Byte.of_N b) eqn:E.
  - now apply Byte.to_of_N.
  - apply Byte.of_N_None_iff in E. lia.
Qed.

Lemma scalars_bytes (cps : list N) :
  Forall isScalar cps -> Forall (fun b => b <= 255) (flat_map utf8 cps).
Proof.
  induction 1 as [|cp cps Hcp _ IH]; [constructor|].
  cbn [flat_map]. apply Forall_app. split; [|exact IH].
  apply utf8_bytes. unfold isScalar in Hcp. lia.
Qed.

Lemma decode_encode_string (s : jsstring) (bom : bool) :
  isString s -> isWellFormed s = true ->
  bom = true \/ (exists c r, s = c :: r /\ c <> BOM) ->
  decode (mkState 0 0 0 128 191 bom) (encode s)
  = (mkState 0 0 0 128 191 true, s).
Proof.
  intros Hs Hw Hb. unfold decode, encode.
  pose proof (scalarValues_scalar s Hs) as Hsc.
  rewrite to_N_toByte by (now apply scalars_bytes).
  rewrite run_scalars by exact Hsc. cbn [bomSeen].
  pose proof (codeUnits_scalarValues s Hs Hw) as Hcu.
  destruct Hb as [-> | [c [r [-> Hc]]]].
  - rewrite serialize_seen, Hcu. reflexivity.
  - destruct bom; [rewrite serialize_seen, Hcu; reflexivity|].
    destruct (scalarValues (c :: r)) as [|cp cps] eqn:E.
    + discriminate.
    + assert (cp <> BOM) as Hcp.
      { intros ->. cbn [flat_map] in Hcu.
        change (codeUnits BOM) with [BOM] in Hcu.
        injection Hcu as Hcu _. congruence. }
      cbn [serialize negb andb].
      rewrite (proj2 (N.eqb_neq _ _) Hcp). rewrite serialize_seen.
      cbn [flat_map] in Hcu. rewrite Hcu. reflexivity.
Qed.

(** X9. What [TextEncoder] writes, [TextDecoder] reads back: for a
    well-formed string (no surrogate outside a pair) that does not start
    with the byte order mark, or on a decoder that has decoded something
    already, decoding the encoded bytes gives the string, and the decoder is
    left with nothing pending. *)
Theorem decode_encode (s : jsstring) (bom : bool) :
  isString s -> isWellFormed s = true ->
  bom = true \/ (exists c r, s = c :: r /\ c <> BOM) ->
  decode (mkState 0 0 0 128 191 bom) (encode s)
  = (mkState 0 0 0 128 191 true, s).
Proof. exact (decode_encode_string s bom). Qed.

Lemma decode_encode_witness :
  let s := [104; 233; 8364; 55357; 56832] in
  isString s /\ isWellFormed s = true
  /\ decode new (encode s) = (mkState 0 0 0 128 191 true, s).
Proof.
  assert (isString [104; 233; 8364; 55357; 56832]) as Hs
      by (repeat constructor).
  split; [exact Hs|]. split; [reflexivity|].
  apply (decode_encode _ false Hs eq_refl).
  right. exists 104, [233; 8364; 55357; 56832]. split; [reflexivity|].
  discriminate.
Defined.

End Utf8Strings.

(* ================================================================== *)
(** * JSON text of a string: what is quoted is parsed back *)
(* ================================================================== *)

Section Quote.

Local Open Scope N_scope.

Lemma hexValue_hexDigit (d : N) : d < 16 -> JSON.hexValue (hexDigit d) = Some d.
Proof.
  intros H. unfold hexDigit, JSON.hexValue, JSON.isDigit.
  compare_cases; cbn [andb]; f_equal; lia.
Qed.

Lemma stringBody_cons (c : N) (r : jsstring) :
  32 <= c -> c <> 34 -> c <> 92 ->
  JSON.stringBody (c :: r) =
  match JSON.stringBody r with
  | Some (t, rest) => Some (c :: t, rest)
  | None => None
  end.
Proof.
  intros H1 H2 H3. cbn [JSON.stringBody].
  rewrite (proj2 (N.eqb_neq c 34) H2), (proj2 (N.ltb_ge c 32) H1),
    (proj2 (N.eqb_neq c 92) H3). reflexivity.
Qed.

Lemma stringBody_unicodeEscape (c : N) (r : jsstring) :
  c < 65536 ->
  JSON.stringBody (unicodeEscape c ++ r) =
  match JSON.stringBody r with
  | Some (t, rest) => Some (c :: t, rest)
  | None => None
  end.
Proof.
  intros H. unfold unicodeEscape. cbn [app].
  pose proof (N.div_mod c 16 ltac:(lia)) as D1.
  pose proof (N.mod_lt c 16 ltac:(lia)) as M1.
  pose proof (N.div_mod (c / 16) 16 ltac:(lia)) as D2.
  pose proof (N.mod_lt (c / 16) 16 ltac:(lia)) as M2.
  pose proof (N.div_mod (c / 16 / 16) 16 ltac:(lia)) as D3.
  pose proof (N.mod_lt (c / 16 / 16) 16 ltac:(lia)) as M3.
  assert (c / 256 = c / 16 / 16) as E2
      by (rewrite N.Div0.div_div; reflexivity).
  assert (c / 4096 = c / 16 / 16 / 16) as E3
      by (rewrite !N.Div0.div_div; reflexivity).
  rewrite E2, E3.
  set (q1 := c / 16) in *. set (d0 := c mod 16) in *.
  set (q2 := q1 / 16) in *. set (d1 := q1 mod 16) in *.
  set (d3 := q2 / 16) in *. set (d2 := q2 mod 16) in *.
  assert (d3 < 16) as M4 by (clearbody d3 d2 d1 d0 q1 q2; lia).
  assert (c = ((d3 * 16 + d2) * 16 + d1) * 16 + d0) as E
      by (clearbody d3 d2 d1 d0 q1 q2; lia).
  clearbody d3 d2 d1 d0.
  change (JSON.stringBody
            (92 :: 117 :: hexDigit d3 :: hexDigit d2 :: hexDigit d1
             :: hexDigit d0 :: r))
    with (match JSON.hexValue (hexDigit d3), JSON.hexValue (hexDigit d2),
                JSON.hexValue (hexDigit d1), JSON.hexValue (hexDigit d0) with
          | Some a, Some b, Some c', Some d =>
              match JSON.stringBody r with
              | Some (t, rest) =>
                  Some (((a * 16 + b) * 16 + c') * 16 + d :: t, rest)
              | None => None
              end
          | _, _, _, _ => None
          end).
  rewrite !hexValue_hexDigit by assumption. now rewrite <- E.
Qed.

Lemma quoteChars_pair (c d : N) (r : jsstring) :
  quoteChars (c :: d :: r) =
  if isHighSurrogate c then
    if isLowSurrogate d then c :: d :: quoteChars r
    else escapeUnit c true ++ quoteChars (d :: r)
  else escapeUnit c (isLowSurrogate c) ++ quoteChars (d :: r).
Proof. reflexivity. Qed.

(** One code unit, as the quoting writes it, is parsed back to it. *)
Lemma stringBody_escapeUnit (c : N) (lone : bool) (q : jsstring) :
  c < 65536 ->
  JSON.stringBody (escapeUnit c lone ++ q) =
  match JSON.stringBody q with
  | Some (t, rest) => Some (c :: t, rest)
  | None => None
  end.
Proof.
  intros H. unfold escapeUnit.
  destruct (N.eqb_spec c 8) as [->|?]; [reflexivity|].
  destruct (N.eqb_spec c 9) as [->|?]; [reflexivity|].
  destruct (N.eqb_spec c 10) as [->|?]; [reflexivity|].
  destruct (N.eqb_spec c 12) as [->|?]; [reflexivity|].
  destruct (N.eqb_spec c 13) as [->|?]; [reflexivity|].
  destruct (N.eqb_spec c 34) as [->|?]; [reflexivity|].
  destruct (N.eqb_spec c 92) as [->|?]; [reflexivity|].
  destruct (N.ltb_spec c 32); [now apply stringBody_unicodeEscape|].
  destruct lone; [now apply stringBody_unicodeEscape|].
  cbn [app]. now apply stringBody_cons.
Qed.

(** The quoted characters and the closing quote are parsed back to the
    string. *)
Lemma stringBody_quoteChars (t rest : jsstring) :
  isString t ->
  JSON.stringBody (quoteChars t ++ DQUOTE :: rest) = Some (t, rest).
Proof.
  unfold isString.
  induction t as [| c | c d r IHr IHdr] using pair_induction; intros Hs.
  - reflexivity.
  - inversion Hs as [|? ? Hc _]; subst. cbn [quoteChars].
    destruct (isHighSurrogate c).
    + rewrite stringBody_escapeUnit by exact Hc. reflexivity.
    + cbn [app]. rewrite app_nil_r, stringBody_escapeUnit by exact Hc.
      reflexivity.
  - inversion Hs as [|? ? Hc Hs']; subst.
    inversion Hs' as [|? ? Hd Hr]; subst.
    rewrite quoteChars_pair.
    destruct (surrogate_cases c) as [[Hh ?] | [[Hh _] | [Hh _]]]; rewrite Hh.
    + destruct (surrogate_cases d) as [[_ ?] | [[_ [Hl ?]] | [_ [Hl ?]]]].
      * assert (isLowSurrogate d = false) as ->
            by (unfold isLowSurrogate; compare_cases; reflexivity).
        rewrite <- app_assoc, stringBody_escapeUnit by exact Hc.
        now rewrite IHdr.
      * rewrite Hl. cbn [app].
        rewrite !stringBody_cons by lia. now rewrite IHr.
      * rewrite Hl. rewrite <- app_assoc, stringBody_escapeUnit by exact Hc.
        now rewrite IHdr.
    + rewrite <- app_assoc, stringBody_escapeUnit by exact Hc. now rewrite IHdr.
    + rewrite <- app_assoc, stringBody_escapeUnit by exact Hc. now rewrite IHdr.
Qed.

(** ** The lines of the endpoint *)

Lemma fragment_line (t : jsstring) :
  stringifyRecord (fragmentRecord t)
  = [123; 34] ++ u "choices" ++ [34; 58; 91; 123; 34] ++ u "text"
      ++ [34; 58; 34] ++ quoteChars t ++ DQUOTE :: [125; 93; 125].
Proof.
  unfold stringifyRecord, fragmentRecord, stringifyChoice, member, quote.
  cbn. rewrite <- !app_assoc. reflexivity.
Qed.

Lemma final_line (cleaned : jsstring) :
  stringifyRecord (finalRecord cleaned)
  = [123; 34] ++ u "choices" ++ [34; 58; 91; 123; 34] ++ u "text"
      ++ [34; 58; 34; 34; 44; 34] ++ u "cleanedCode" ++ [34; 58; 34]
      ++ quoteChars cleaned ++ DQUOTE :: [125; 93; 125].
Proof.
  unfold stringifyRecord, finalRecord, stringifyChoice, member, quote.
  cbn. rewrite <- !app_assoc. reflexivity.
Qed.

Lemma parse_fragment_line (t : jsstring) :
  isString t ->
  JSON.parse (stringifyRecord (fragmentRecord t))
  = Some (recordValueOf (fragmentRecord t)).
Proof.
  intros Ht. rewrite fragment_line. unfold JSON.parse.
  pose proof (stringBody_quoteChars t [125; 93; 125] Ht) as Q.
  remember (quoteChars t ++ DQUOTE :: [125; 93; 125]) as q eqn:Eq.
  set (line := [123; 34] ++ u "choices" ++ [34; 58; 91; 123; 34] ++ u "text"
                ++ [34; 58; 34] ++ q).
  assert (exists k : nat, Nat.add (Nat.mul 2 (List.length line)) 2
                          = Nat.add 7 k) as [k ->].
  { exists (Nat.sub (Nat.mul 2 (List.length line)) 5).
    assert (Nat.le 3 (List.length line)) by (subst line; simpl; lia).
    lia. }
  subst line.
  cbn. rewrite Q. reflexivity.
Qed.

Lemma parse_final_line (cleaned : jsstring) :
  isString cleaned ->
  JSON.parse (stringifyRecord (finalRecord cleaned))
  = Some (recordValueOf (finalRecord cleaned)).
Proof.
  intros Ht. rewrite final_line. unfold JSON.parse.
  pose proof (stringBody_quoteChars cleaned [125; 93; 125] Ht) as Q.
  remember (quoteChars cleaned ++ DQUOTE :: [125; 93; 125]) as q eqn:Eq.
  set (line := [123; 34] ++ u "choices" ++ [34; 58; 91; 123; 34] ++ u "text"
                ++ [34; 58; 34; 34; 44; 34] ++ u "cleanedCode" ++ [34; 58; 34]
                ++ q).
  assert (exists k : nat, Nat.add (Nat.mul 2 (List.length line)) 2
                          = Nat.add 9 k) as [k ->].
  { exists (Nat.sub (Nat.mul 2 (List.length line)) 7).
    assert (Nat.le 4 (List.length line)) by (subst line; simpl; lia).
    lia. }
  subst line.
  cbn. rewrite Q. reflexivity.
Qed.

(** X10. What [JSON.stringify] writes for a record of the endpoint,
    [JSON.parse] reads back: the line of a fragment record parses to an
    object with that very text, and the line of the final record to an
    object with an empty text and that very cleaned code, whatever the
    string holds (quotes, backslashes, control characters, surrogates
    outside a pair). *)
Theorem parse_stringify (t : jsstring) :
  isString t ->
  JSON.parse (stringifyRecord (fragmentRecord t))
  = Some (JSON.JObject
            [(u "choices",
              JSON.JArray [JSON.JObject [(u "text", JSON.JString t)]])])
  /\ JSON.parse (stringifyRecord (finalRecord t))
     = Some (JSON.JObject
               [(u "choices",
                 JSON.JArray
                   [JSON.JObject [(u "text", JSON.JString []);
                                  (u "cleanedCode", JSON.JString t)]])]).
Proof.
  intros Ht. split; [apply parse_fragment_line | apply parse_final_line];
    exact Ht.
Qed.

Lemma parse_stringify_witness :
  let t := [34; 92; 10; 1; 55357; 233] in
  isString t
  /\ JSON.parse (stringifyRecord (fragmentRecord t))
     = Some (JSON.JObject
               [(u "choices",
                 JSON.JArray [JSON.JObject [(u "text", JSON.JString t)]])]).
Proof.
  assert (isString [34; 92; 10; 1; 55357; 233]) as H by (repeat constructor).
  split; [exact H | exact (proj1 (parse_stringify _ H))].
Defined.

End Quote.

(* ================================================================== *)
(** * The response body, from the endpoint to the decoder of the page *)
(* ================================================================== *)

Section WireRoundTrip.

Local Open Scope N_scope.

Import Route Decoder.

(** ** The code units of a line *)

Lemma hexDigit_range (d : N) : d < 16 -> 48 <= hexDigit d < 128.
Proof. intros H. unfold hexDigit. compare_cases. Qed.

Lemma unicodeEscape_units (c : N) :
  c < 65536 -> Forall (fun x => 32 <= x < 128) (unicodeEscape c).
Proof.
  intros Hc. unfold unicodeEscape.
  assert (c / 4096 < 16) by (apply N.Div0.div_lt_upper_bound; lia).
  pose proof (N.mod_lt (c / 256) 16 ltac:(lia)).
  pose proof (N.mod_lt (c / 16) 16 ltac:(lia)).
  pose proof (N.mod_lt c 16 ltac:(lia)).
  pose proof (hexDigit_range (c / 4096) ltac:(assumption)).
  pose proof (hexDigit_range ((c / 256) mod 16) ltac:(assumption)).
  pose proof (hexDigit_range ((c / 16) mod 16) ltac:(assumption)).
  pose proof (hexDigit_range (c mod 16) ltac:(assumption)).
  repeat (constructor; [lia|]). constructor.
Qed.

Lemma escapeUnit_units (c : N) (lone : bool) :
  c < 65536 -> Forall (fun x => 32 <= x < 65536) (escapeUnit c lone).
Proof.
  intros Hc.
  assert (Forall (fun x => 32 <= x < 65536) (unicodeEscape c)) as Hu.
  { eapply Forall_impl; [|apply unicodeEscape_units; exact Hc].
    cbn beta. intros; lia. }
  unfold escapeUnit.
  repeat match goal with
         | |- context [if ?a =? ?b then _ else _] =>
             destruct (N.eqb_spec a b);
             [repeat (constructor; [lia|]); constructor|]
         end.
  destruct (N.ltb_spec c 32); [exact Hu|].
  destruct lone; [exact Hu|].
  constructor; [lia | constructor].
Qed.

Lemma quoteChars_units (t : jsstring) :
  isString t -> Forall (fun x => 32 <= x < 65536) (quoteChars t).
Proof.
  induction t as [|c|c d r IHr IHdr] using pair_induction; intros Ht.
  - constructor.
  - inversion Ht; subst. cbn [quoteChars].
    destruct (isHighSurrogate c); [now apply escapeUnit_units|].
    rewrite app_nil_r. now apply escapeUnit_units.
  - inversion Ht as [|? ? Hc Hdr]; subst.
    inversion Hdr as [|? ? Hd Hr]; subst.
    rewrite quoteChars_pair.
    destruct (isHighSurrogate c) eqn:Hh.
    + destruct (isLowSurrogate d) eqn:Hl.
      * constructor.
        { unfold isHighSurrogate in Hh. apply andb_true_iff in Hh.
          destruct Hh as [H1 H2]. apply N.leb_le in H1. lia. }
        constructor.
        { unfold isLowSurrogate in Hl. apply andb_true_iff in Hl.
          destruct Hl as [H1 H2]. apply N.leb_le in H1. lia. }
        now apply IHr.
      * apply Forall_app. split; [now apply escapeUnit_units|].
        now apply IHdr.
    + apply Forall_app. split; [now apply escapeUnit_units|].
      now apply IHdr.
Qed.

(** ** No surrogate is left outside a pair *)

Lemma isWellFormed_low (x : N) (rest : jsstring) :
  x < 55296 -> isWellFormed (x :: rest) = isWellFormed rest.
Proof.
  intros Hx. cbn [isWellFormed]. unfold isHighSurrogate, isLowSurrogate.
  destruct (N.leb_spec 55296 x); [lia|]. cbn [andb].
  destruct (N.leb_spec 56320 x); [lia|]. reflexivity.
Qed.

Lemma isWellFormed_low_prefix (a rest : jsstring) :
  Forall (fun x => x < 55296) a ->
  isWellFormed (a ++ rest) = isWellFormed rest.
Proof.
  induction 1 as [|x a Hx _ IH]; [reflexivity|].
  cbn [app]. now rewrite isWellFormed_low.
Qed.

Lemma isWellFormed_escapeUnit (c : N) (lone : bool) (rest : jsstring) :
  c < 65536 ->
  (lone = false -> isHighSurrogate c = false /\ isLowSurrogate c = false) ->
  isWellFormed (escapeUnit c lone ++ rest) = isWellFormed rest.
Proof.
  intros Hc Hlone.
  assert (isWellFormed (unicodeEscape c ++ rest) = isWellFormed rest) as Hu.
  { apply isWellFormed_low_prefix.
    eapply Forall_impl; [|apply unicodeEscape_units; exact Hc].
    cbn beta. intros; lia. }
  unfold escapeUnit.
  repeat match goal with
         | |- context [if ?a =? ?b then _ else _] =>
             destruct (N.eqb_spec a b);
             [apply isWellFormed_low_prefix;
              repeat (constructor; [lia|]); constructor|]
         end.
  destruct (N.ltb_spec c 32); [exact Hu|].
  destruct lone; [exact Hu|].
  destruct (Hlone eq_refl) as [Hh Hl].
  cbn [app isWellFormed]. now rewrite Hh, Hl.
Qed.

Lemma isWellFormed_quoteChars (t rest : jsstring) :
  isString t -> isWellFormed (quoteChars t ++ rest) = isWellFormed rest.
Proof.
  induction t as [|c|c d r IHr IHdr] using pair_induction; intros Ht.
  - reflexivity.
  - inversion Ht; subst. cbn [quoteChars].
    destruct (isHighSurrogate c) eqn:Hh.
    + apply isWellFormed_escapeUnit; [assumption | discriminate].
    + rewrite app_nil_r. apply isWellFormed_escapeUnit; [assumption|].
      intros ->. now split.
  - inversion Ht as [|? ? Hc Hdr]; subst.
    inversion Hdr as [|? ? Hd Hr]; subst.
    rewrite quoteChars_pair.
    destruct (isHighSurrogate c) eqn:Hh.
    + destruct (isLowSurrogate d) eqn:Hl.
      * cbn [app]. rewrite isWellFormed_pair, Hh, Hl. cbn [andb].
        now apply IHr.
      * rewrite <- app_assoc.
        rewrite isWellFormed_escapeUnit; [now apply IHdr | assumption|].
        discriminate.
    + rewrite <- app_assoc.
      rewrite isWellFormed_escapeUnit; [now apply IHdr | assumption|].
      intros ->. now split.
Qed.

(** ** The line of a record *)

(** A line made of printable ASCII around the quoted characters of a
    string. *)
Lemma quoted_line (pre post t : jsstring) :
  Forall (fun x => 32 <= x < 128) pre ->
  Forall (fun x => 32 <= x < 128) post ->
  isString t ->
  Forall (fun x => 32 <= x < 65536) (pre ++ quoteChars t ++ post)
  /\ forall rest,
       isWellFormed ((pre ++ quoteChars t ++ post) ++ rest)
       = isWellFormed rest.
Proof.
  intros Hpre Hpost Ht. split.
  - apply Forall_app. split.
    { eapply Forall_impl; [|exact Hpre]. cbn beta. intros; lia. }
    apply Forall_app. split; [now apply quoteChars_units|].
    eapply Forall_impl; [|exact Hpost]. cbn beta. intros; lia.
  - intros rest. rewrite <- !app_assoc.
    rewrite isWellFormed_low_prefix.
    2:{ eapply Forall_impl; [|exact Hpre]. cbn beta. intros; lia. }
    rewrite isWellFormed_quoteChars by exact Ht.
    apply isWellFormed_low_prefix.
    eapply Forall_impl; [|exact Hpost]. cbn beta. intros; lia.
Qed.

(** The line of an endpoint record starts with a brace, has no control
    character (so no line feed), and no surrogate outside a pair. *)
Lemma record_line (r : StreamRecord) :
  isEndpointRecord r ->
  (exists tail, stringifyRecord r = 123 :: tail)
  /\ Forall (fun x => 32 <= x < 65536) (stringifyRecord r)
  /\ (forall rest,
        isWellFormed (stringifyRecord r ++ rest) = isWellFormed rest)
  /\ JSON.parse (stringifyRecord r) = Some (recordValueOf r).
Proof.
  intros [t [Ht [-> | ->]]].
  - split; [rewrite fragment_line; eexists; reflexivity|].
    split; [|split]; [| |now apply parse_fragment_line].
    + rewrite fragment_line.
      apply (quoted_line ([123; 34] ++ u "choices" ++ [34; 58; 91; 123; 34]
                          ++ u "text" ++ [34; 58; 34])
                         (DQUOTE :: [125; 93; 125]) t); [| |exact Ht];
        repeat (constructor; [split; [discriminate | reflexivity]|]);
        constructor.
    + rewrite fragment_line.
      apply (quoted_line ([123; 34] ++ u "choices" ++ [34; 58; 91; 123; 34]
                          ++ u "text" ++ [34; 58; 34])
                         (DQUOTE :: [125; 93; 125]) t); [| |exact Ht];
        repeat (constructor; [split; [discriminate | reflexivity]|]);
        constructor.
  - split; [rewrite final_line; eexists; reflexivity|].
    split; [|split]; [| |now apply parse_final_line].
    + rewrite final_line.
      apply (quoted_line ([123; 34] ++ u "choices" ++ [34; 58; 91; 123; 34]
                          ++ u "text" ++ [34; 58; 34; 34; 44; 34]
                          ++ u "cleanedCode" ++ [34; 58; 34])
                         (DQUOTE :: [125; 93; 125]) t); [| |exact Ht];
        repeat (constructor; [split; [discriminate | reflexivity]|]);
        constructor.
    + rewrite final_line.
      apply (quoted_line ([123; 34] ++ u "choices" ++ [34; 58; 91; 123; 34]
                          ++ u "text" ++ [34; 58; 34; 34; 44; 34]
                          ++ u "cleanedCode" ++ [34; 58; 34])
                         (DQUOTE :: [125; 93; 125]) t); [| |exact Ht];
        repeat (constructor; [split; [discriminate | reflexivity]|]);
        constructor.
Qed.

(** ** The chunks, decoded *)

Lemma decode_written (r : StreamRecord) (bom : bool) :
  isEndpointRecord r ->
  TextDecoder.decode (TextDecoder.mkState 0 0 0 128 191 bom) (Post.written r)
  = (TextDecoder.mkState 0 0 0 128 191 true, stringifyRecord r ++ [LF]).
Proof.
  intros Hr. destruct (record_line r Hr) as [[tail E] [Hu [Hw _]]].
  unfold Post.written. apply decode_encode_string.
  - apply Forall_app. split.
    + eapply Forall_impl; [|exact Hu]. cbn beta. intros; lia.
    + constructor; [reflexivity | constructor].
  - now rewrite Hw.
  - right. rewrite E. exists 123, (tail ++ [LF]). split; [reflexivity|].
    discriminate.
Qed.

Lemma texts_written (records : list StreamRecord) (bom : bool) :
  Forall isEndpointRecord records ->
  texts (TextDecoder.mkState 0 0 0 128 191 bom) (map Post.written records)
  = map (fun r => stringifyRecord r ++ [LF]) records.
Proof.
  intros H. revert bom. induction H as [|r records Hr _ IH]; intros bom.
  - reflexivity.
  - cbn [map texts]. rewrite decode_written by exact Hr. now rewrite IH.
Qed.

(** ** The lines *)

Lemma split_without_sep (sep : N) (s : jsstring) :
  Forall (fun c => c <> sep) s -> split sep s = [s].
Proof.
  induction 1 as [|c s Hc _ IH]; [reflexivity|].
  cbn [split]. rewrite (proj2 (N.eqb_neq _ _) Hc), IH. reflexivity.
Qed.

(** Each chunk gives the line of its record and the empty piece after
    the line feed. *)
Lemma lines_written (records : list StreamRecord) :
  Forall isEndpointRecord records ->
  flat_map (split LF) (map (fun r => stringifyRecord r ++ [LF]) records)
  = flat_map (fun r => [stringifyRecord r; []]) records.
Proof.
  induction 1 as [|r records Hr _ IH]; [reflexivity|].
  cbn [map flat_map]. rewrite IH. f_equal.
  destruct (record_line r Hr) as [_ [Hu _]].
  rewrite split_app_sep, split_without_sep; [reflexivity|].
  eapply Forall_impl; [|exact Hu]. cbn beta. unfold LF. intros; lia.
Qed.

Lemma nonBlank_lines_written (records : list StreamRecord) :
  Forall isEndpointRecord records ->
  filter nonBlank (flat_map (fun r => [stringifyRecord r; []]) records)
  = map stringifyRecord records.
Proof.
  induction 1 as [|r records Hr _ IH]; [reflexivity|].
  cbn [map flat_map app filter]. rewrite IH.
  destruct (record_line r Hr) as [[tail E] _].
  unfold nonBlank at 1. rewrite E, trim_truthy by reflexivity.
  rewrite <- E. reflexivity.
Qed.

Lemma parsed_written (records : list StreamRecord) :
  Forall isEndpointRecord records ->
  parsed (map stringifyRecord records) = map recordValueOf records
  /\ filter malformed (map stringifyRecord records) = [].
Proof.
  induction 1 as [|r records Hr _ [IH1 IH2]]; [now split|].
  destruct (record_line r Hr) as [_ [_ [_ Hp]]].
  cbn [map parsed filter]. unfold malformed at 1, parses.
  rewrite Hp, IH1, IH2. rewrite andb_false_r. now split.
Qed.

(** ** The records of the endpoint *)

Lemma remains_Forall (P : N -> Prop) (t s : jsstring) :
  remains t s -> Forall P s -> Forall P t.
Proof.
  induction 1 as [|c t s _ IH|c t s _ IH]; intros H.
  - constructor.
  - inversion H; subst. now apply IH.
  - inversion H; subst. constructor; [assumption | now apply IH].
Qed.

Lemma queue_start (response : list Delta) :
  let raw := concat (map deltaText response) in
  queue (start response)
  = map fragmentRecord (filter truthy (map deltaText response))
    ++ (if includes raw fence then [finalRecord (cleanCode raw)] else []).
Proof.
  intros raw. unfold start, finish. rewrite relay_fold.
  cbn [buffer queue app]. fold raw.
  destruct (includes raw fence); [reflexivity | now rewrite app_nil_r].
Qed.

Lemma queue_start_records (response : list Delta) :
  Forall (fun d => isString (deltaText d)) response ->
  Forall isEndpointRecord (queue (start response)).
Proof.
  intros H. rewrite queue_start. apply Forall_app. split.
  - induction H as [|d response Hd _ IH]; [constructor|].
    cbn [map filter]. destruct (truthy (deltaText d)); [|exact IH].
    cbn [map]. constructor; [|exact IH].
    exists (deltaText d). split; [exact Hd | now left].
  - destruct (includes (concat (map deltaText response)) fence);
      [|constructor].
    constructor; [|constructor].
    exists (cleanCode (concat (map deltaText response))).
    split; [|now right].
    apply (remains_Forall _ _ _ (cleanCode_remains _)).
    induction H as [|d response Hd _ IH]; [constructor|].
    cbn [map concat]. apply Forall_app. now split.
Qed.

(** X11. The records the endpoint writes are the records the decoder of
    the page yields: for deltas that are strings, reading the body of the
    response (one chunk for each record, encoded by [TextEncoder]) yields
    the value of each record enqueued by [start], in order and once; no
    line is reported as malformed and the generator does not throw. This
    holds whatever the strings contain: line feeds, quotes, control
    characters, characters outside ASCII, surrogates outside a pair. *)
Theorem body_read_back (response : list Delta) :
  Forall (fun d => isString (deltaText d)) response ->
  readStream (Some (mkReader (Post.body response) false))
  = mkRun (map recordValueOf (queue (start response))) [] false.
Proof.
  intros H. pose proof (queue_start_records response H) as Hq.
  rewrite readStream_run. cbn [chunks rejects].
  rewrite filter_malformed.
  unfold linesOf, Post.body, TextDecoder.new.
  rewrite texts_written, lines_written, nonBlank_lines_written by exact Hq.
  destruct (parsed_written _ Hq) as [-> ->]. reflexivity.
Qed.

Lemma body_read_back_witness :
  let response :=
    [Some (u "```tsx"); None; Some [LF; 34; 233; 55357; 56832];
     Some []; Some (u "x```")] in
  readStream (Some (mkReader (Post.body response) false))
  = mkRun (map recordValueOf (queue (start response))) [] false.
Proof.
  apply body_read_back.
  repeat (constructor; [cbn; repeat constructor|]). constructor.
Defined.

End WireRoundTrip.

(* ================================================================== *)
(** * Sessions: what holds after every sequence of events *)
(* ================================================================== *)

Section Sessions.

Import Page.

Lemma In_removeNth_other (A : Type) (n : nat) (l : list A) (x k : A) :
  nth_error l n = Some k -> In x l -> x <> k -> In x (removeNth n l).
Proof.
  revert n. induction l as [|a l IH]; intros [|n] Hn Hin Hx;
    simpl in *; try discriminate; try contradiction.
  - injection Hn as ->. destruct Hin; [congruence | assumption].
  - destruct Hin as [->|Hin]; [now left | right; eapply IH; eauto].
Qed.

Lemma Forall_removeNth (A : Type) (P : A -> Prop) (n : nat) (l : list A) :
  Forall P l -> Forall P (removeNth n l).
Proof.
  intros H. revert n. induction H as [|a l Ha Hl IH]; intros [|n]; simpl.
  - constructor.
  - constructor.
  - exact Hl.
  - constructor; [exact Ha | apply IH].
Qed.

Lemma Forall_nth_error (A : Type) (P : A -> Prop) (n : nat) (l : list A)
    (x : A) :
  Forall P l -> nth_error l n = Some x -> P x.
Proof.
  intros H Hn. rewrite Forall_forall in H. apply H.
  eapply nth_error_In; eassumption.
Qed.

(** ** The two continuations, by cases *)

Lemma createApp_resume_cases (r : Render) (res : Response) (s : State) :
  let out := createApp_resume r res s in
  isGenerating (fst out) = false
  /\ isAutoFixing (fst out) = isAutoFixing s
  /\ (snd out = [SetTimeout r]
      \/ exists msg, snd out = [ConsoleError; Alert msg]).
Proof.
  unfold createApp_resume.
  destruct (ok res); cbn [negb].
  - destruct (consumeAll_only_code (results res) s) as [code Hc].
    destruct (consumeAll (results res) s) as [fullCode s1].
    cbn [snd] in Hc. subst s1.
    destruct (rejects res); cbn; repeat split; eauto.
  - cbn. repeat split; eauto.
Qed.

Lemma fixCode_resume_cases (r : Render) (res : Response) (s : State) :
  let out := fixCode_resume r res s in
  isGenerating (fst out) = false
  /\ isAutoFixing (fst out) = false
  /\ (snd out = [SetTimeout r]
      \/ exists msg, snd out = [ConsoleError; Alert msg]).
Proof.
  unfold fixCode_resume.
  destruct (ok res); cbn [negb].
  - destruct (consumeAll (results res) s) as [fullCode s1].
    destruct (rejects res); cbn; repeat split; eauto.
  - cbn. repeat split; eauto.
Qed.

(** ** The in-flight flags *)

Lemma step_flags (c : Session) (ev : Event) :
  (isGenerating (store c) = true -> suspended c <> [])
  /\ (isAutoFixing (store c) = true ->
      exists r, In (inFixCode r) (suspended c)) ->
  (isGenerating (store (step c ev)) = true -> suspended (step c ev) <> [])
  /\ (isAutoFixing (store (step c ev)) = true ->
      exists r, In (inFixCode r) (suspended (step c ev))).
Proof.
  intros [HG HA]. destruct ev as [v|v| | | |n res|n preview]; unfold step.
  - destruct (truthy (generatedCode (store c)) || isGenerating (store c));
      [now split|]. cbn. now split.
  - destruct (truthy (generatedCode (store c)) && showFixInput (store c)
              && negb (isGenerating (store c))); [|now split].
    cbn. now split.
  - destruct (truthy (generatedCode (store c)) || isGenerating (store c)
              || negb (truthy (prompt (store c)))); [now split|].
    cbn. split.
    + intros _ E. now apply app_eq_nil in E as [_ E].
    + intros H. destruct (HA H) as [r Hr]. exists r.
      apply in_or_app. now left.
  - destruct (truthy (generatedCode (store c)) && showFixInput (store c)
              && negb (isGenerating (store c))
              && truthy (trim (fixPrompt (store c)))) eqn:G; [|now split].
    apply andb_true_iff in G. destruct G as [_ G].
    unfold fixCode. cbn [fixRequestOf]. rewrite G. cbn. split.
    + intros _ E. now apply app_eq_nil in E as [_ E].
    + intros _. exists (store c). apply in_or_app. right. now left.
  - destruct (truthy (generatedCode (store c))); [|now split].
    cbn. now split.
  - destruct (nth_error (suspended c) n) as [k|] eqn:Hn; [|now split].
    destruct k as [r|r].
    + pose proof (createApp_resume_cases r res (store c)) as [H1 [H2 H3]].
      destruct (createApp_resume r res (store c)) as [s' effects].
      cbn [fst snd] in H1, H2, H3.
      assert (store (commit (mkSession (store c) (removeNth n (suspended c))
                               (timeouts c) (fetched c)) (s', effects)) = s'
              /\ suspended (commit (mkSession (store c)
                                      (removeNth n (suspended c))
                                      (timeouts c) (fetched c)) (s', effects))
                 = removeNth n (suspended c)) as [-> ->].
      { destruct H3 as [-> | [msg ->]]; now split. }
      split; [congruence|].
      rewrite H2. intros H. destruct (HA H) as [r' Hr']. exists r'.
      eapply In_removeNth_other; [exact Hn | exact Hr' | discriminate].
    + pose proof (fixCode_resume_cases r res (store c)) as [H1 [H2 H3]].
      destruct (fixCode_resume r res (store c)) as [s' effects].
      cbn [fst snd] in H1, H2, H3.
      assert (store (commit (mkSession (store c) (removeNth n (suspended c))
                               (timeouts c) (fetched c)) (s', effects)) = s')
        as ->.
      { destruct H3 as [-> | [msg ->]]; reflexivity. }
      split; congruence.
  - destruct (nth_error (timeouts c) n) as [r|] eqn:Hn; [|now split].
    destruct (checkForErrors_cases r preview (store c))
      as [-> | [message [_ [_ ->]]]].
    + cbn. now split.
    + cbn. split.
      * intros _ E. now apply app_eq_nil in E as [_ E].
      * intros _. exists r. apply in_or_app. right. now left.
Qed.

Lemma run_flags (events : list Event) (c : Session) :
  (isGenerating (store c) = true -> suspended c <> [])
  /\ (isAutoFixing (store c) = true ->
      exists r, In (inFixCode r) (suspended c)) ->
  (isGenerating (store (run events c)) = true -> suspended (run events c) <> [])
  /\ (isAutoFixing (store (run events c)) = true ->
      exists r, In (inFixCode r) (suspended (run events c))).
Proof.
  revert c. induction events as [|ev events IH]; intros c H; [exact H|].
  apply IH. now apply step_flags.
Qed.

(** X12. The in-flight flags are backed by a request, whatever the user
    does and in whatever order responses arrive and scheduled checks run:
    when [isGenerating] is set, a request is awaiting its response, and when
    [isAutoFixing] is set, a fix request is. Hence, with no request left in
    flight, both flags are down: the inputs are enabled again and no
    spinner is left turning. *)
Theorem flags_have_request (events : list Event) :
  let c := run events mount in
  (isGenerating (store c) = true -> suspended c <> [])
  /\ (isAutoFixing (store c) = true ->
      exists r, In (inFixCode r) (suspended c))
  /\ (suspended c = [] ->
      isGenerating (store c) = false /\ isAutoFixing (store c) = false).
Proof.
  intros c.
  assert ((isGenerating (store c) = true -> suspended c <> [])
          /\ (isAutoFixing (store c) = true ->
              exists r, In (inFixCode r) (suspended c))) as [HG HA].
  { apply run_flags. cbn. split; discriminate. }
  split; [exact HG|]. split; [exact HA|].
  intros E. split.
  - destruct (isGenerating (store c)); [|reflexivity].
    now elim (HG eq_refl).
  - destruct (isAutoFixing (store c)); [|reflexivity].
    destruct (HA eq_refl) as [r Hr]. rewrite E in Hr. contradiction.
Qed.

Lemma flags_have_request_witness :
  let c := run generation mount in
  suspended c = []
  /\ isGenerating (store c) = false /\ isAutoFixing (store c) = false.
Proof.
  assert (suspended (run generation mount) = []) as E by reflexivity.
  split; [exact E|].
  exact (proj2 (proj2 (flags_have_request generation)) E).
Defined.

(** ** The check that a generation schedules *)

(** The prompt form is rendered only while there is no artifact, so
    [createApp] runs in a render whose artifact is empty. *)
Lemma step_createApp_render (c : Session) (ev : Event) :
  Forall (fun k => forall r, k = inCreateApp r -> generatedCode r = [])
         (suspended c) ->
  Forall (fun k => forall r, k = inCreateApp r -> generatedCode r = [])
         (suspended (step c ev)).
Proof.
  intros HS. destruct ev as [v|v| | | |n res|n preview]; unfold step.
  - destruct (truthy (generatedCode (store c)) || isGenerating (store c));
      cbn; assumption.
  - destruct (truthy (generatedCode (store c)) && showFixInput (store c)
              && negb (isGenerating (store c))); cbn; assumption.
  - destruct (truthy (generatedCode (store c))) eqn:G; cbn [orb];
      [assumption|].
    destruct (isGenerating (store c) || negb (truthy (prompt (store c))));
      [assumption|].
    cbn. apply Forall_app. split; [exact HS|]. constructor; [|constructor].
    intros r [= <-].
    destruct (generatedCode (store c)); [reflexivity | discriminate].
  - destruct (truthy (generatedCode (store c)) && showFixInput (store c)
              && negb (isGenerating (store c))
              && truthy (trim (fixPrompt (store c)))) eqn:G; [|assumption].
    apply andb_true_iff in G. destruct G as [_ G].
    unfold fixCode. cbn [fixRequestOf]. rewrite G. cbn.
    apply Forall_app. split; [exact HS|]. constructor; [|constructor].
    discriminate.
  - destruct (truthy (generatedCode (store c))); cbn; assumption.
  - destruct (nth_error (suspended c) n) as [k|] eqn:Hn; [|assumption].
    pose proof (Forall_removeNth _ _ n _ HS) as HS'.
    destruct k as [r|r].
    + pose proof (createApp_resume_cases r res (store c)) as [_ [_ H3]].
      destruct (createApp_resume r res (store c)) as [s' effects].
      cbn [snd] in H3. destruct H3 as [-> | [msg ->]]; cbn; assumption.
    + pose proof (fixCode_resume_cases r res (store c)) as [_ [_ H3]].
      destruct (fixCode_resume r res (store c)) as [s' effects].
      cbn [snd] in H3. destruct H3 as [-> | [msg ->]]; cbn; assumption.
  - destruct (nth_error (timeouts c) n) as [r|] eqn:Hn; [|assumption].
    destruct (checkForErrors_cases r preview (store c))
      as [-> | [message [_ [_ ->]]]]; cbn; [assumption|].
    apply Forall_app. split; [exact HS|]. constructor; [|constructor].
    discriminate.
Qed.

(** X13. The check that a generation schedules sends its fix without the
    artifact. In every session a generation is started by [createApp] of a
    render whose artifact is empty, since the prompt form is rendered only
    then (and no call of the watcher, of whichever render, changes that:
    the watcher starts fixes, not generations). The check that the
    generation schedules with [setTimeout] is the watcher of that same
    render. And a fix request sent by the watcher of a render whose artifact
    is empty carries an empty [currentCode], which the endpoint serves as an
    initial generation: the model is given the fix instruction with the
    generation prompt and without the code to fix. *)
Theorem generation_check_without_artifact :
  (forall events,
     Forall (fun k => forall r, k = inCreateApp r -> generatedCode r = [])
            (suspended (run events mount)))
  /\ (forall c r preview,
        Forall (fun k => forall r, k = inCreateApp r -> generatedCode r = [])
               (suspended c) ->
        Forall (fun k => forall r, k = inCreateApp r -> generatedCode r = [])
               (suspended (commit c (checkForErrors r preview (store c)))))
  /\ (forall r res s r',
        In (SetTimeout r') (snd (createApp_resume r res s)) -> r' = r)
  /\ (forall r preview s req k,
        generatedCode r = [] ->
        In (Fetch req k) (snd (checkForErrors r preview s)) ->
        reqCurrentCode req = Some []
        /\ Post.isFixRequest req = false
        /\ Post.conversationMessages req
           = [mkMessage system Post.systemPrompt;
              mkMessage user (reqPrompt req)]).
Proof.
  split; [|split; [|split]].
  - intros events.
    assert (forall c,
      Forall (fun k => forall r, k = inCreateApp r -> generatedCode r = [])
             (suspended c) ->
      Forall (fun k => forall r, k = inCreateApp r -> generatedCode r = [])
             (suspended (run events c))) as G.
    { induction events as [|ev events IH]; intros c Hc; [exact Hc|].
      apply IH. now apply step_createApp_render. }
    apply G. constructor.
  - intros c r preview HS.
    destruct (checkForErrors_cases r preview (store c))
      as [-> | [message [_ [_ ->]]]]; cbn; [assumption|].
    apply Forall_app. split; [exact HS|]. constructor; [|constructor].
    discriminate.
  - intros r res s r' H.
    pose proof (createApp_resume_cases r res s) as [_ [_ H3]].
    destruct H3 as [E | [msg E]]; rewrite E in H; cbn in H.
    + destruct H as [[= <-] | []]. reflexivity.
    + destruct H as [H | [H | []]]; discriminate H.
  - intros r preview s req k Hr H.
    destruct (checkForErrors_cases r preview s)
      as [E | [message [_ [_ E]]]]; rewrite E in H; cbn in H;
      [contradiction|].
    destruct H as [[= <- <-] | []].
    assert (Post.isFixRequest
              (mkRequest (autoFixPrompt message)
                 (messages r ++ [mkMessage user (autoFixPrompt message)])
                 (Some (generatedCode r))) = false) as F.
    { unfold Post.isFixRequest. cbn [reqMessages reqCurrentCode].
      rewrite Hr. now destruct (messages r). }
    split; [cbn; now rewrite Hr|]. split; [exact F|].
    unfold Post.conversationMessages. now rewrite F.
Qed.

Lemma generation_check_without_artifact_witness :
  let events := generation ++ [Timeout 0 brokenPreview] in
  map reqCurrentCode (fetched (run events mount)) = [None; Some []]
  /\ exists req k,
       snd (checkForErrors initial brokenPreview initial) = [Fetch req k]
       /\ reqCurrentCode req = Some [] /\ Post.isFixRequest req = false.
Proof.
  split; [reflexivity|].
  eexists. eexists. split; [reflexivity|].
  match goal with |- reqCurrentCode ?req = _ /\ _ =>
    destruct (proj2 (proj2 (proj2 generation_check_without_artifact))
                initial brokenPreview initial req (inFixCode initial) eq_refl
                (or_introl eq_refl)) as [H1 [H2 _]]
  end.
  split; [exact H1 | exact H2].
Defined.

End Sessions.

(* ================================================================== *)
(** * Cleanup of a fenced block *)
(* ================================================================== *)

Section Unwrap.

Import Route.

Lemma fenceMatch_none (ci : bool) (tag s : jsstring) :
  startsWith s fence = false -> fenceMatch ci tag s = None.
Proof.
  intros H. destruct (fenceMatch ci tag s) as [n|] eqn:E; [|reflexivity].
  apply fenceMatch_fence in E. congruence.
Qed.

(** A code without fence, followed by a line feed, is passed over by each
    of the replacements. *)
Lemma stripFence_code (ci : bool) (tag code rest : jsstring) :
  includes code fence = false ->
  stripFence ci tag (code ++ LF :: rest)
  = code ++ LF :: stripFence ci tag rest.
Proof.
  unfold stripFence. induction code as [|c code IH]; intros H.
  - cbn [app]. rewrite replaceAll_cons, fenceMatch_none; reflexivity.
  - cbn [includes] in H. apply orb_false_iff in H. destruct H as [H1 H2].
    cbn [app]. rewrite replaceAll_cons, fenceMatch_none.
    + now rewrite IH.
    + clear IH H2. unfold startsWith, fence, BACKTICK, LF in *.
      destruct code as [|c2 [|c3 code']]; cbn [startsWithBy app] in *.
      * change (96 =? 10)%N with false. cbn [andb]. apply andb_false_r.
      * change (96 =? 10)%N with false. cbn [andb].
        now rewrite !andb_false_r.
      * exact H1.
Qed.

Lemma stripFence_cons (ci : bool) (tag : jsstring) (c : N) (r : jsstring) :
  stripFence ci tag (c :: r) =
  match fenceMatch ci tag (c :: r) with
  | Some (S k) => stripFence ci tag (skipn k r)
  | _ => c :: stripFence ci tag r
  end.
Proof. apply replaceAll_cons. Qed.

Lemma trimEnd_app_space (t : jsstring) (x : N) :
  isWhiteSpace x = true -> trimEnd (t ++ [x]) = trimEnd t.
Proof.
  intros Hx. induction t as [|c t IH]; cbn [app trimEnd].
  - now rewrite Hx.
  - now rewrite IH.
Qed.

Lemma trim_app_space (s : jsstring) (x : N) :
  isWhiteSpace x = true -> trim (s ++ [x]) = trim s.
Proof.
  intros Hx. unfold trim. induction s as [|c s IH]; cbn [app trimStart].
  - now rewrite Hx.
  - destruct (isWhiteSpace c); [exact IH|].
    rewrite app_comm_cons. now apply trimEnd_app_space.
Qed.

(** X14. What the cleanup is for: when the answer of the model is one
    fenced block, opened by a fence with one of the tags the endpoint knows
    (or none) at the end of its line and closed by a fence on the last
    line, the cleaned code is the code inside the block, trimmed. The code
    may contain backticks, but not three in a row. *)
Theorem cleanCode_unwraps (tag code : jsstring) :
  In tag [u "typescript"; u "tsx"; u "jsx"; u "javascript"; []] ->
  includes code fence = false ->
  cleanCode (fence ++ tag ++ [LF] ++ code ++ [LF] ++ fence) = trim code.
Proof.
  intros Htag Hcode. unfold cleanCode.
  cbn in Htag.
  destruct Htag as [<- | [<- | [<- | [<- | [<- | []]]]]];
    cbn [app fence];
    repeat
      (match goal with
       | |- context [stripFence ?ci ?t (?c :: ?r)] =>
           rewrite (stripFence_cons ci t c r);
           let v := eval cbn in (fenceMatch ci t (c :: r)) in
           change (fenceMatch ci t (c :: r)) with v;
           cbv iota beta; cbn [skipn]
       | |- context [stripFence ?ci ?t (code ++ LF :: ?r)] =>
           rewrite (stripFence_code ci t code r Hcode)
       | |- context [stripFence ?ci ?t []] =>
           change (stripFence ci t []) with (@nil N)
       end).
  all: match goal with
       | |- trim (_ ++ LF :: ?x) = _ =>
           let v := eval vm_compute in x in change x with v
       end;
    apply trim_app_space; reflexivity.
Qed.

Lemma cleanCode_unwraps_witness :
  let code := u "const s = `a`;" in
  includes code fence = false
  /\ cleanCode (fence ++ u "tsx" ++ [LF] ++ code ++ [LF] ++ fence)
     = trim code.
Proof.
  split; [reflexivity|].
  apply cleanCode_unwraps; [|reflexivity].
  right. left. reflexivity.
Defined.


Lemma startsWithBy_line (eqc : N -> N -> bool) (known tag rest : jsstring)
    (x : N) :
  Forall (fun p => eqc p x = false) known ->
  startsWithBy eqc known (tag ++ x :: rest) = startsWithBy eqc known tag.
Proof.
  intros H. revert tag. induction H as [|p known Hp _ IH]; intros tag.
  - reflexivity.
  - destruct tag as [|c tag]; cbn [app startsWithBy].
    + now rewrite Hp.
    + now rewrite IH.
Qed.

Lemma includes_fence_no_backtick (tag : jsstring) :
  Forall (fun c => c <> BACKTICK /\ c <> LF) tag ->
  includes tag fence = false.
Proof.
  induction 1 as [|c tag [Hc _] _ IH]; [reflexivity|].
  cbn [includes]. rewrite IH, orb_false_r.
  unfold startsWith, fence. cbn [startsWithBy].
  apply N.eqb_neq in Hc. rewrite N.eqb_sym in Hc. now rewrite Hc.
Qed.

(** A replacement for a tag that the line of the opening fence does not
    begin with leaves the block as it is. *)
Lemma stripFence_other_tag (known tag code : jsstring) :
  known <> [] ->
  Forall (fun p => eqCodeUnit true p LF = false) known ->
  startsWithBy (eqCodeUnit true) known tag = false ->
  tag <> [] -> Forall (fun c => c <> BACKTICK /\ c <> LF) tag ->
  includes code fence = false ->
  stripFence true known (fence ++ tag ++ LF :: code ++ LF :: fence)
  = fence ++ tag ++ LF :: code ++ LF :: fence.
Proof.
  intros Hk Hlf Hno Hne Htag Hcode.
  pose proof (includes_fence_no_backtick tag Htag) as Hinc.
  destruct tag as [|c tag']; [congruence|].
  inversion Htag as [|? ? [Hc _] _]; subst.
  apply N.eqb_neq in Hc. rewrite N.eqb_sym in Hc.
  unfold fence at 1 3. cbn [app].
  rewrite stripFence_cons.
  assert (fenceMatch true known
            (BACKTICK :: BACKTICK :: BACKTICK
               :: c :: tag' ++ LF :: code ++ LF :: fence) = None) as ->.
  { unfold fenceMatch. unfold fence at 1. cbn [app startsWithBy].
    change (eqCodeUnit true BACKTICK BACKTICK) with true. cbn [andb].
    pose proof (startsWithBy_line (eqCodeUnit true) known (c :: tag')
                  (code ++ LF :: fence) LF Hlf) as E.
    cbn [app] in E. fold fence. rewrite E, Hno. reflexivity. }
  rewrite stripFence_cons, fenceMatch_none.
  2:{ unfold startsWith, fence. cbn [startsWithBy].
      rewrite Hc. now rewrite !andb_false_r. }
  rewrite stripFence_cons, fenceMatch_none.
  2:{ unfold startsWith, fence. cbn [startsWithBy].
      rewrite Hc. now rewrite !andb_false_r. }
  change (c :: tag' ++ LF :: code ++ LF :: fence)
    with ((c :: tag') ++ LF :: code ++ LF :: fence).
  rewrite (stripFence_code true known (c :: tag') _ Hinc).
  rewrite (stripFence_code true known code _ Hcode).
  assert (stripFence true known fence = fence) as ->; [|reflexivity].
  destruct known as [|p known']; [congruence|]. reflexivity.
Qed.

(** X15. A fence with another tag: when the opening fence carries a tag
    that does not begin with one of the four tags the endpoint knows
    (letter case aside), only the two fences are removed, and the tag stays
    in the cleaned code as its first line. *)
Theorem cleanCode_keeps_other_tag (tag code : jsstring) :
  tag <> [] -> Forall (fun c => c <> BACKTICK /\ c <> LF) tag ->
  Forall (fun known => startsWithBy (eqCodeUnit true) known tag = false)
         [u "typescript"; u "tsx"; u "jsx"; u "javascript"] ->
  includes code fence = false ->
  cleanCode (fence ++ tag ++ [LF] ++ code ++ [LF] ++ fence)
  = trim (tag ++ [LF] ++ code).
Proof.
  intros Hne Htag Hknown Hcode.
  inversion Hknown as [|? ? K1 Hk1]; subst.
  inversion Hk1 as [|? ? K2 Hk2]; subst.
  inversion Hk2 as [|? ? K3 Hk3]; subst.
  inversion Hk3 as [|? ? K4 _]; subst.
  unfold cleanCode. cbn [app].
  rewrite !stripFence_other_tag;
    try assumption; try discriminate;
    try (repeat constructor).
  pose proof (includes_fence_no_backtick tag Htag) as Hinc.
  destruct tag as [|c tag']; [congruence|].
  inversion Htag as [|? ? [_ Hc] _]; subst.
  apply N.eqb_neq in Hc.
  unfold fence at 1. cbn [app].
  rewrite stripFence_cons.
  assert (fenceMatch false []
            (BACKTICK :: BACKTICK :: BACKTICK
               :: c :: tag' ++ LF :: code ++ LF :: fence) = Some 3) as ->.
  { unfold fenceMatch. cbn. rewrite Hc. reflexivity. }
  cbn [skipn].
  change (c :: tag' ++ LF :: code ++ LF :: fence)
    with ((c :: tag') ++ LF :: code ++ LF :: fence).
  rewrite (stripFence_code false [] (c :: tag') _ Hinc).
  rewrite (stripFence_code false [] code _ Hcode).
  change (stripFence false [] fence) with (@nil N).
  assert ((c :: tag') ++ LF :: code ++ [LF]
          = ((c :: tag') ++ LF :: code) ++ [LF]) as ->
      by (now rewrite <- app_assoc).
  apply trim_app_space. reflexivity.
Qed.

Lemma cleanCode_keeps_other_tag_witness :
  let code := u "const s = `a`;" in
  cleanCode (fence ++ u "ts" ++ [LF] ++ code ++ [LF] ++ fence)
  = u "ts" ++ [LF] ++ code.
Proof.
  apply (cleanCode_keeps_other_tag (u "ts") (u "const s = `a`;")).
  - discriminate.
  - repeat (constructor; [split; discriminate|]). constructor.
  - repeat (constructor; [reflexivity|]). constructor.
  - reflexivity.
Defined.

End Unwrap.

(* ================================================================== *)
(** * The body of a request, from the page to the endpoint *)
(* ================================================================== *)

Section RequestBody.

Local Open Scope N_scope.

Import Page.

Lemma parseValue_string (n : nat) (t rest : jsstring) :
  isString t ->
  JSON.parseValue (S n) (DQUOTE :: quoteChars t ++ DQUOTE :: rest)
  = Some (JSON.JString t, rest).
Proof.
  intros Ht. pose proof (stringBody_quoteChars t rest Ht) as Q.
  remember (quoteChars t ++ DQUOTE :: rest) as q eqn:Eq.
  cbn. rewrite Q. reflexivity.
Qed.

Lemma message_line (m : Message) :
  Body.stringifyMessage m
  = [123; 34] ++ u "role" ++ [34; 58; 34] ++ Body.roleName (role m)
      ++ [34; 44; 34] ++ u "content" ++ [34; 58; 34]
      ++ quoteChars (content m) ++ [34; 125].
Proof.
  unfold Body.stringifyMessage, member, quote.
  destruct m as [[| |] c]; cbn; rewrite <- ?app_assoc; reflexivity.
Qed.

Lemma parseValue_message (n : nat) (m : Message) (rest : jsstring) :
  isString (content m) ->
  JSON.parseValue (S (S (S (S n)))) (Body.stringifyMessage m ++ rest)
  = Some (messageValue m, rest).
Proof.
  intros Ht. rewrite message_line.
  pose proof (stringBody_quoteChars (content m) (125 :: rest) Ht) as Q.
  unfold messageValue, DQUOTE in *.
  destruct m as [r c]. cbn [role content] in *.
  rewrite <- !app_assoc. cbn [app].
  remember (quoteChars c ++ 34 :: 125 :: rest) as q eqn:Eq.
  destruct r; cbn; rewrite Q; reflexivity.
Qed.

Lemma parseElements_S (n : nat) (s : jsstring) :
  JSON.parseElements (S n) s =
  match JSON.parseValue n s with
  | Some (v, rest) =>
      match JSON.skipSpace rest with
      | c :: r =>
          if c =? 44 then
            match JSON.parseElements n r with
            | Some (vs, rest') => Some (v :: vs, rest')
            | None => None
            end
          else if c =? 93 then Some ([v], r)
          else None
      | [] => None
      end
  | None => None
  end.
Proof. reflexivity. Qed.

Lemma commas_cons (x y : jsstring) (items : list jsstring) :
  commas (x :: y :: items) = x ++ [44] ++ commas (y :: items).
Proof. reflexivity. Qed.

(** The messages of the transcript, one at least. *)
Lemma parseElements_messages (m : Message) (ms : list Message) (n : nat)
    (rest : jsstring) :
  Forall (fun m => isString (content m)) (m :: ms) ->
  JSON.parseElements (S (S (S (S (S (List.length ms + n))))))
    (commas (map Body.stringifyMessage (m :: ms)) ++ 93 :: rest)
  = Some (map messageValue (m :: ms), rest).
Proof.
  revert m. induction ms as [|m2 ms IH]; intros m H;
    inversion H as [|? ? Hm Hms]; subst.
  - cbn [List.length map commas Nat.add].
    rewrite parseElements_S, parseValue_message by exact Hm.
    reflexivity.
  - cbn [List.length map Nat.add]. rewrite commas_cons, <- !app_assoc.
    rewrite parseElements_S, parseValue_message by exact Hm.
    cbn [app JSON.skipSpace]. change (JSON.isJsonSpace 44) with false.
    cbn iota. change (44 =? 44) with true. cbn iota.
    change (Body.stringifyMessage m2 :: map Body.stringifyMessage ms)
      with (map Body.stringifyMessage (m2 :: ms)).
    rewrite (IH m2 Hms). reflexivity.
Qed.

Lemma commas_messages_head (m : Message) (ms : list Message) :
  exists tail,
    commas (map Body.stringifyMessage (m :: ms)) = 123 :: tail.
Proof.
  destruct ms as [|m2 ms]; cbn [map].
  - cbn [commas]. rewrite message_line. eexists. reflexivity.
  - rewrite commas_cons, message_line. eexists. reflexivity.
Qed.

Lemma commas_messages_length (ms : list Message) :
  Nat.le (List.length ms)
         (List.length (commas (map Body.stringifyMessage ms))).
Proof.
  induction ms as [|m ms IH]; [apply Nat.le_refl|].
  destruct ms as [|m2 ms]; cbn [map].
  - cbn [commas List.length]. rewrite message_line. cbn. lia.
  - rewrite commas_cons, !length_app. rewrite message_line.
    cbn [map] in IH. cbn [List.length app] in *. lia.
Qed.

Lemma request_line (req : Request) :
  Body.stringifyRequest req
  = [123; 34] ++ u "prompt" ++ [34; 58; 34] ++ quoteChars (reqPrompt req)
      ++ [34; 44; 34] ++ u "messages" ++ [34; 58; 91]
      ++ commas (map Body.stringifyMessage (reqMessages req))
      ++ 93 :: match reqCurrentCode req with
               | Some code =>
                   [44; 34] ++ u "currentCode" ++ [34; 58; 34]
                   ++ quoteChars code ++ [34; 125]
               | None => [125]
               end.
Proof.
  unfold Body.stringifyRequest, member, quote.
  destruct (reqCurrentCode req); cbn;
    repeat (rewrite <- app_assoc; cbn [app]); reflexivity.
Qed.

(** ** Members of an object *)

Lemma parseValue_object (n : nat) (s rest : jsstring)
    (members : list (jsstring * JSON.value)) :
  JSON.parseMembers n (34 :: s) = Some (members, rest) ->
  JSON.parseValue (S n) (123 :: 34 :: s) = Some (JSON.JObject members, rest).
Proof.
  intros H. cbn [JSON.parseValue].
  change (JSON.skipSpace (123 :: 34 :: s)) with (123 :: 34 :: s).
  change (JSON.skipSpace (34 :: s)) with (34 :: s).
  cbv iota beta. change (123 =? 123) with true.
  change (34 =? 125) with false. cbv iota. now rewrite H.
Qed.

Lemma parseMembers_last (n : nat) (key vr rest : jsstring) (v : JSON.value) :
  isString key ->
  JSON.parseValue n vr = Some (v, 125 :: rest) ->
  JSON.parseMembers (S n) (34 :: quoteChars key ++ 34 :: 58 :: vr)
  = Some ([(key, v)], rest).
Proof.
  intros Hk Hv.
  pose proof (stringBody_quoteChars key (58 :: vr) Hk) as Q.
  unfold DQUOTE in Q.
  remember (quoteChars key ++ 34 :: 58 :: vr) as q eqn:Eq.
  cbn [JSON.parseMembers].
  change (JSON.skipSpace (34 :: q)) with (34 :: q).
  cbv iota beta. change (34 =? 34) with true. cbv iota. rewrite Q.
  change (JSON.skipSpace (58 :: vr)) with (58 :: vr).
  cbv iota beta. change (58 =? 58) with true. cbv iota. rewrite Hv.
  reflexivity.
Qed.

Lemma parseMembers_more (n : nat) (key vr rest rest' : jsstring)
    (v : JSON.value) (members : list (jsstring * JSON.value)) :
  isString key ->
  JSON.parseValue n vr = Some (v, 44 :: rest) ->
  JSON.parseMembers n rest = Some (members, rest') ->
  JSON.parseMembers (S n) (34 :: quoteChars key ++ 34 :: 58 :: vr)
  = Some ((key, v) :: members, rest').
Proof.
  intros Hk Hv Hm.
  pose proof (stringBody_quoteChars key (58 :: vr) Hk) as Q.
  unfold DQUOTE in Q.
  remember (quoteChars key ++ 34 :: 58 :: vr) as q eqn:Eq.
  cbn [JSON.parseMembers].
  change (JSON.skipSpace (34 :: q)) with (34 :: q).
  cbv iota beta. change (34 =? 34) with true. cbv iota. rewrite Q.
  change (JSON.skipSpace (58 :: vr)) with (58 :: vr).
  cbv iota beta. change (58 =? 58) with true. cbv iota. rewrite Hv.
  change (JSON.skipSpace (44 :: rest)) with (44 :: rest).
  cbv iota beta. change (44 =? 44) with true. cbv iota. rewrite Hm.
  reflexivity.
Qed.

(** The array of the transcript. *)
Lemma parseValue_messages (ms : list Message) (n : nat) (rest : jsstring) :
  Forall (fun m => isString (content m)) ms ->
  JSON.parseValue (S (S (S (S (S (List.length ms + n))))))
    (91 :: commas (map Body.stringifyMessage ms) ++ 93 :: rest)
  = Some (JSON.JArray (map messageValue ms), rest).
Proof.
  intros H. destruct ms as [|m ms]; [reflexivity|].
  pose proof (parseElements_messages m ms n rest H) as P.
  destruct (commas_messages_head m ms) as [t Ht].
  rewrite Ht in *. cbn [app] in *.
  cbn [List.length Nat.add JSON.parseValue].
  change (JSON.skipSpace (91 :: 123 :: t ++ 93 :: rest))
    with (91 :: 123 :: t ++ 93 :: rest).
  change (JSON.skipSpace (123 :: t ++ 93 :: rest))
    with (123 :: t ++ 93 :: rest).
  cbv iota beta. change (91 =? 123) with false. change (91 =? 91) with true.
  change (123 =? 93) with false. cbv iota.
  now rewrite P.
Qed.

Lemma parseValue_request (req : Request) (n : nat) :
  isString (reqPrompt req) ->
  Forall (fun m => isString (content m)) (reqMessages req) ->
  (forall code, reqCurrentCode req = Some code -> isString code) ->
  JSON.parseValue
    (S (S (S (S (S (S (S (S (List.length (reqMessages req) + n)))))))))
    (Body.stringifyRequest req)
  = Some (requestValue req, []).
Proof.
  intros Hp Hms Hcode. rewrite request_line. unfold requestValue.
  destruct req as [p ms code]. cbn [reqPrompt reqMessages reqCurrentCode] in *.
  assert (isString (u "prompt") /\ isString (u "messages")
          /\ isString (u "currentCode")) as [K1 [K2 K3]].
  { repeat split; repeat (constructor; [reflexivity|]); constructor. }
  apply parseValue_object.
  eapply (parseMembers_more _ (u "prompt")
            (34 :: quoteChars p ++ 34 :: 44 :: _) _ _ _ _ K1).
  - apply (parseValue_string _ p _ Hp).
  - destruct code as [c|].
    + eapply (parseMembers_more _ (u "messages")
                (91 :: commas (map Body.stringifyMessage ms) ++ 93 :: 44 :: _)
                _ _ _ _ K2).
      * apply (parseValue_messages ms _ _ Hms).
      * cbn [memberValue].
        apply (parseMembers_last _ (u "currentCode")
                 (34 :: quoteChars c ++ 34 :: [125]) _ _ K3).
        apply (parseValue_string _ c _ (Hcode c eq_refl)).
    + cbn [memberValue].
      apply (parseMembers_last _ (u "messages")
               (91 :: commas (map Body.stringifyMessage ms) ++ 93 :: [125])
               _ _ K2).
      apply (parseValue_messages ms _ _ Hms).
Qed.

(** X16. The body of a request is read back by the endpoint as it was
    written by the page: [JSON.parse] of [JSON.stringify] of the request
    object gives the prompt, the messages of the transcript in order, each
    with its role and its content, and the current code exactly when
    the request comes from [fixCode]; a request of [createApp] has no
    [currentCode] member. *)
Theorem request_read_back (req : Request) :
  isString (reqPrompt req) ->
  Forall (fun m => isString (content m)) (reqMessages req) ->
  (forall code, reqCurrentCode req = Some code -> isString code) ->
  JSON.parse (Body.stringifyRequest req)
  = Some (JSON.JObject
            ([(u "prompt", JSON.JString (reqPrompt req));
              (u "messages",
               JSON.JArray
                 (map (fun m =>
                         JSON.JObject
                           [(u "role",
                             JSON.JString (Body.roleName (role m)));
                            (u "content", JSON.JString (content m))])
                      (reqMessages req)))]
             ++ match reqCurrentCode req with
                | Some code => [(u "currentCode", JSON.JString code)]
                | None => []
                end)).
Proof.
  intros Hp Hms Hcode. unfold JSON.parse.
  assert (exists n : nat,
             Nat.add (Nat.mul 2 (List.length (Body.stringifyRequest req))) 2
             = S (S (S (S (S (S (S (S (Nat.add
                                        (List.length (reqMessages req))
                                        n))))))))) as [n ->].
  { pose proof (commas_messages_length (reqMessages req)) as L.
    assert (Nat.le (Nat.add (List.length (reqMessages req)) 6)
                   (List.length (Body.stringifyRequest req))) as L'.
    { rewrite request_line. rewrite !length_app.
      cbn [List.length]. lia. }
    exists (Nat.sub (Nat.add (Nat.mul 2
                       (List.length (Body.stringifyRequest req))) 2)
                    (Nat.add 8 (List.length (reqMessages req)))).
    lia. }
  rewrite (parseValue_request req n Hp Hms Hcode). reflexivity.
Qed.

Lemma request_read_back_witness :
  let req :=
    mkRequest (u "make it blue")
      [mkMessage user (u "build a counter");
       mkMessage assistant [LF; 34; 233; 55357];
       mkMessage user (u "make it blue")]
      (Some [LF; 34; 233; 55357]) in
  JSON.parse (Body.stringifyRequest req) = Some (requestValue req).
Proof.
  apply (request_read_back
           (mkRequest (u "make it blue")
              [mkMessage user (u "build a counter");
               mkMessage assistant [LF; 34; 233; 55357];
               mkMessage user (u "make it blue")]
              (Some [LF; 34; 233; 55357]))).
  - repeat (constructor; [reflexivity|]). constructor.
  - repeat (constructor; [repeat (constructor; [reflexivity|]); constructor|]).
    constructor.
  - intros code [= <-]. repeat (constructor; [reflexivity|]). constructor.
Defined.

End RequestBody.

(* ================================================================== *)
(** * The Modification History *)
(* ================================================================== *)

Section History.

Import Page View.

(** X17. The Modification History lists the instructions, and nothing
    else. After a generation it is not rendered (the transcript has the
    prompt and the code only). Each manual fix that completes adds its
    instruction as the last entry, whatever code came back, and from then
    on the panel is rendered whenever the artifact is. *)
Theorem history_lists_instructions :
  (forall (response : list Route.Delta) (r : Render) (s0 : State),
     let res := mkResponse true (Route.queue (Route.start response)) false in
     showsHistory (fst (createApp_resume r res (fst (createApp r s0))))
     = false)
  /\ (forall (s : State) (res : Response),
        2 <= List.length (messages s) ->
        truthy (trim (fixPrompt s)) = true ->
        ok res = true -> rejects res = false ->
        let done := fst (fixCode_resume s res (fst (fixCode s None s))) in
        historyEntries done = historyEntries s ++ [fixPrompt s]
        /\ showsHistory done = truthy (generatedCode done)).
Proof.
  split.
  - intros response r s0 res. subst res.
    unfold showsHistory, createApp_resume. cbn [ok results rejects negb].
    rewrite consumeAll_start.
    destruct (concat (map Route.deltaText response)); cbn;
      first [reflexivity | apply andb_false_r].
  - intros s res Hlen Ht Hok Hrej done. subst done.
    unfold fixCode. cbn [fixRequestOf]. rewrite Ht. cbn [negb fst snd].
    unfold fixCode_resume. rewrite Hok, Hrej. cbn [negb].
    match goal with |- context [consumeAll ?rs ?st] =>
      destruct (consumeAll_only_code rs st) as [code E];
      destruct (consumeAll rs st) as [fullCode s1]
    end.
    cbn [snd fst] in *. subst s1.
    unfold historyEntries, showsHistory. cbn.
    rewrite <- app_assoc. cbn [app].
    split.
    + destruct (messages s) as [|m1 [|m2 ms]]; cbn [List.length] in Hlen;
        try lia.
      cbn [app]. now rewrite filter_app, map_app.
    + rewrite length_app. cbn [List.length].
      destruct (List.length (messages s)) as [|[|k]]; try lia.
      cbn [Nat.add]. rewrite Nat.add_comm. cbn [Nat.add].
      apply andb_true_r.
Qed.

Lemma history_lists_instructions_witness :
  let s := setFixPrompt (u "make it blue")
             (setMessages (fun _ => [mkMessage user (u "build a counter");
                                     mkMessage assistant (u "x")])
                (setGeneratedCode (u "x") initial)) in
  historyEntries (fst (fixCode_resume s okResponse (fst (fixCode s None s))))
  = [u "make it blue"].
Proof.
  exact (proj1 (proj2 history_lists_instructions
           (setFixPrompt (u "make it blue")
              (setMessages (fun _ => [mkMessage user (u "build a counter");
                                      mkMessage assistant (u "x")])
                 (setGeneratedCode (u "x") initial)))
           okResponse (Nat.le_refl 2) eq_refl eq_refl eq_refl)).
Defined.

End History.

(* ================================================================== *)
(** * Chunk boundaries *)
(* ================================================================== *)

Section ChunkBoundaries.

Local Open Scope N_scope.

Import Route Decoder TextDecoder.

(** ** A line that parses *)

Lemma parseValue_head (n : nat) (s : jsstring) (x : JSON.value * jsstring) :
  JSON.parseValue n s = Some x ->
  exists c r, JSON.skipSpace s = c :: r /\ isWhiteSpace c = false
              /\ c <> BOM.
Proof.
  destruct n as [|n]; [discriminate|]. cbn [JSON.parseValue].
  destruct (JSON.skipSpace s) as [|c r]; [discriminate|].
  intros H. exists c, r. split; [reflexivity|].
  destruct (N.eqb_spec c 123) as [->|_]; [now split|].
  destruct (N.eqb_spec c 91) as [->|_]; [now split|].
  destruct (N.eqb_spec c 34) as [->|_]; [now split|].
  destruct (N.eqb_spec c 116) as [->|_]; [now split|].
  destruct (N.eqb_spec c 102) as [->|_]; [now split|].
  destruct (N.eqb_spec c 110) as [->|_]; [now split|].
  unfold JSON.numberToken in H.
  destruct (N.eqb_spec c 45) as [->|_]; [now split|].
  destruct (N.eqb_spec c 48) as [->|_]; [now split|].
  destruct (JSON.isDigit c) eqn:D; [|discriminate].
  unfold JSON.isDigit in D. apply andb_true_iff in D. destruct D as [D1 D2].
  apply N.leb_le in D1, D2. unfold isWhiteSpace, BOM.
  split; [|lia].
  repeat match goal with
         | |- context [(?a <=? ?b)] => destruct (N.leb_spec a b); try lia
         | |- context [(?a =? ?b)] => destruct (N.eqb_spec a b); try lia
         end.
  all: reflexivity.
Qed.

Lemma skipSpace_trimStart (s r : jsstring) (c : N) :
  JSON.skipSpace s = c :: r -> isWhiteSpace c = false ->
  trimStart s = c :: r.
Proof.
  intros H Hc. induction s as [|x s IH]; [discriminate|].
  cbn [JSON.skipSpace trimStart] in *.
  destruct (JSON.isJsonSpace x) eqn:J.
  - assert (isWhiteSpace x = true) as ->.
    { unfold JSON.isJsonSpace in J. unfold isWhiteSpace.
      destruct (N.eqb_spec x 9) as [->|_]; [reflexivity|].
      destruct (N.eqb_spec x 10) as [->|_]; [reflexivity|].
      destruct (N.eqb_spec x 13) as [->|_]; [reflexivity|].
      destruct (N.eqb_spec x 32) as [->|_]; [reflexivity|].
      discriminate. }
    now apply IH.
  - injection H as -> ->. now rewrite Hc.
Qed.

(** A line that parses is not blank, and does not start with the byte
    order mark. *)
Lemma parse_line (l : jsstring) (v : JSON.value) :
  JSON.parse l = Some v ->
  nonBlank l = true /\ l <> [] /\ (forall r, l <> BOM :: r).
Proof.
  unfold JSON.parse.
  destruct (JSON.parseValue (2 * List.length l + 2) l) as [x|] eqn:E;
    [|discriminate].
  intros _. destruct (parseValue_head _ _ _ E) as [c [r [Hs [Hc Hb]]]].
  split; [|split].
  - unfold nonBlank, trim. rewrite (skipSpace_trimStart _ _ _ Hs Hc).
    cbn [trimEnd]. destruct (trimEnd r); [now rewrite Hc | reflexivity].
  - intros ->. discriminate.
  - intros r0 ->. cbn in Hs. injection Hs as <- _. now apply Hb.
Qed.

(** ** Texts that the encoder writes and the decoder reads back *)

Lemma isWellFormed_app (a b : jsstring) :
  isWellFormed a = true -> isWellFormed (a ++ b) = isWellFormed b.
Proof.
  induction a as [|c|c d r IHr IHdr] using pair_induction; intros H.
  - reflexivity.
  - cbn [isWellFormed app] in *.
    destruct (isHighSurrogate c); [discriminate|].
    apply andb_true_iff in H. destruct H as [H _]. rewrite H.
    destruct b; reflexivity.
  - rewrite isWellFormed_pair in H. cbn [app].
    rewrite isWellFormed_pair.
    destruct (isHighSurrogate c).
    + apply andb_true_iff in H. destruct H as [H1 H2]. rewrite H1.
      cbn [andb]. now apply IHr.
    + apply andb_true_iff in H. destruct H as [H1 H2]. rewrite H1.
      cbn [andb]. now apply IHdr.
Qed.

Lemma texts_encoded (ss : list jsstring) (bom : bool) :
  Forall (fun s => isString s /\ isWellFormed s = true
                   /\ forall r, s <> BOM :: r) ss ->
  texts (mkState 0 0 0 128 191 bom) (map encode ss) = ss.
Proof.
  intros H. revert bom. induction H as [|s ss [Hs [Hw Hb]] _ IH]; intros bom.
  - reflexivity.
  - cbn [map texts]. destruct s as [|c r].
    + change (decode (mkState 0 0 0 128 191 bom) (encode []))
        with (mkState 0 0 0 128 191 bom, @nil N).
      cbv iota. now rewrite IH.
    + rewrite (decode_encode_string (c :: r) bom Hs Hw).
      * now rewrite IH.
      * right. exists c, r. split; [reflexivity|].
        intros ->. now apply (Hb r).
Qed.

(** A group of pieces, none empty, none starting with the byte order
    mark: their concatenation is a text of that kind. *)
Lemma concat_text (g : list jsstring) :
  Forall (fun t => isString t /\ isWellFormed t = true
                   /\ t <> [] /\ forall r, t <> BOM :: r) g ->
  isString (concat g) /\ isWellFormed (concat g) = true
  /\ forall r, concat g <> BOM :: r.
Proof.
  induction 1 as [|t g [Ht [Hw [Hne Hb]]] _ [IH1 [IH2 IH3]]].
  - repeat split; [constructor | discriminate].
  - cbn [concat]. split; [|split].
    + apply Forall_app. now split.
    + now rewrite isWellFormed_app.
    + intros r E. destruct t as [|c t']; [congruence|].
      cbn [app] in E. injection E as -> _. now apply (Hb t').
Qed.

(** ** The lines of chunks that hold whole pieces *)

(** A group of pieces cut off the front of a sequence of lines, each
    followed by a line feed: its text gives the lines it holds, and what
    remains is such a sequence again, after the line feed of the last line
    when the cut falls before it. *)
Lemma group_lines (ls : list jsstring) (g rest : list jsstring) :
  Forall (fun l => Forall (fun c => c <> LF) l /\ nonBlank l = true) ls ->
  g ++ rest = flat_map (fun l => [l; [LF]]) ls ->
  exists ls1 ls2 (pending : bool),
    ls = ls1 ++ ls2
    /\ filter nonBlank (split LF (concat g)) = ls1
    /\ rest = (if pending then [[LF]] else [])
              ++ flat_map (fun l => [l; [LF]]) ls2.
Proof.
  intros H. revert g. induction H as [|l ls [Hl Hn] _ IH]; intros g E.
  - cbn [flat_map] in E. apply app_eq_nil in E. destruct E as [-> ->].
    exists [], [], false. repeat split.
  - cbn [flat_map app] in E.
    destruct g as [|t g1].
    + exists [], (l :: ls), false. cbn [app] in *. subst rest.
      repeat split.
    + cbn [app] in E. injection E as -> E.
      destruct g1 as [|t2 g2].
      * exists [l], ls, true. cbn [app] in *. subst rest.
        split; [reflexivity|]. split; [|reflexivity].
        cbn [concat]. rewrite app_nil_r, split_without_sep by exact Hl.
        cbn [filter]. now rewrite Hn.
      * cbn [app] in E. injection E as -> E.
        destruct (IH g2 E) as [ls1 [ls2 [pending [-> [F R]]]]].
        exists (l :: ls1), ls2, pending.
        split; [reflexivity|]. split; [|exact R].
        cbn [concat app]. rewrite split_app_sep, filter_app.
        rewrite split_without_sep by exact Hl.
        cbn [filter]. rewrite Hn, F. reflexivity.
Qed.

Lemma groups_lines (groups : list (list jsstring)) (ls : list jsstring)
    (pending : bool) :
  Forall (fun l => Forall (fun c => c <> LF) l /\ nonBlank l = true) ls ->
  concat groups = (if pending then [[LF]] else [])
                  ++ flat_map (fun l => [l; [LF]]) ls ->
  filter nonBlank (flat_map (split LF) (map (@concat N) groups)) = ls.
Proof.
  revert ls pending. induction groups as [|g groups IH]; intros ls pending H E.
  - cbn in E. destruct pending; [discriminate|].
    destruct ls; [reflexivity | discriminate].
  - cbn [concat map flat_map] in *. rewrite filter_app.
    destruct pending.
    + (* the line feed of the last line comes first *)
      destruct g as [|t g'].
      * cbn [app concat] in *. cbn. now apply (IH ls true).
      * cbn [app] in E. injection E as -> E.
        destruct (group_lines ls g' (concat groups) H E)
          as [ls1 [ls2 [pending [-> [F R]]]]].
        cbn [concat app]. cbn [split]. change (LF =? LF) with true.
        cbv iota. cbn [filter].
        change (nonBlank []) with false. cbv iota.
        rewrite F. f_equal. apply (IH ls2 pending); [|exact R].
        apply Forall_app in H. tauto.
    + cbn [app] in E.
      destruct (group_lines ls g (concat groups) H E)
        as [ls1 [ls2 [pending [-> [F R]]]]].
      rewrite F. f_equal. apply (IH ls2 pending); [|exact R].
      apply Forall_app in H. tauto.
Qed.

(** The run over chunks that hold whole pieces of a stream of lines. *)
Lemma readStream_whole_pieces (lines : list jsstring)
    (values : list JSON.value) (groups : list (list jsstring))
    (rejects : bool) :
  Forall2 (fun l v => isString l /\ isWellFormed l = true
                      /\ Forall (fun c => c <> LF) l
                      /\ JSON.parse l = Some v) lines values ->
  concat groups = flat_map (fun l => [l; [LF]]) lines ->
  readStream (Some (mkReader (map (fun g => encode (concat g)) groups)
                      rejects))
  = mkRun values [] rejects.
Proof.
  intros H E.
  assert (Forall (fun l => Forall (fun c => c <> LF) l /\ nonBlank l = true)
                 lines) as HL.
  { clear E.
    induction H as [|l v lines values [_ [_ [Hl Hp]]] _ IH]; [constructor|].
    constructor; [|exact IH].
    split; [exact Hl | exact (proj1 (parse_line l v Hp))]. }
  assert (Forall (fun t => isString t /\ isWellFormed t = true
                           /\ t <> [] /\ forall r, t <> BOM :: r)
                 (concat groups)) as HT.
  { rewrite E. clear E HL.
    induction H as [|l v lines values [Hs [Hw [_ Hp]]] _ IH];
      [constructor|].
    cbn [flat_map app].
    destruct (parse_line l v Hp) as [_ [Hne Hb]].
    constructor; [tauto|]. constructor; [|exact IH].
    repeat split; try discriminate. constructor; [reflexivity|constructor]. }
  apply Forall_concat in HT.
  assert (texts new (map (fun g => encode (concat g)) groups)
          = map (@concat N) groups) as HX.
  { rewrite <- (map_map (@concat N) encode). apply texts_encoded.
    apply Forall_map. eapply Forall_impl; [|exact HT].
    intros g Hg. now apply concat_text. }
  rewrite readStream_run. cbn [chunks Decoder.rejects].
  rewrite filter_malformed. unfold linesOf. rewrite HX.
  rewrite (groups_lines groups lines false HL E).
  assert (parsed lines = values /\ filter malformed lines = []) as [-> ->];
    [|reflexivity].
  clear E HL HT HX.
  induction H as [|l v lines values [_ [_ [_ Hp]]] _ [IH1 IH2]]; [now split|].
  cbn [parsed filter]. unfold malformed at 1, parses. rewrite Hp, IH1, IH2.
  rewrite andb_false_r. now split.
Qed.

(** The run over a line cut in two. *)
Lemma readStream_cut_line (a b : jsstring) (rejects : bool) :
  isString a -> isWellFormed a = true -> a <> [] ->
  (forall r, a <> BOM :: r) ->
  isString b -> isWellFormed b = true ->
  Forall (fun c => c <> LF) a -> Forall (fun c => c <> LF) b ->
  readStream (Some (mkReader [encode a; encode (b ++ [LF])] rejects))
  = mkRun (parsed (filter nonBlank [a; b])) (filter malformed [a; b])
      rejects.
Proof.
  intros Ha Hwa Hne Hba Hb Hwb Hla Hlb.
  rewrite readStream_run. cbn [chunks Decoder.rejects].
  unfold linesOf, new. cbn [texts].
  destruct a as [|c r]; [congruence|].
  rewrite (decode_encode_string (c :: r) false Ha Hwa).
  2:{ right. exists c, r. split; [reflexivity|]. intros ->.
      now apply (Hba r). }
  rewrite (decode_encode_string (b ++ [LF]) true).
  2:{ apply Forall_app. split; [exact Hb|].
      constructor; [reflexivity | constructor]. }
  2:{ now rewrite isWellFormed_app. }
  2:{ now left. }
  cbn [flat_map]. rewrite app_nil_r.
  rewrite split_without_sep by exact Hla.
  rewrite split_app_sep, split_without_sep by exact Hlb.
  cbn [app split]. cbn [filter].
  change (nonBlank []) with false. change (malformed []) with false.
  reflexivity.
Qed.

(** C4, amended. Characters are not corrupted by chunk boundaries: the
    texts decoded chunk by chunk, joined, are the text of the whole byte
    stream. Lines are not put together across chunks: the text of each
    chunk is split at line feeds by itself and every piece that is not blank
    is parsed on its own. So, for a stream of records, each on a line
    followed by a line feed, the decoder yields every record once and in
    order, with nothing reported, when no chunk boundary falls inside a
    record (a boundary just before or just after a line feed is as good as
    any between two records, and chunks may be empty); the same holds for
    any bytes when every chunk is empty or ends with the line feed byte, as
    it would for the stream in one chunk. A record cut in two by a chunk
    boundary is handled as two lines, each parsed on its own. *)
Theorem readStream_chunk_boundaries :
  (forall st chunks,
     concat (texts st chunks) = snd (TextDecoder.decode st (concat chunks)))
  /\ (forall chunks rejects,
        readStream (Some (mkReader chunks rejects))
        = mkRun
            (parsed (filter nonBlank
                       (flat_map (split LF) (texts TextDecoder.new chunks))))
            (filter malformed
                    (flat_map (split LF) (texts TextDecoder.new chunks)))
            rejects)
  /\ (forall lines values groups rejects,
        Forall2 (fun l v => isString l /\ isWellFormed l = true
                            /\ Forall (fun c => c <> LF) l
                            /\ JSON.parse l = Some v) lines values ->
        concat groups = flat_map (fun l => [l; [LF]]) lines ->
        readStream
          (Some (mkReader (map (fun g => encode (concat g)) groups) rejects))
        = mkRun values [] rejects)
  /\ (forall chunks rejects,
        Forall endsAtLineBoundary chunks ->
        readStream (Some (mkReader chunks rejects))
        = readStream (Some (mkReader [concat chunks] rejects)))
  /\ (forall a b rejects,
        isString a -> isWellFormed a = true -> a <> [] ->
        (forall r, a <> BOM :: r) ->
        isString b -> isWellFormed b = true ->
        Forall (fun c => c <> LF) a -> Forall (fun c => c <> LF) b ->
        readStream (Some (mkReader [encode a; encode (b ++ [LF])] rejects))
        = mkRun (parsed (filter nonBlank [a; b])) (filter malformed [a; b])
            rejects).
Proof.
  split; [intros st chunks; apply texts_concat|].
  split; [intros chunks rejects; apply (readStream_run (mkReader chunks rejects))|].
  split; [exact readStream_whole_pieces|].
  split; [exact readStream_whole_chunks | exact readStream_cut_line].
Qed.

(** Two records in four chunks: the first boundary falls just before a
    line feed, the third chunk is empty, the last holds a line feed
    alone. *)
Lemma readStream_chunk_boundaries_witness :
  let line := stringifyRecord (fragmentRecord (u "a")) in
  let groups := [[line]; [[LF]; line]; []; [[LF]]] in
  concat groups = flat_map (fun l => [l; [LF]]) [line; line]
  /\ readStream
       (Some (mkReader (map (fun g => encode (concat g)) groups) false))
     = mkRun [recordValue; recordValue] [] false.
Proof.
  split; [reflexivity|].
  apply (proj1 (proj2 (proj2 readStream_chunk_boundaries))
           [stringifyRecord (fragmentRecord (u "a"));
            stringifyRecord (fragmentRecord (u "a"))]
           [recordValue; recordValue]);
    [|reflexivity].
  repeat (constructor;
          [split; [repeat (constructor; [reflexivity|]); constructor|];
           split; [reflexivity|];
           split; [repeat (constructor; [discriminate|]); constructor
                  | reflexivity]|]).
  constructor.
Defined.

End ChunkBoundaries.
